(** * pil-splitter / pil-squasher: a shallow embedding and its properties

    The development follows the C++ sources:
    - [endian_utils.hpp]: [byteswap], [from_file_endian];
    - [pil_common.hpp]: [is_pil_hash_segment], the stream helpers
      ([read_file_at], [read_struct_at], [write_file_at], [append_to_file]),
      [detect_elf_format], [read_elf_header], [read_program_headers],
      [get_phdr_info], [write_elf_header_and_phdrs];
    - [pil-splitter.cpp]: [write_segment_file], [split_impl], [split],
      [main];
    - [pil-squasher.cpp]: [read_segment_data], [squash_impl], [squash],
      [main].

    How the program is rendered:
    - unsigned machine integers are values of [Z] with the wrap-around
      written out; [size_t] has 64 bits;
    - a record read with [bit_cast] is its raw bytes, and a field is the
      number the host reads in those bytes; the byte order of the host
      ([is_little_endian()]) is a parameter;
    - files are lists of bytes and the file system is a finite map from
      path names to files; a stream is a handle on a path, so streams on
      one path see one file; file sizes are not bounded;
    - the stream operations run in a state-and-exception monad over the
      file system and a trace of the stream operations performed; what
      was written before an exception stays written;
    - opening a file for writing creates or empties it and does not
      fail; writing does not fail; reading fails when the bytes asked for
      are not there;
    - [std::filesystem::path::extension] and [replace_extension] are
      parameters; a POSIX-style reading of them serves the examples;
    - [phdrs[0]] on an empty vector, undefined in C++, is an error branch
      of its own;
    - [main] is rendered by its exit status and by the branch that wrote
      to [std::cerr]; the wording of the messages is left out. *)

From Stdlib Require Import ZArith Lia Bool List.
From Stdlib Require Import Strings.Byte Strings.Ascii Strings.String.
From stdpp Require Import base option list gmap strings pretty.

Local Open Scope Z_scope.

(** ** Unsigned integers of a fixed width *)

Module Int.

(** The integral types the sources instantiate the templates with:
    [uint8_t], [uint16_t], [uint32_t], [uint64_t]. *)
Inductive width : Set := W8 | W16 | W32 | W64.

(** [sizeof(T)] *)
Definition sizeof (w : width) : nat :=
  match w with W8 => 1 | W16 => 2 | W32 => 4 | W64 => 8 end%nat.

Definition bits (w : width) : Z := 8 * Z.of_nat (sizeof w).

(** [static_cast<T>(x)] for an unsigned [T]: reduction modulo [2^bits]. *)
Definition wrap (w : width) (x : Z) : Z := x mod 2 ^ bits w.

Definition in_range (w : width) (x : Z) : Prop := 0 <= x < 2 ^ bits w.

(** Left shift in unsigned arithmetic of width [w]. *)
Definition shl (w : width) (x n : Z) : Z := wrap w (Z.shiftl x n).

End Int.
Import Int.

(** ** endian_utils.hpp *)

(** [byteswap<T>]: one branch of the [if constexpr] chain per size.  In
    the two-byte branch the operands are promoted to [int] before the
    shifts, so only the final cast truncates; in the wider branches every
    left shift is done in the unsigned type itself. *)
Definition byteswap (w : width) (value : Z) : Z :=
  match w with
  | W8 => value
  | W16 =>
      let v := wrap W16 value in
      wrap W16 (Z.lor (Z.shiftl v 8) (Z.shiftr v 8))
  | W32 =>
      let v := wrap W32 value in
      wrap W32
        (Z.lor (Z.lor (Z.lor
           (Z.shiftr (Z.land v 0xFF000000) 24)
           (Z.shiftr (Z.land v 0x00FF0000) 8))
           (shl W32 (Z.land v 0x0000FF00) 8))
           (shl W32 (Z.land v 0x000000FF) 24))
  | W64 =>
      let v := wrap W64 value in
      wrap W64
        (Z.lor (Z.lor (Z.lor (Z.lor (Z.lor (Z.lor (Z.lor
           (Z.shiftr (Z.land v 0xFF00000000000000) 56)
           (Z.shiftr (Z.land v 0x00FF000000000000) 40))
           (Z.shiftr (Z.land v 0x0000FF0000000000) 24))
           (Z.shiftr (Z.land v 0x000000FF00000000) 8))
           (shl W64 (Z.land v 0x00000000FF000000) 8))
           (shl W64 (Z.land v 0x0000000000FF0000) 24))
           (shl W64 (Z.land v 0x000000000000FF00) 40))
           (shl W64 (Z.land v 0x00000000000000FF) 56))
  end.

(** [from_file_endian<T>].  [host_le] is the compile-time constant
    [is_little_endian()] of the host the tools were built for. *)
Definition from_file_endian (host_le : bool) (w : width) (value : Z)
    (file_is_little_endian : bool) : Z :=
  if Bool.eqb file_is_little_endian host_le then value
  else byteswap w value.

(** ** pil_common.hpp: the segment classifier *)

Definition PIL_SEGMENT_TYPE_SHIFT : Z := 24.
Definition PIL_SEGMENT_TYPE_MASK : Z := 7.
Definition PIL_SEGMENT_TYPE_HASH : Z := 2.

Definition is_pil_hash_segment (p_flags : Z) : bool :=
  Z.land (Z.shiftr p_flags PIL_SEGMENT_TYPE_SHIFT) PIL_SEGMENT_TYPE_MASK
    =? PIL_SEGMENT_TYPE_HASH.

(** ** Bytes and their numeric reading *)

#[global] Instance byte_eq_decision : EqDecision byte := Byte.byte_eq_dec.

Definition byte_val (b : byte) : Z := Z.of_N (Byte.to_N b).

Definition byte_of_Z (z : Z) : byte :=
  default x00 (Byte.of_N (Z.to_N (z mod 256))).

(** The little-endian reading of a byte string, and the little-endian
    byte string of a number. *)
Fixpoint of_le_bytes (bs : list byte) : Z :=
  match bs with
  | [] => 0
  | b :: r => byte_val b + 256 * of_le_bytes r
  end.

Fixpoint le_bytes (n : nat) (v : Z) : list byte :=
  match n with
  | O => []
  | S n' => byte_of_Z v :: le_bytes n' (v / 256)
  end.

(** The value whose bytes are those of [v] in the opposite order. *)
Definition byte_reversed (w : width) (v : Z) : Z :=
  of_le_bytes (rev (le_bytes (sizeof w) v)).


(** The value of an integer field of a structure obtained by
    [bit_cast] from raw bytes: the host reads the bytes in its own
    order. *)
Definition host_int (host_le : bool) (bs : list byte) : Z :=
  if host_le then of_le_bytes bs else of_le_bytes (rev bs).

(** ** ELF constants and record layouts *)

(** Modelled from the spec: [elf.h] is not among the sources.  The
    identification constants have their System V values; the spec fixes
    the header sizes (52 and 64 bytes). *)
Definition EI_NIDENT : Z := 16.
Definition SELFMAG : nat := 4.
Definition ELFMAG : list byte := [x7f; x45; x4c; x46].
Definition EI_CLASS : nat := 4.
Definition EI_DATA : nat := 5.
Definition ELFCLASS32 : byte := x01.
Definition ELFCLASS64 : byte := x02.
Definition ELFDATA2LSB : byte := x01.
Definition ELFDATA2MSB : byte := x02.

(** The capabilities the templates [split_impl<ElfHeader, ElfPhdr>] and
    [squash_impl<ElfHeader, ElfPhdr>] use of their two type parameters:
    the sizes of the records and the places and widths of the fields
    that are decoded. [e_phnum] is a 16-bit and [p_flags] a 32-bit field
    in both classes. *)
Record elf_layout : Set := ElfLayout {
  ehdr_size : nat;        (* sizeof(ElfHeader) *)
  e_phoff_at : nat;
  e_phoff_w : width;
  e_phnum_at : nat;
  phdr_size : nat;        (* sizeof(ElfPhdr) *)
  p_offset_at : nat;
  p_offset_w : width;
  p_filesz_at : nat;
  p_filesz_w : width;
  p_flags_at : nat
}.

(** Modelled from the spec: the layouts of [Elf32_Ehdr], [Elf32_Phdr],
    [Elf64_Ehdr] and [Elf64_Phdr] of the missing [elf.h]. *)
Definition Elf32 : elf_layout :=
  {| ehdr_size := 52; e_phoff_at := 28; e_phoff_w := W32; e_phnum_at := 44;
     phdr_size := 32; p_offset_at := 4; p_offset_w := W32;
     p_filesz_at := 16; p_filesz_w := W32; p_flags_at := 24 |}.

Definition Elf64 : elf_layout :=
  {| ehdr_size := 64; e_phoff_at := 32; e_phoff_w := W64; e_phnum_at := 56;
     phdr_size := 56; p_offset_at := 8; p_offset_w := W64;
     p_filesz_at := 32; p_filesz_w := W64; p_flags_at := 4 |}.

(** ** Files, streams and the state of the world *)

(** Contents of a file as seen by [read_file_at(file, offset, size)]:
    [Some] of the bytes when [size] bytes are available at [offset]. *)
Definition read_at (f : list byte) (offset size : Z) : option (list byte) :=
  if size =? 0 then Some []
  else if (0 <=? offset) && (0 <=? size)
          && (offset + size <=? Z.of_nat (length f))
  then Some (take (Z.to_nat size) (drop (Z.to_nat offset) f))
  else None.

(** Contents of a file after [seekp(offset); write(data)]: a gap between
    the old end of the file and [offset] reads as zero bytes. *)
Definition write_at (f : list byte) (offset : nat) (data : list byte)
    : list byte :=
  match data with
  | [] => f
  | _ => take offset f ++ replicate (offset - length f) x00 ++ data
           ++ drop (offset + length data) f
  end.

Inductive error : Set :=
| NotMdtFile (p : string)      (* Error("... is not a .mdt file") *)
| OpenFailed (p : string)      (* throw_system_error("Failed to open ...") *)
| IosFailure                   (* std::ios_base::failure of a short read *)
| NotElf                       (* Error("Not a valid ELF file") *)
| UnknownEncoding              (* Error("Unknown ELF data encoding") *)
| UnsupportedClass (c : byte)  (* Error("Unsupported ELF class ...") *)
| IndexOutOfRange.             (* phdrs[0] of an empty vector *)

Inductive outcome (A : Type) : Type :=
| Returned (a : A)
| Thrown (e : error).
Arguments Returned {A} a.
Arguments Thrown {A} e.

(** The stream objects of one run: the [mbn] stream, the [mdt] stream,
    and the local [bxx] stream of the call for segment [i]. *)
Inductive stream_id : Set := SMbn | SMdt | SBxx (i : nat).

Record stream : Set := Stream { sid : stream_id; spath : string }.

Inductive event : Set :=
| EvOpen (s : stream_id) (p : string)
| EvCreate (s : stream_id) (p : string)
| EvRead (s : stream_id) (offset size : Z)
| EvWrite (s : stream_id) (offset : Z) (data : list byte)
| EvAppend (s : stream_id) (data : list byte).

(** The file system and the stream operations performed so far.  A
    stream reads and writes the file of its path in the file system, so
    two streams on one path share their contents. *)
Record world : Type := World {
  files : gmap string (list byte);
  trace : list event
}.

(** Computations on the world that return or throw; what was written
    before an exception stays written. *)
Definition io (A : Type) : Type := world → world * outcome A.

Definition ret {A} (a : A) : io A := λ w, (w, Returned a).
Definition throw {A} (e : error) : io A := λ w, (w, Thrown e).
Definition bind {A B} (m : io A) (k : A → io B) : io B :=
  λ w, match m w with
       | (w', Returned a) => k a w'
       | (w', Thrown e) => (w', Thrown e)
       end.

Declare Scope io_scope.
Delimit Scope io_scope with io.
Notation "'let*' x := m 'in' k" := (bind m (λ x, k))
  (at level 10, x name, m at level 100, k at level 200) : io_scope.
Notation "m ;; k" := (bind m (λ _, k))
  (at level 100, k at level 200, right associativity) : io_scope.
Local Open Scope io_scope.

Definition log (e : event) : io unit :=
  λ w, (World (files w) (trace w ++ [e]), Returned tt).

Definition contents (p : string) : io (option (list byte)) :=
  λ w, (w, Returned (files w !! p)).

Definition store (p : string) (f : list byte) : io unit :=
  λ w, (World (<[p := f]> (files w)) (trace w), Returned tt).

(** [for (size_t i = from; ...; ++i)] over the elements of a vector,
    threading a state through the iterations. *)
Fixpoint for_indexed {A St} (body : nat → A → St → io St) (i : nat)
    (l : list A) (s : St) : io St :=
  match l with
  | [] => ret s
  | x :: r => let* s' := body i x s in for_indexed body (S i) r s'
  end.

(** [size_t] arithmetic. *)
Definition size_add (a b : Z) : Z := wrap W64 (a + b).
Definition size_mul (a b : Z) : Z := wrap W64 (a * b).

(** [std::ifstream f(path, std::ios::binary); if (!f) throw_system_error(...)] *)
Definition open_in (id : stream_id) (p : string) : io stream :=
  log (EvOpen id p) ;;
  let* c := contents p in
  match c with
  | Some _ => ret (Stream id p)
  | None => throw (OpenFailed p)
  end.

(** [std::ofstream f(path, std::ios::binary | std::ios::trunc)]: the file
    is created or emptied.  Creation itself is taken to succeed. *)
Definition open_out (id : stream_id) (p : string) : io stream :=
  log (EvCreate id p) ;;
  store p [] ;;
  ret (Stream id p).

(** [file.seekg(offset); file.read(buffer, size)] on an input stream.
    Every input stream of the two tools has
    [exceptions(failbit | badbit)] set before it is read, so a read that
    finds fewer than [size] bytes raises the stream's own failure. *)
Definition seek_read (file : stream) (offset size : Z) : io (list byte) :=
  log (EvRead (sid file) offset size) ;;
  let* c := contents (spath file) in
  match c ≫= λ f, read_at f offset size with
  | Some buffer => ret buffer
  | None => throw IosFailure
  end.

(** [read_file_at]: after a read that did not raise, the comparison of
    [gcount()] with [size] cannot fail. *)
Definition read_file_at (file : stream) (offset size : Z)
    : io (list byte) :=
  seek_read file offset size.

(** [read_struct_at<T>]: the structure is its raw bytes. *)
Definition read_struct_at (sizeof_T : nat) (file : stream) (offset : Z)
    : io (list byte) :=
  seek_read file offset (Z.of_nat sizeof_T).

(** [write_file_at] *)
Definition write_file_at (file : stream) (offset : Z) (data : list byte)
    : io unit :=
  log (EvWrite (sid file) offset data) ;;
  let* c := contents (spath file) in
  store (spath file) (write_at (default [] c) (Z.to_nat offset) data).

(** [append_to_file] *)
Definition append_to_file (file : stream) (data : list byte) : io unit :=
  log (EvAppend (sid file) data) ;;
  let* c := contents (spath file) in
  store (spath file) (default [] c ++ data).

Record ElfFormat : Set := MkElfFormat {
  elf_class : byte;
  is_little_endian : bool
}.

(** [detect_elf_format]: the stream read of the identification block,
    then the three checks in the order of the source. *)
Definition detect_elf_format (file : stream) : io ElfFormat :=
  let* e_ident := seek_read file 0 EI_NIDENT in
  if negb (bool_decide (take SELFMAG e_ident = ELFMAG)) then throw NotElf
  else
    let data := default x00 (e_ident !! EI_DATA) in
    let class := default x00 (e_ident !! EI_CLASS) in
    if bool_decide (data = ELFDATA2LSB) || bool_decide (data = ELFDATA2MSB)
    then
      let is_le := bool_decide (data = ELFDATA2LSB) in
      if negb (bool_decide (class = ELFCLASS32))
         && negb (bool_decide (class = ELFCLASS64))
      then throw (UnsupportedClass class)
      else ret (MkElfFormat class is_le)
    else throw UnknownEncoding.

Section PIL.

(** [is_little_endian()] of the host. *)
Variable host_le : bool.

(** [std::filesystem::path::extension] and [replace_extension]. *)
Variable extension : string → string.
Variable replace_extension : string → string → string.

(** A field of a record, as the host sees it. *)
Definition field (raw : list byte) (at_ : nat) (w : width) : Z :=
  host_int host_le (take (sizeof w) (drop at_ raw)).

Definition e_phoff (L : elf_layout) (ehdr : list byte) : Z :=
  field ehdr (e_phoff_at L) (e_phoff_w L).
Definition e_phnum (L : elf_layout) (ehdr : list byte) : Z :=
  field ehdr (e_phnum_at L) W16.
Definition p_offset (L : elf_layout) (phdr : list byte) : Z :=
  field phdr (p_offset_at L) (p_offset_w L).
Definition p_filesz (L : elf_layout) (phdr : list byte) : Z :=
  field phdr (p_filesz_at L) (p_filesz_w L).
Definition p_flags (L : elf_layout) (phdr : list byte) : Z :=
  field phdr (p_flags_at L) W32.

(** [read_elf_header<ElfHeader>] *)
Definition read_elf_header (L : elf_layout) (file : stream)
    : io (list byte) :=
  read_struct_at (ehdr_size L) file 0.

(** The decoded [e_phoff] and [e_phnum]. *)
Definition phoff_of (L : elf_layout) (ehdr : list byte) (is_le : bool) : Z :=
  from_file_endian host_le (e_phoff_w L) (e_phoff L ehdr) is_le.
Definition phnum_of (L : elf_layout) (ehdr : list byte) (is_le : bool) : Z :=
  from_file_endian host_le W16 (e_phnum L ehdr) is_le.

(** [phoff + i * sizeof(ElfPhdr)], computed in [size_t]. *)
Definition phdr_pos (L : elf_layout) (phoff : Z) (i : nat) : Z :=
  size_add phoff (size_mul (Z.of_nat i) (Z.of_nat (phdr_size L))).

(** [read_program_headers<ElfHeader, ElfPhdr>] *)
Definition read_program_headers (L : elf_layout) (file : stream)
    (ehdr : list byte) (is_le : bool) : io (list (list byte)) :=
  let phoff := phoff_of L ehdr is_le in
  let phnum := phnum_of L ehdr is_le in
  for_indexed
    (λ i (_ : unit) phdrs,
       let* ph := read_struct_at (phdr_size L) file (phdr_pos L phoff i) in
       ret (phdrs ++ [ph]))
    0 (replicate (Z.to_nat phnum) tt) [].

(** [get_phdr_info]: offset, filesz, flags. *)
Definition get_phdr_info (L : elf_layout) (phdr : list byte) (is_le : bool)
    : Z * Z * Z :=
  (from_file_endian host_le (p_offset_w L) (p_offset L phdr) is_le,
   from_file_endian host_le (p_filesz_w L) (p_filesz L phdr) is_le,
   from_file_endian host_le W32 (p_flags L phdr) is_le).

(** [std::format(".b{:02d}", segment_index)] *)
Definition bxx_extension (segment_index : nat) : string :=
  if (segment_index <? 10)%nat then ".b0" +:+ pretty segment_index
  else ".b" +:+ pretty segment_index.

Definition bxx_path (mdt_path : string) (segment_index : nat) : string :=
  replace_extension mdt_path (bxx_extension segment_index).

(** The header and the program headers are written from the raw bytes
    that were read: the first part of [split_impl] and of
    [squash_impl]. *)
Definition write_headers (L : elf_layout) (out : stream)
    (ehdr : list byte) (phdrs : list (list byte)) (is_le : bool) : io unit :=
  write_file_at out 0 ehdr ;;
  let phoff := phoff_of L ehdr is_le in
  for_indexed
    (λ i ph (_ : unit), write_file_at out (phdr_pos L phoff i) ph)
    0 phdrs tt.

(** *** pil-splitter.cpp *)

Definition write_segment_file (mdt_path : string) (segment_index : nat)
    (data : list byte) : io unit :=
  let* bxx := open_out (SBxx segment_index) (bxx_path mdt_path segment_index) in
  write_file_at bxx 0 data.

(** The body of the segment loop of [split_impl]. *)
Definition split_segment (L : elf_layout) (mbn mdt : stream)
    (mdt_path : string) (is_le : bool) (i : nat) (phdr : list byte)
    (_ : unit) : io unit :=
  let '(p_offset, p_filesz, p_flags) := get_phdr_info L phdr is_le in
  if p_filesz =? 0 then ret tt
  else
    let* segment := read_file_at mbn p_offset p_filesz in
    write_segment_file mdt_path i segment ;;
    if is_pil_hash_segment p_flags then append_to_file mdt segment
    else ret tt.

Definition split_impl (L : elf_layout) (mbn mdt : stream)
    (mdt_path : string) (is_le : bool) : io unit :=
  let* ehdr := read_elf_header L mbn in
  let* phdrs := read_program_headers L mbn ehdr is_le in
  write_headers L mdt ehdr phdrs is_le ;;
  for_indexed (split_segment L mbn mdt mdt_path is_le) 0 phdrs tt.

Definition split (mbn_path mdt_path : string) : io unit :=
  if negb (bool_decide (extension mdt_path = ".mdt"))
  then throw (NotMdtFile mdt_path)
  else
    let* mbn := open_in SMbn mbn_path in
    let* mdt := open_out SMdt mdt_path in
    let* format := detect_elf_format mbn in
    if bool_decide (elf_class format = ELFCLASS32)
    then split_impl Elf32 mbn mdt mdt_path (is_little_endian format)
    else if bool_decide (elf_class format = ELFCLASS64)
    then split_impl Elf64 mbn mdt mdt_path (is_little_endian format)
    else ret tt.

(** *** pil-squasher.cpp *)

(** [read_segment_data]; the reference parameter [hash_offset] is
    returned with the segment. *)
Definition read_segment_data (mdt : stream) (mdt_path : string)
    (segment_index : nat) (filesz : Z) (is_hash_segment : bool)
    (hash_offset : Z) : io (list byte * Z) :=
  if is_hash_segment then
    let* segment := read_file_at mdt hash_offset filesz in
    ret (segment, size_add hash_offset filesz)
  else
    let* bxx := open_in (SBxx segment_index) (bxx_path mdt_path segment_index) in
    let* segment := read_file_at bxx 0 filesz in
    ret (segment, hash_offset).

(** The body of the segment loop of [squash_impl]; the state is
    [hash_offset]. *)
Definition squash_segment (L : elf_layout) (mdt mbn : stream)
    (mdt_path : string) (is_le : bool) (i : nat) (phdr : list byte)
    (hash_offset : Z) : io Z :=
  let '(p_offset, p_filesz, p_flags) := get_phdr_info L phdr is_le in
  if p_filesz =? 0 then ret hash_offset
  else
    let* r := read_segment_data mdt mdt_path i p_filesz
           (is_pil_hash_segment p_flags) hash_offset in
    write_file_at mbn p_offset r.1 ;;
    ret r.2.

Definition squash_impl (L : elf_layout) (mdt mbn : stream)
    (mdt_path : string) (is_le : bool) : io unit :=
  let* ehdr := read_elf_header L mdt in
  let* phdrs := read_program_headers L mdt ehdr is_le in
  write_headers L mbn ehdr phdrs is_le ;;
  match phdrs !! 0%nat with
  | None => throw IndexOutOfRange
  | Some phdr0 =>
      let hash_offset :=
        from_file_endian host_le (p_filesz_w L) (p_filesz L phdr0) is_le in
      for_indexed (squash_segment L mdt mbn mdt_path is_le) 0 phdrs
        hash_offset ;;
      ret tt
  end.

Definition squash (mdt_path mbn_path : string) : io unit :=
  if negb (bool_decide (extension mdt_path = ".mdt"))
  then throw (NotMdtFile mdt_path)
  else
    let* mdt := open_in SMdt mdt_path in
    let* mbn := open_out SMbn mbn_path in
    let* format := detect_elf_format mdt in
    if bool_decide (elf_class format = ELFCLASS32)
    then squash_impl Elf32 mdt mbn mdt_path (is_little_endian format)
    else if bool_decide (elf_class format = ELFCLASS64)
    then squash_impl Elf64 mdt mbn mdt_path (is_little_endian format)
    else ret tt.

End PIL.

(** ** A concrete reading of the path functions

    [std::filesystem::path] for POSIX-style names: the file name is what
    follows the last slash, and its extension starts at its last dot,
    unless that dot is its first character or the name is [..].  The
    theorems below hold for any pair of path functions; the examples use
    this one. *)

(** [split_last c s] cuts [s] in front of its last occurrence of [c]. *)
Fixpoint split_last (c : ascii) (s : list ascii)
    : option (list ascii * list ascii) :=
  match s with
  | [] => None
  | x :: r =>
      match split_last c r with
      | Some (a, b) => Some (x :: a, b)
      | None => if Ascii.eqb x c then Some ([], x :: r) else None
      end
  end.

(** Directory part (with its slash), stem and extension of a path. *)
Definition path_parts (p : string)
    : list ascii * list ascii * list ascii :=
  let chars := list_ascii_of_string p in
  let '(dir, name) :=
    match split_last "/"%char chars with
    | Some (d, name) => (d ++ take 1 name, drop 1 name)
    | None => ([], chars)
    end in
  match split_last "."%char name with
  | Some (stem, ext) =>
      if bool_decide (stem = []) || bool_decide (name = [".";"."]%char)
      then (dir, name, [])
      else (dir, stem, ext)
  | None => (dir, name, [])
  end.

Definition posix_extension (p : string) : string :=
  string_of_list_ascii (path_parts p).2.

Definition posix_replace_extension (p new : string) : string :=
  let '(dir, stem, _) := path_parts p in
  let dot :=
    match new with
    | EmptyString => ""
    | String c _ => if Ascii.eqb c "."%char then "" else "."
    end in
  string_of_list_ascii (dir ++ stem) +:+ dot +:+ new.

(** ** pil_common.hpp: the common writing helper *)

(** [span.subspan(offset, count)] *)
Definition subspan (data : list byte) (offset count : Z) : list byte :=
  take (Z.to_nat count) (drop (Z.to_nat offset) data).

(** [write_elf_header_and_phdrs].  The count of entries is a division
    of [size_t] values, undefined in the source when [phdr_size] is
    zero: [None]. *)
Definition write_elf_header_and_phdrs (out : stream) (ehdr_bytes : list byte)
    (phoff : Z) (phdrs_bytes : list byte) (phdr_size : Z)
    : option (io unit) :=
  if phdr_size =? 0 then None
  else Some (
    write_file_at out 0 ehdr_bytes ;;
    let num_phdrs := Z.of_nat (length phdrs_bytes) / phdr_size in
    for_indexed
      (λ i (_ : unit) (_ : unit),
         write_file_at out
           (size_add phoff (size_mul (Z.of_nat i) phdr_size))
           (subspan phdrs_bytes (size_mul (Z.of_nat i) phdr_size) phdr_size))
      0 (replicate (Z.to_nat num_phdrs) tt) tt).

(** ** The two programs *)

(** What [main] writes to [std::cerr], by the branch that writes it. *)
Inductive report : Set :=
| Usage                          (* "Usage: ... <mbn ...> <mdt ...>" *)
| IoErrorReport                  (* "I/O Error: ..." *)
| SystemErrorReport (p : string) (* "Error: Failed to open ... (...)" *)
| ErrorReport (e : error).       (* "Error: ..." with [what()] *)

(** The exit status of [main] and its line on [std::cerr]. *)
Record exit : Set := Exit { status : Z; message : option report }.

(** The three handlers of [main], in their order:
    [std::ios_base::failure], [std::system_error], [std::exception].
    Reading [phdrs[0]] of an empty vector raises nothing that a handler
    could catch; the behaviour is undefined: [None]. *)
Definition handlers (r : world * outcome unit) : world * option exit :=
  match r with
  | (w, Returned _) => (w, Some (Exit 0 None))
  | (w, Thrown IosFailure) => (w, Some (Exit 1 (Some IoErrorReport)))
  | (w, Thrown (OpenFailed p)) => (w, Some (Exit 1 (Some (SystemErrorReport p))))
  | (w, Thrown IndexOutOfRange) => (w, None)
  | (w, Thrown e) => (w, Some (Exit 1 (Some (ErrorReport e))))
  end.

Section Main.

Variable host_le : bool.
Variable extension : string → string.
Variable replace_extension : string → string → string.

(** [main] of pil-splitter: [argv[1]] is the mbn to read, [argv[2]] the
    mdt to write.  Without [argv[0]] the usage line cannot be formed. *)
Definition splitter_main (argv : list string) (w : world)
    : world * option exit :=
  match argv with
  | [_; a1; a2] =>
      handlers (split host_le extension replace_extension a1 a2 w)
  | [] => (w, None)
  | _ => (w, Some (Exit 1 (Some Usage)))
  end.

(** [main] of pil-squasher: [argv[1]] is the mbn to write, [argv[2]] the
    mdt to read. *)
Definition squasher_main (argv : list string) (w : world)
    : world * option exit :=
  match argv with
  | [_; a1; a2] =>
      handlers (squash host_le extension replace_extension a2 a1 w)
  | [] => (w, None)
  | _ => (w, Some (Exit 1 (Some Usage)))
  end.

End Main.

(** * Definitions used to state the properties *)

(** Byte [i] of [v], counted from the least significant one. *)
Definition byte_at (v i : Z) : Z := (v / 2 ^ (8 * i)) mod 256.

Definition slice (f : list byte) (o n : nat) : list byte := take n (drop o f).

Definition replay (ws : list (Z * list byte)) (f : list byte) : list byte :=
  fold_left (λ g w, write_at g (Z.to_nat w.1) w.2) ws f.

Definition in_region (o n k : nat) : Prop := (o ≤ k < o + n)%nat.

Definition covered (ws : list (Z * list byte)) (k : nat) : Prop :=
  Exists (λ w, in_region (Z.to_nat w.1) (length w.2) k) ws.

(** [g] holds the bytes of [src] wherever [C] holds. *)
Definition matches (g src : list byte) (C : nat → Prop) : Prop :=
  ∀ k, C k → g !! k = src !! k.

(** ... and is no longer than [src]. *)
Definition agrees (g src : list byte) (C : nat → Prop) : Prop :=
  (length g ≤ length src)%nat ∧ matches g src C.

(** A write whose data are the bytes that [src] has at the same offset. *)
Definition from_source (src : list byte) (w : Z * list byte) : Prop :=
  w.2 = slice src (Z.to_nat w.1) (length w.2)
  ∧ (w.2 ≠ [] → (Z.to_nat w.1 + length w.2 ≤ length src)%nat).

(** What a stream on a file with contents [c] ([None]: no such file)
    reads at [offset]. *)
Definition read_opt (c : option (list byte)) (offset size : Z)
    : option (list byte) :=
  c ≫= λ f, read_at f offset size.

(** The two header reads that open [split_impl] and [squash_impl]. *)
Definition read_headers (host_le : bool) (L : elf_layout) (file : stream)
    (is_le : bool) : io (list byte * list (list byte)) :=
  let* ehdr := read_elf_header L file in
  let* phdrs := read_program_headers host_le L file ehdr is_le in
  ret (ehdr, phdrs).

(** The same reads on the contents of a file. *)
Definition parse_headers (host_le : bool) (L : elf_layout) (is_le : bool)
    (c : option (list byte)) : option (list byte * list (list byte)) :=
  ehdr ← read_opt c 0 (Z.of_nat (ehdr_size L));
  phdrs ← mapM
    (λ i, read_opt c (phdr_pos L (phoff_of host_le L ehdr is_le) i)
            (Z.of_nat (phdr_size L)))
    (seq 0 (Z.to_nat (phnum_of host_le L ehdr is_le)));
  Some (ehdr, phdrs).

Definition header_read_events (host_le : bool) (L : elf_layout)
    (is_le : bool) (id : stream_id) (ehdr : list byte) : list event :=
  EvRead id 0 (Z.of_nat (ehdr_size L))
  :: map (λ i, EvRead id (phdr_pos L (phoff_of host_le L ehdr is_le) i)
                 (Z.of_nat (phdr_size L)))
       (seq 0 (Z.to_nat (phnum_of host_le L ehdr is_le))).

(** The writes of [write_headers]: offset and data. *)
Fixpoint phdr_writes (L : elf_layout) (phoff : Z) (i : nat)
    (phdrs : list (list byte)) : list (Z * list byte) :=
  match phdrs with
  | [] => []
  | ph :: r => (phdr_pos L phoff i, ph) :: phdr_writes L phoff (S i) r
  end.

Definition header_writes (host_le : bool) (L : elf_layout) (is_le : bool)
    (ehdr : list byte) (phdrs : list (list byte)) : list (Z * list byte) :=
  (0, ehdr) :: phdr_writes L (phoff_of host_le L ehdr is_le) 0 phdrs.

Definition write_events (id : stream_id) (ws : list (Z * list byte))
    : list event :=
  map (λ x, EvWrite id x.1 x.2) ws.

(** The identification bytes that [detect_elf_format] looks at. *)
Definition ident_data (f : list byte) : byte := default x00 (f !! EI_DATA).
Definition ident_class (f : list byte) : byte := default x00 (f !! EI_CLASS).

(** The three causes of a format error. *)
Definition bad_ident (f : list byte) : Prop :=
  take SELFMAG f ≠ ELFMAG
  ∨ (ident_data f ≠ ELFDATA2LSB ∧ ident_data f ≠ ELFDATA2MSB)
  ∨ (ident_class f ≠ ELFCLASS32 ∧ ident_class f ≠ ELFCLASS64).

Definition is_format_error {A} (o : outcome A) : Prop :=
  o = Thrown NotElf ∨ o = Thrown UnknownEncoding
  ∨ ∃ c, o = Thrown (UnsupportedClass c).

(** The decoded fields of a program header. *)
Definition seg_offset (host_le : bool) (L : elf_layout) (is_le : bool)
    (phdr : list byte) : Z := (get_phdr_info host_le L phdr is_le).1.1.
Definition seg_filesz (host_le : bool) (L : elf_layout) (is_le : bool)
    (phdr : list byte) : Z := (get_phdr_info host_le L phdr is_le).1.2.
Definition seg_flags (host_le : bool) (L : elf_layout) (is_le : bool)
    (phdr : list byte) : Z := (get_phdr_info host_le L phdr is_le).2.

Definition seg_nonempty (host_le : bool) (L : elf_layout) (is_le : bool)
    (phdr : list byte) : bool :=
  negb (seg_filesz host_le L is_le phdr =? 0).
Definition seg_hash (host_le : bool) (L : elf_layout) (is_le : bool)
    (phdr : list byte) : bool :=
  is_pil_hash_segment (seg_flags host_le L is_le phdr).

(** The indices, counted from [i], of the program headers with a
    non-empty segment. *)
Fixpoint nonempty_indices (host_le : bool) (L : elf_layout) (is_le : bool)
    (i : nat) (phdrs : list (list byte)) : list nat :=
  match phdrs with
  | [] => []
  | ph :: r =>
      if seg_nonempty host_le L is_le ph
      then i :: nonempty_indices host_le L is_le (S i) r
      else nonempty_indices host_le L is_le (S i) r
  end.

(** The sizes of the non-empty hash segments, in index order. *)
Definition hash_sizes (host_le : bool) (L : elf_layout) (is_le : bool)
    (phdrs : list (list byte)) : list Z :=
  map (seg_filesz host_le L is_le)
    (filter (λ ph, seg_nonempty host_le L is_le ph
                   && seg_hash host_le L is_le ph = true) phdrs).

(** Reads of the given sizes, each starting where [hash_offset] stands
    after the one before. *)
Fixpoint cursor_plan (hash_offset : Z) (sizes : list Z) : list (Z * Z) :=
  match sizes with
  | [] => []
  | n :: r => (hash_offset, n) :: cursor_plan (size_add hash_offset n) r
  end.

#[global] Instance stream_id_eq_dec : EqDecision stream_id :=
  ltac:(solve_decision).

(** The reads, creations and appends of a stream in a trace. *)
Definition reads_of (id : stream_id) (t : list event) : list (Z * Z) :=
  omap (λ e, match e with
             | EvRead id' o n => if decide (id' = id) then Some (o, n) else None
             | _ => None
             end) t.

Definition created (t : list event) : list (stream_id * string) :=
  omap (λ e, match e with EvCreate id p => Some (id, p) | _ => None end) t.

(** The same plan when no addition wraps around. *)
Fixpoint consecutive_reads (start : Z) (sizes : list Z) : list (Z * Z) :=
  match sizes with
  | [] => []
  | n :: r => (start, n) :: consecutive_reads (start + n) r
  end.

(** The byte positions that the non-empty segments of a table occupy in
    the combined image. *)
Definition segment_region (host_le : bool) (L : elf_layout) (is_le : bool)
    (phdrs : list (list byte)) (k : nat) : Prop :=
  Exists (λ ph, seg_filesz host_le L is_le ph ≠ 0
                ∧ in_region (Z.to_nat (seg_offset host_le L is_le ph))
                    (Z.to_nat (seg_filesz host_le L is_le ph)) k) phdrs.

(** The bytes of the segment of a program header in the image [f]. *)
Definition seg_bytes (host_le : bool) (L : elf_layout) (is_le : bool)
    (f : list byte) (phdr : list byte) : list byte :=
  slice f (Z.to_nat (seg_offset host_le L is_le phdr))
    (Z.to_nat (seg_filesz host_le L is_le phdr)).

(** The hash stream of [f]: its non-empty hash segments, in index order. *)
Fixpoint hash_stream (host_le : bool) (L : elf_layout) (is_le : bool)
    (f : list byte) (phdrs : list (list byte)) : list byte :=
  match phdrs with
  | [] => []
  | ph :: r =>
      if seg_nonempty host_le L is_le ph && seg_hash host_le L is_le ph
      then seg_bytes host_le L is_le f ph ++ hash_stream host_le L is_le f r
      else hash_stream host_le L is_le f r
  end.

(** The segment writes of [squash_impl] when every segment holds the
    bytes of [f]. *)
Fixpoint seg_writes (host_le : bool) (L : elf_layout) (is_le : bool)
    (f : list byte) (phdrs : list (list byte)) : list (Z * list byte) :=
  match phdrs with
  | [] => []
  | ph :: r =>
      if seg_nonempty host_le L is_le ph
      then (seg_offset host_le L is_le ph, seg_bytes host_le L is_le f ph)
           :: seg_writes host_le L is_le f r
      else seg_writes host_le L is_le f r
  end.

(** Every non-empty segment lies inside [f]. *)
Definition segs_in_bounds (host_le : bool) (L : elf_layout) (is_le : bool)
    (f : list byte) (phdrs : list (list byte)) : Prop :=
  Forall (λ ph, seg_filesz host_le L is_le ph ≠ 0 →
                0 <= seg_offset host_le L is_le ph
                ∧ 0 < seg_filesz host_le L is_le ph
                ∧ seg_offset host_le L is_le ph + seg_filesz host_le L is_le ph
                  <= Z.of_nat (length f)) phdrs.

(** The cursor stands at the hash stream that is still to be read. *)
Definition cursor_ok (mdt1 hs : list byte) (c : Z) : Prop :=
  hs = []
  ∨ (0 <= c ∧ c + Z.of_nat (length hs) <= Z.of_nat (length mdt1)
     ∧ Z.of_nat (length mdt1) < 2 ^ 64
     ∧ slice mdt1 (Z.to_nat c) (length hs) = hs).

(** The checks of [detect_elf_format] on the identification block. *)
Definition classify_ident (e_ident : list byte) : outcome ElfFormat :=
  if negb (bool_decide (take SELFMAG e_ident = ELFMAG)) then Thrown NotElf
  else if bool_decide (ident_data e_ident = ELFDATA2LSB)
          || bool_decide (ident_data e_ident = ELFDATA2MSB)
  then if negb (bool_decide (ident_class e_ident = ELFCLASS32))
          && negb (bool_decide (ident_class e_ident = ELFCLASS64))
       then Thrown (UnsupportedClass (ident_class e_ident))
       else Returned (MkElfFormat (ident_class e_ident)
                        (bool_decide (ident_data e_ident = ELFDATA2LSB)))
  else Thrown UnknownEncoding.

Definition detect_outcome (c : option (list byte)) : outcome ElfFormat :=
  match read_opt c 0 EI_NIDENT with
  | Some e_ident => classify_ident e_ident
  | None => Thrown IosFailure
  end.

(** The instantiation that [split] and [squash] choose for a class. *)
Definition layout_of_class (class : byte) : option elf_layout :=
  if bool_decide (class = ELFCLASS32) then Some Elf32
  else if bool_decide (class = ELFCLASS64) then Some Elf64
  else None.

(** What the tools make of an image: the layout, the byte order, the
    raw header and the raw program headers. *)
Definition elf_view (host_le : bool) (f : list byte)
    : option (elf_layout * bool * list byte * list (list byte)) :=
  match detect_outcome (Some f) with
  | Returned format =>
      L ← layout_of_class (elf_class format);
      r ← parse_headers host_le L (is_little_endian format) (Some f);
      Some (L, is_little_endian format, r.1, r.2)
  | Thrown _ => None
  end.

#[global] Instance in_region_dec o n k : Decision (in_region o n k) :=
  ltac:(unfold in_region; apply _).

#[global] Instance covered_dec ws k : Decision (covered ws k) :=
  ltac:(unfold covered; apply _).

(** The names a run of [split] on [n] program headers may write are
    pairwise different, and neither the image that is split nor the
    image that is rebuilt is one of them. *)
Definition paths_distinct (replace_extension : string → string → string)
    (mbn_path mdt_path out_path : string) (n : nat) : Prop :=
  NoDup (mdt_path :: map (bxx_path replace_extension mdt_path) (seq 0 n))
  ∧ (mbn_path ∉ mdt_path :: map (bxx_path replace_extension mdt_path) (seq 0 n))
  ∧ (out_path ∉ mdt_path :: map (bxx_path replace_extension mdt_path) (seq 0 n)).

(** Little-endian 32-bit images for the examples: the identification
    block, a header with the given [e_phoff] and [e_phnum], and a
    program header with the given [p_offset], [p_filesz] and [p_flags]. *)
Definition elf32_ident : list byte :=
  [x7f; x45; x4c; x46; x01; x01; x01; x00;
   x00; x00; x00; x00; x00; x00; x00; x00].

Definition elf32_header (phoff phnum : Z) : list byte :=
  elf32_ident ++ le_bytes 2 2 ++ le_bytes 2 40 ++ le_bytes 4 1
  ++ le_bytes 4 0 ++ le_bytes 4 phoff ++ le_bytes 4 0 ++ le_bytes 4 0
  ++ le_bytes 2 52 ++ le_bytes 2 32 ++ le_bytes 2 phnum
  ++ le_bytes 2 0 ++ le_bytes 2 0 ++ le_bytes 2 0.

Definition elf32_phdr (offset filesz flags : Z) : list byte :=
  le_bytes 4 1 ++ le_bytes 4 offset ++ le_bytes 4 0 ++ le_bytes 4 0
  ++ le_bytes 4 filesz ++ le_bytes 4 filesz ++ le_bytes 4 flags
  ++ le_bytes 4 0.

Definition HASH_FLAGS : Z := 0x02000000.

(** An image laid out as the tools expect: segment 0 is the header and
    the table, segment 1 a hash segment that follows them. *)
Definition image_conventional : list byte :=
  elf32_header 52 2 ++ elf32_phdr 0 116 0 ++ elf32_phdr 116 4 HASH_FLAGS
  ++ [xde; xad; xbe; xef].

(** An image whose only segment is a hash segment behind the table. *)
Definition image_hash_first : list byte :=
  elf32_header 52 1 ++ elf32_phdr 84 2 HASH_FLAGS ++ [xaa; xbb].

(** An image with one byte behind its only segment. *)
Definition image_trailing : list byte :=
  elf32_header 52 1 ++ elf32_phdr 84 2 0 ++ [xaa; xbb; xcc].

(** A hash segment at index 0 and a plain segment at index 1. *)
Definition image_two_segments : list byte :=
  elf32_header 52 2 ++ elf32_phdr 116 2 HASH_FLAGS ++ elf32_phdr 118 1 0
  ++ [xaa; xbb; xcc].

(** An mdt whose segment 0 lies over the start of the header. *)
Definition mdt_overlapping : list byte :=
  elf32_header 52 1 ++ elf32_phdr 0 4 0.

(** A big-endian 64-bit image with the conventional layout and a plain
    third segment. *)
Definition be_bytes (n : nat) (v : Z) : list byte := rev (le_bytes n v).

Definition elf64be_header (phoff phnum : Z) : list byte :=
  [x7f; x45; x4c; x46; x02; x02; x01; x00;
   x00; x00; x00; x00; x00; x00; x00; x00]
  ++ be_bytes 2 2 ++ be_bytes 2 183 ++ be_bytes 4 1 ++ be_bytes 8 0
  ++ be_bytes 8 phoff ++ be_bytes 8 0 ++ be_bytes 4 0 ++ be_bytes 2 64
  ++ be_bytes 2 56 ++ be_bytes 2 phnum ++ be_bytes 2 0 ++ be_bytes 2 0
  ++ be_bytes 2 0.

Definition elf64be_phdr (offset filesz flags : Z) : list byte :=
  be_bytes 4 1 ++ be_bytes 4 flags ++ be_bytes 8 offset ++ be_bytes 8 0
  ++ be_bytes 8 0 ++ be_bytes 8 filesz ++ be_bytes 8 filesz ++ be_bytes 8 0.

Definition image64_conventional : list byte :=
  elf64be_header 64 3 ++ elf64be_phdr 0 232 0
  ++ elf64be_phdr 232 3 HASH_FLAGS ++ elf64be_phdr 235 2 0
  ++ [x11; x22; x33; x44; x55].

Definition world_of (l : list (string * list byte)) : world :=
  World (list_to_map l) [].

Definition run_split (f : list byte) : world * outcome unit :=
  split true posix_extension posix_replace_extension "fw.mbn" "fw.mdt"
    (world_of [("fw.mbn"%string, f)]).

Definition run_squash (w : world) : world * outcome unit :=
  squash true posix_extension posix_replace_extension "fw.mdt" "out.mbn" w.


(** The first six bytes of a little-endian 32-bit identification. *)
Definition short_ident : list byte := [x7f; x45; x4c; x46; x01; x01].

(** A program header with an empty segment, and a header without
    program headers. *)
Definition empty_phdr : list byte := elf32_phdr 0 0 0.
Definition mdt_without_phdrs : list byte := elf32_header 52 0.

(** The files that [split] leaves of [image_conventional]. *)
Definition split_files : world :=
  world_of [("fw.mdt"%string, image_conventional);
            ("fw.b00"%string, take 116 image_conventional);
            ("fw.b01"%string, [xde; xad; xbe; xef])].

Definition mbn_stream : stream := Stream SMbn "fw.mbn".
Definition mdt_stream : stream := Stream SMdt "fw.mdt".
Definition out_stream : stream := Stream SMbn "out.mbn".

(** ** Definitions for the further properties *)

(** [m] changes no file whose name is outside [P], whatever its outcome. *)
Definition only_writes {A} (P : string → Prop) (m : io A) : Prop :=
  ∀ w p, ¬ P p → files (m w).1 !! p = files w !! p.

(** The decoded fields lie inside the records. *)
Definition layout_fits (L : elf_layout) : Prop :=
  (e_phoff_at L + sizeof (e_phoff_w L) ≤ ehdr_size L)%nat
  ∧ (e_phnum_at L + sizeof W16 ≤ ehdr_size L)%nat
  ∧ (p_offset_at L + sizeof (p_offset_w L) ≤ phdr_size L)%nat
  ∧ (p_filesz_at L + sizeof (p_filesz_w L) ≤ phdr_size L)%nat
  ∧ (p_flags_at L + sizeof W32 ≤ phdr_size L)%nat.

(** The names [split] writes: the mdt and its siblings. *)
Definition split_output (replace_extension : string → string → string)
    (mdt_path p : string) : Prop :=
  p = mdt_path ∨ ∃ i, p = bxx_path replace_extension mdt_path i.

(** [hash_offset] of [squash_impl] when its loop reaches program header
    [k]: the decoded [p_filesz] of program header 0 plus the sizes of the
    non-empty hash segments before [k], in [size_t]. *)
Definition hash_cursor (host_le : bool) (L : elf_layout) (is_le : bool)
    (phdrs : list (list byte)) (k : nat) : Z :=
  fold_left size_add (hash_sizes host_le L is_le (take k phdrs))
    (seg_filesz host_le L is_le (default [] (phdrs !! 0%nat))).

(** The indices, counted from [i], of the program headers whose segment
    is non-empty and not hash-classified. *)
Fixpoint plain_indices (host_le : bool) (L : elf_layout) (is_le : bool)
    (i : nat) (phdrs : list (list byte)) : list nat :=
  match phdrs with
  | [] => []
  | ph :: r =>
      if seg_nonempty host_le L is_le ph && negb (seg_hash host_le L is_le ph)
      then i :: plain_indices host_le L is_le (S i) r
      else plain_indices host_le L is_le (S i) r
  end.

(** The input streams opened in a trace. *)
Definition opened (t : list event) : list (stream_id * string) :=
  omap (λ e, match e with EvOpen id p => Some (id, p) | _ => None end) t.

(** What [squash] needs of its inputs: every non-empty hash segment
    lies inside the mdt at its cursor, and every other non-empty
    segment has a sibling file of at least [p_filesz] bytes. *)
Definition squash_inputs_ok (host_le : bool)
    (replace_extension : string → string → string) (L : elf_layout)
    (is_le : bool) (fs : gmap string (list byte)) (mdt_path : string)
    (m : list byte) (phdrs : list (list byte)) : Prop :=
  ∀ k ph, phdrs !! k = Some ph → seg_filesz host_le L is_le ph ≠ 0 →
    (seg_hash host_le L is_le ph = true →
       hash_cursor host_le L is_le phdrs k + seg_filesz host_le L is_le ph
       <= Z.of_nat (length m))
    ∧ (seg_hash host_le L is_le ph = false →
       ∃ b, fs !! bxx_path replace_extension mdt_path k = Some b
            ∧ seg_filesz host_le L is_le ph <= Z.of_nat (length b)).

(** * Properties *)

Example byteswap16_ex : byteswap W16 0x1234 = 0x3412.
Proof. reflexivity. Qed.

Example byteswap32_ex : byteswap W32 0x12345678 = 0x78563412.
Proof. reflexivity. Qed.

Example byteswap64_ex :
  byteswap W64 0x0102030405060708 = 0x0807060504030201.
Proof. reflexivity. Qed.

Example byte_reversed_ex : byte_reversed W32 0x12345678 = 0x78563412.
Proof. reflexivity. Qed.

Example hash_flag_ex :
  is_pil_hash_segment 0x02200007 = true
  ∧ is_pil_hash_segment 0x07000000 = false.
Proof. split; reflexivity. Qed.

Example bxx_extension_ex :
  bxx_extension 3 = ".b03"%string ∧ bxx_extension 12 = ".b12"%string
  ∧ bxx_extension 100 = ".b100"%string.
Proof. repeat split; vm_compute; reflexivity. Qed.

Example posix_path_ex :
  posix_extension "dir.d/fw.mdt" = ".mdt"%string
  ∧ posix_extension "dir.d/fw" = ""%string
  ∧ posix_replace_extension "dir.d/fw.mdt" ".b01" = "dir.d/fw.b01"%string.
Proof. repeat split; vm_compute; reflexivity. Qed.

Lemma byte_val_range (b : byte) : 0 <= byte_val b < 256.
Proof.
  unfold byte_val. pose proof (Byte.to_N_bounded b). lia.
Qed.

Lemma byte_val_of_Z (z : Z) : byte_val (byte_of_Z z) = z mod 256.
Proof.
  unfold byte_val, byte_of_Z.
  assert (Hr : 0 <= z mod 256 < 256) by (apply Z.mod_pos_bound; lia).
  destruct (Byte.of_N (Z.to_N (z mod 256))) as [b|] eqn:E; simpl.
  - apply Byte.to_of_N in E. rewrite E. lia.
  - apply Byte.of_N_None_iff in E. lia.
Qed.


Lemma land_mask_byte (v i : Z) :
  0 <= i → Z.land v (Z.shiftl 255 (8 * i)) = byte_at v i * 2 ^ (8 * i).
Proof.
  intros Hi. unfold byte_at.
  rewrite <- Z.shiftl_mul_pow2 by lia.
  change 256 with (2 ^ 8). rewrite <- Z.land_ones by lia.
  rewrite <- Z.shiftr_div_pow2 by lia.
  apply Z.bits_inj'. intros n Hn.
  rewrite Z.land_spec.
  destruct (Z.lt_ge_cases n (8 * i)).
  - rewrite !Z.shiftl_spec_low by lia. apply andb_false_r.
  - rewrite !Z.shiftl_spec by lia. rewrite Z.land_spec, Z.shiftr_spec by lia.
    change 255 with (Z.ones 8). do 2 f_equal. lia.
Qed.

Lemma lor_add (a b k : Z) :
  0 <= k → 0 <= a < 2 ^ k → Z.lor a (b * 2 ^ k) = a + b * 2 ^ k.
Proof.
  intros Hk Ha.
  rewrite <- Z.lxor_lor, <- Z.add_nocarry_lxor; trivial.
  all: apply Z.bits_inj'; intros n Hn; rewrite Z.land_spec, Z.bits_0.
  all: destruct (Z.lt_ge_cases n k).
  all: try (rewrite <- Z.shiftl_mul_pow2 by lia; rewrite Z.shiftl_spec_low by lia; apply andb_false_r).
  all: replace (Z.testbit a n) with false; trivial.
  all: symmetry; destruct (Z.eq_dec a 0) as [->|]; [apply Z.bits_0|].
  all: apply Z.bits_above_log2; try lia.
  all: apply Z.log2_lt_pow2; try lia.
  all: assert (2 ^ k <= 2 ^ n) by (apply Z.pow_le_mono_r; lia); lia.
Qed.


Lemma byte_at_range v i : 0 <= byte_at v i < 256.
Proof. apply Z.mod_pos_bound. lia. Qed.

Lemma wrap_small w v : in_range w v → wrap w v = v.
Proof. intros H. apply Z.mod_small. exact H. Qed.

Lemma swap_term_r (v i j : Z) :
  0 <= j <= i →
  Z.shiftr (Z.land v (Z.shiftl 255 (8 * i))) (8 * (i - j))
  = byte_at v i * 2 ^ (8 * j).
Proof.
  intros H. rewrite land_mask_byte by lia.
  rewrite Z.shiftr_div_pow2 by lia.
  replace (2 ^ (8 * i)) with (2 ^ (8 * j + 8 * (i - j))) by (f_equal; lia).
  rewrite Z.pow_add_r, Z.mul_assoc by lia.
  apply Z.div_mul. apply Z.pow_nonzero; lia.
Qed.

Lemma swap_term_l (w : width) (v i j : Z) :
  0 <= i <= j → 8 * j + 8 <= bits w →
  shl w (Z.land v (Z.shiftl 255 (8 * i))) (8 * (j - i))
  = byte_at v i * 2 ^ (8 * j).
Proof.
  intros H Hw. rewrite land_mask_byte by lia. unfold shl.
  rewrite Z.shiftl_mul_pow2 by lia.
  rewrite <- Z.mul_assoc. rewrite <- Z.pow_add_r by lia.
  replace (8 * i + 8 * (j - i)) with (8 * j) by lia.
  apply wrap_small. unfold in_range.
  pose proof (byte_at_range v i).
  assert (0 < 2 ^ (8 * j)) by (apply Z.pow_pos_nonneg; lia).
  split; [nia|].
  apply Z.lt_le_trans with (256 * 2 ^ (8 * j)); [nia|].
  change 256 with (2 ^ 8). rewrite <- Z.pow_add_r by lia.
  apply Z.pow_le_mono_r; lia.
Qed.

Lemma byteswap16_bytes (v : Z) :
  in_range W16 v →
  byteswap W16 v = byte_at v 1 + byte_at v 0 * 2 ^ 8.
Proof.
  intros Hv. unfold byteswap. cbv zeta. rewrite (wrap_small W16 v Hv).
  unfold in_range, bits in Hv; simpl in Hv.
  unfold wrap, bits, byte_at; simpl sizeof.
  rewrite Z.shiftr_div_pow2, Z.shiftl_mul_pow2 by lia.
  change (8 * 1) with 8. change (8 * 0) with 0. change (8 * Z.of_nat 2) with 16.
  rewrite Z.lor_comm.
  assert (0 <= v / 2 ^ 8 < 2 ^ 8)
    by (split; [apply Z.div_pos; lia | apply Z.div_lt_upper_bound; lia]).
  rewrite lor_add by lia.
  change (2 ^ 0) with 1. rewrite Z.div_1_r.
  change (2 ^ 8) with 256 in *. change (2 ^ 16) with 65536 in *.
  Z.div_mod_to_equations. lia.
Qed.

Lemma byteswap32_bytes (v : Z) :
  in_range W32 v →
  byteswap W32 v
  = byte_at v 3 + byte_at v 2 * 2 ^ 8 + byte_at v 1 * 2 ^ 16
    + byte_at v 0 * 2 ^ 24.
Proof.
  intros Hv. unfold byteswap. cbv zeta. rewrite (wrap_small W32 v Hv).
  change (Z.shiftr (Z.land v 0xFF000000) 24)
    with (Z.shiftr (Z.land v (Z.shiftl 255 (8 * 3))) (8 * (3 - 0))).
  change (Z.shiftr (Z.land v 0x00FF0000) 8)
    with (Z.shiftr (Z.land v (Z.shiftl 255 (8 * 2))) (8 * (2 - 1))).
  change (shl W32 (Z.land v 0x0000FF00) 8)
    with (shl W32 (Z.land v (Z.shiftl 255 (8 * 1))) (8 * (2 - 1))).
  change (shl W32 (Z.land v 0x000000FF) 24)
    with (shl W32 (Z.land v (Z.shiftl 255 (8 * 0))) (8 * (3 - 0))).
  rewrite !swap_term_r by lia.
  rewrite !swap_term_l by (unfold bits; simpl; lia).
  pose proof (byte_at_range v 0). pose proof (byte_at_range v 1).
  pose proof (byte_at_range v 2). pose proof (byte_at_range v 3).
  change (8 * 0) with 0. change (8 * 1) with 8.
  change (8 * 2) with 16. change (8 * 3) with 24.
  change (2 ^ 0) with 1. rewrite Z.mul_1_r.
  rewrite (lor_add (byte_at v 3) _ 8) by lia.
  rewrite (lor_add _ _ 16) by lia.
  rewrite (lor_add _ _ 24) by lia.
  apply wrap_small. unfold in_range, bits; simpl. lia.
Qed.

Lemma byteswap64_bytes (v : Z) :
  in_range W64 v →
  byteswap W64 v
  = byte_at v 7 + byte_at v 6 * 2 ^ 8 + byte_at v 5 * 2 ^ 16
    + byte_at v 4 * 2 ^ 24 + byte_at v 3 * 2 ^ 32 + byte_at v 2 * 2 ^ 40
    + byte_at v 1 * 2 ^ 48 + byte_at v 0 * 2 ^ 56.
Proof.
  intros Hv. unfold byteswap. cbv zeta. rewrite (wrap_small W64 v Hv).
  change (Z.shiftr (Z.land v 0xFF00000000000000) 56)
    with (Z.shiftr (Z.land v (Z.shiftl 255 (8 * 7))) (8 * (7 - 0))).
  change (Z.shiftr (Z.land v 0x00FF000000000000) 40)
    with (Z.shiftr (Z.land v (Z.shiftl 255 (8 * 6))) (8 * (6 - 1))).
  change (Z.shiftr (Z.land v 0x0000FF0000000000) 24)
    with (Z.shiftr (Z.land v (Z.shiftl 255 (8 * 5))) (8 * (5 - 2))).
  change (Z.shiftr (Z.land v 0x000000FF00000000) 8)
    with (Z.shiftr (Z.land v (Z.shiftl 255 (8 * 4))) (8 * (4 - 3))).
  change (shl W64 (Z.land v 0x00000000FF000000) 8)
    with (shl W64 (Z.land v (Z.shiftl 255 (8 * 3))) (8 * (4 - 3))).
  change (shl W64 (Z.land v 0x0000000000FF0000) 24)
    with (shl W64 (Z.land v (Z.shiftl 255 (8 * 2))) (8 * (5 - 2))).
  change (shl W64 (Z.land v 0x000000000000FF00) 40)
    with (shl W64 (Z.land v (Z.shiftl 255 (8 * 1))) (8 * (6 - 1))).
  change (shl W64 (Z.land v 0x00000000000000FF) 56)
    with (shl W64 (Z.land v (Z.shiftl 255 (8 * 0))) (8 * (7 - 0))).
  rewrite !swap_term_r by lia.
  rewrite !swap_term_l by (unfold bits; simpl; lia).
  pose proof (byte_at_range v 0). pose proof (byte_at_range v 1).
  pose proof (byte_at_range v 2). pose proof (byte_at_range v 3).
  pose proof (byte_at_range v 4). pose proof (byte_at_range v 5).
  pose proof (byte_at_range v 6). pose proof (byte_at_range v 7).
  change (8 * 0) with 0. change (8 * 1) with 8.
  change (8 * 2) with 16. change (8 * 3) with 24.
  change (8 * 4) with 32. change (8 * 5) with 40.
  change (8 * 6) with 48. change (8 * 7) with 56.
  change (2 ^ 0) with 1. rewrite Z.mul_1_r.
  rewrite (lor_add (byte_at v 7) _ 8) by lia.
  rewrite (lor_add _ _ 16) by lia.
  rewrite (lor_add _ _ 24) by lia.
  rewrite (lor_add _ _ 32) by lia.
  rewrite (lor_add _ _ 40) by lia.
  rewrite (lor_add _ _ 48) by lia.
  rewrite (lor_add _ _ 56) by lia.
  apply wrap_small. unfold in_range, bits; simpl. lia.
Qed.

(* of_le_bytes of the reversed le_bytes *)
Lemma of_le_bytes_app (a b : list byte) :
  of_le_bytes (a ++ b) = of_le_bytes a + 256 ^ Z.of_nat (length a) * of_le_bytes b.
Proof.
  induction a as [|x a IH]; simpl length; simpl app; simpl of_le_bytes.
  - lia.
  - rewrite IH. rewrite Nat2Z.inj_succ, Z.pow_succ_r by lia. lia.
Qed.

Lemma length_le_bytes n v : length (le_bytes n v) = n.
Proof. revert v; induction n; intros; simpl; auto. Qed.

Lemma byte_at_as_div v i :
  0 <= i → byte_at v i = (v / 256 ^ i) mod 256.
Proof.
  intros. unfold byte_at. rewrite Z.pow_mul_r by lia. reflexivity.
Qed.

Lemma byte_reversed_bytes_from (k : nat) (v v0 : Z) (base top : nat) :
  (top + 1 = base + k)%nat ∨ k = 0%nat →
  (∀ i, byte_at v0 (Z.of_nat i) = byte_at v (Z.of_nat (base + i))) →
  of_le_bytes (rev (le_bytes k v0))
  = fold_right
      (λ i acc, acc + byte_at v (Z.of_nat i) * 256 ^ (Z.of_nat (top - i)))
      0 (seq base k).
Proof.
  revert v0 base. induction k as [|k IH]; intros v0 base Ht Hb; [reflexivity|].
  simpl le_bytes. simpl rev. rewrite of_le_bytes_app.
  rewrite length_rev, length_le_bytes. simpl of_le_bytes.
  rewrite byte_val_of_Z.
  rewrite (IH (v0 / 256) (S base)).
  - simpl seq. simpl fold_right.
    specialize (Hb 0%nat). rewrite Nat.add_0_r in Hb. rewrite <- Hb.
    change (byte_at v0 (Z.of_nat 0)) with ((v0 / 1) mod 256).
    rewrite Z.div_1_r.
    replace (top - base)%nat with k by lia. lia.
  - lia.
  - intros i. replace (S base + i)%nat with (base + S i)%nat by lia.
    rewrite <- Hb. rewrite !byte_at_as_div by lia.
    rewrite Nat2Z.inj_succ, Z.pow_succ_r by lia.
    rewrite Z.div_div by lia. reflexivity.
Qed.

Lemma byte_reversed_bytes (n : nat) (v : Z) :
  of_le_bytes (rev (le_bytes n v))
  = fold_right
      (λ i acc, acc + byte_at v (Z.of_nat i) * 256 ^ (Z.of_nat (n - 1 - i)))
      0 (seq 0 n).
Proof.
  apply byte_reversed_bytes_from; [lia|]. intros; reflexivity.
Qed.

Lemma byteswap_byte_reversed (w : width) (v : Z) :
  in_range w v → byteswap w v = byte_reversed w v.
Proof.
  intros Hv. unfold byte_reversed. rewrite byte_reversed_bytes.
  destruct w;
    cbv [sizeof seq fold_right Nat.sub Z.of_nat Pos.of_succ_nat Pos.succ].
  - unfold byteswap, byte_at. change (2 ^ (8 * 0)) with 1. rewrite Z.div_1_r.
    unfold in_range, bits in Hv; simpl in Hv. change (256 ^ 0) with 1.
    rewrite Z.mod_small by lia. lia.
  - rewrite byteswap16_bytes by exact Hv. change 256 with (2 ^ 8).
    rewrite <- !Z.pow_mul_r by lia. simpl Z.mul. change (2 ^ 0) with 1. lia.
  - rewrite byteswap32_bytes by exact Hv. change 256 with (2 ^ 8).
    rewrite <- !Z.pow_mul_r by lia. simpl Z.mul. change (2 ^ 0) with 1. lia.
  - rewrite byteswap64_bytes by exact Hv. change 256 with (2 ^ 8).
    rewrite <- !Z.pow_mul_r by lia. simpl Z.mul. change (2 ^ 0) with 1. lia.
Qed.

Lemma read_at_Some (f : list byte) (o n : Z) (d : list byte) :
  n ≠ 0 →
  read_at f o n = Some d ↔
  0 <= o ∧ 0 < n ∧ o + n <= Z.of_nat (length f)
  ∧ d = slice f (Z.to_nat o) (Z.to_nat n).
Proof.
  intros Hn. unfold read_at, slice.
  destruct (Z.eqb_spec n 0) as [?|_]; [done|].
  destruct (Z.leb_spec 0 o), (Z.leb_spec 0 n), (Z.leb_spec (o + n) (Z.of_nat (length f)));
    simpl; split; try (intros [= <-]; repeat split; lia); try (intros (?&?&?&->); done);
    try (intros (?&?&?&?); lia); try done.
Qed.

Lemma read_at_length (f : list byte) (o n : Z) (d : list byte) :
  read_at f o n = Some d → length d = Z.to_nat n.
Proof.
  destruct (Z.eq_dec n 0) as [->|Hn].
  - unfold read_at; simpl. by intros [= <-].
  - intros (?&?&?&->)%read_at_Some; [|done]. unfold slice.
    rewrite length_take, length_drop. lia.
Qed.

Lemma length_write_at (f : list byte) (o : nat) (d : list byte) :
  d ≠ [] → length (write_at f o d) = (length f `max` (o + length d))%nat.
Proof.
  intros Hd. unfold write_at. destruct d as [|b d]; [done|].
  rewrite !length_app, length_take, length_replicate, length_drop.
  simpl length. lia.
Qed.

Lemma lookup_write_at (f : list byte) (o : nat) (d : list byte) (k : nat) :
  d ≠ [] →
  write_at f o d !! k =
    if decide (o ≤ k < o + length d)%nat then d !! (k - o)%nat
    else if decide (k < length f)%nat then f !! k
    else if decide (k < o)%nat then Some x00 else None.
Proof.
  intros Hd. unfold write_at. destruct d as [|b d]; [done|].
  set (d' := b :: d).
  assert (Hpre : length (take o f ++ replicate (o - length f) x00) = o).
  { rewrite length_app, length_take, length_replicate. lia. }
  rewrite app_assoc.
  destruct (decide (k < o)%nat) as [Hko|Hko].
  - rewrite decide_False by lia.
    rewrite lookup_app_l by lia.
    destruct (decide (k < length f)%nat).
    + rewrite lookup_app_l by (rewrite length_take; lia).
      apply lookup_take_lt. lia.
    + rewrite lookup_app_r by (rewrite length_take; lia).
      rewrite length_take. apply lookup_replicate_2. lia.
  - rewrite lookup_app_r by lia. rewrite Hpre.
    destruct (decide (o ≤ k < o + length d')%nat) as [Hin|Hout].
    + rewrite lookup_app_l by lia. done.
    + rewrite lookup_app_r by lia. rewrite lookup_drop.
      replace (o + length d' + (k - o - length d'))%nat with k by lia.
      destruct (decide (k < length f)%nat); [done|].
      apply lookup_ge_None. lia.
Qed.

Lemma lookup_slice (f : list byte) (o n k : nat) :
  (k < n)%nat → slice f o n !! k = f !! (o + k)%nat.
Proof.
  intros. unfold slice. rewrite lookup_take_lt by lia. apply lookup_drop.
Qed.

Lemma covered_lt (src : list byte) (ws : list (Z * list byte)) (k : nat) :
  Forall (from_source src) ws → covered ws k → (k < length src)%nat.
Proof.
  intros Hws Hk. unfold covered in Hk. apply Exists_exists in Hk as (w & Hw & Hin).
  rewrite Forall_forall in Hws. destruct (Hws w Hw) as [_ Hb].
  unfold in_region in Hin.
  destruct (decide (w.2 = [])) as [E|E]; [rewrite E in Hin; simpl in Hin; lia|].
  specialize (Hb E). lia.
Qed.

Lemma matches_write (g src : list byte) (C : nat → Prop) (w : Z * list byte) :
  matches g src C → from_source src w →
  matches (write_at g (Z.to_nat w.1) w.2) src
          (λ k, C k ∨ in_region (Z.to_nat w.1) (length w.2) k).
Proof.
  destruct w as [o d]; simpl. intros Hag (Hs & Hb); simpl in *.
  destruct (decide (d = [])) as [->|Hd].
  { intros k [Hk|Hk]; [by apply Hag|]. unfold in_region in Hk. simpl in Hk. lia. }
  specialize (Hb Hd).
  intros k Hk. rewrite lookup_write_at by done.
  destruct (decide (Z.to_nat o ≤ k < Z.to_nat o + length d)%nat) as [Hin|Hout].
  - rewrite Hs. rewrite lookup_slice by lia. f_equal. lia.
  - destruct Hk as [Hk|Hk]; [|unfold in_region in Hk; lia].
    specialize (Hag k Hk).
    destruct (decide (k < length g)%nat); [done|].
    rewrite (lookup_ge_None_2 g k) in Hag by lia.
    destruct (decide (k < Z.to_nat o)%nat); [|done].
    symmetry in Hag. apply lookup_ge_None in Hag. lia.
Qed.

Lemma matches_replay (ws : list (Z * list byte)) (g src : list byte)
    (C : nat → Prop) :
  matches g src C → Forall (from_source src) ws →
  matches (replay ws g) src (λ k, C k ∨ covered ws k).
Proof.
  revert g C. induction ws as [|w ws IH]; intros g C Hg Hws; simpl.
  - intros k [?|Hk]; [auto|].
    unfold covered in Hk. by apply Exists_nil in Hk.
  - apply Forall_cons in Hws as [Hw Hws].
    pose proof (IH _ _ (matches_write _ _ _ _ Hg Hw) Hws) as Ha.
    intros k Hk. apply Ha.
    destruct Hk as [?|Hk]; [auto|]. unfold covered in Hk.
    apply Exists_cons in Hk as [?|?]; [auto|]. right. done.
Qed.

Lemma length_replay (ws : list (Z * list byte)) (g src : list byte) :
  (length g ≤ length src)%nat → Forall (from_source src) ws →
  (length (replay ws g) ≤ length src)%nat.
Proof.
  revert g. induction ws as [|w ws IH]; intros g Hg Hws; simpl; [done|].
  apply Forall_cons in Hws as [[Hs Hb] Hws]. apply IH; [|done].
  destruct (decide (w.2 = [])) as [E|E].
  - rewrite E. done.
  - rewrite length_write_at by done. specialize (Hb E). lia.
Qed.

Lemma agrees_replay (ws : list (Z * list byte)) (g src : list byte)
    (C : nat → Prop) :
  agrees g src C → Forall (from_source src) ws →
  agrees (replay ws g) src (λ k, C k ∨ covered ws k).
Proof.
  intros [Hl Hm] Hws. split; [by apply length_replay|by apply matches_replay].
Qed.

Lemma agrees_full (g src : list byte) (C : nat → Prop) :
  agrees g src C → (∀ k, (k < length src)%nat → C k) → g = src.
Proof.
  intros [Hl Ha] Hc. apply list_eq. intros k.
  destruct (decide (k < length src)%nat); [by apply Ha, Hc|].
  rewrite !lookup_ge_None_2 by lia. done.
Qed.

Lemma matches_slice (g src : list byte) (C : nat → Prop) (o n : nat) :
  matches g src C → (∀ k, in_region o n k → C k) →
  (0 < n)%nat → (o + n ≤ length src)%nat →
  (o + n ≤ length g)%nat ∧ slice g o n = slice src o n.
Proof.
  intros Ha Hc Hn Hb.
  assert (Hg : (o + n ≤ length g)%nat).
  { destruct n as [|n]; [lia|].
    assert (Hk : C (o + n)%nat) by (apply Hc; unfold in_region; lia).
    apply Ha in Hk.
    destruct (lookup_lt_is_Some_2 src (o + n)%nat) as [b Hb']; [lia|].
    rewrite Hb' in Hk. apply lookup_lt_Some in Hk. lia. }
  split; [done|]. apply list_eq. intros k.
  destruct (decide (k < n)%nat).
  - rewrite !lookup_slice by done. apply Ha, Hc. unfold in_region; lia.
  - unfold slice. rewrite !lookup_ge_None_2; [done| |];
      rewrite length_take, length_drop; lia.
Qed.

Lemma matches_mono (g src : list byte) (C D : nat → Prop) :
  matches g src C → (∀ k, D k → C k) → matches g src D.
Proof. intros H HD k Hk. apply H, HD, Hk. Qed.

Lemma bind_returned_inv {A B} (m : io A) (k : A → io B) w w' b :
  bind m k w = (w', Returned b) →
  ∃ w1 a, m w = (w1, Returned a) ∧ k a w1 = (w', Returned b).
Proof.
  unfold bind. destruct (m w) as [w1 [a|e]]; [eauto|discriminate].
Qed.

Lemma bind_ok {A B} (m : io A) (k : A → io B) w w1 a :
  m w = (w1, Returned a) → bind m k w = k a w1.
Proof. unfold bind. by intros ->. Qed.

Lemma bind_thrown {A B} (m : io A) (k : A → io B) w w1 e :
  m w = (w1, Thrown e) → bind m k w = (w1, Thrown e).
Proof. unfold bind. by intros ->. Qed.

Lemma seek_read_run (s : stream) (o n : Z) (w : world) :
  seek_read s o n w
  = (World (files w) (trace w ++ [EvRead (sid s) o n]),
     match read_opt (files w !! spath s) o n with
     | Some b => Returned b
     | None => Thrown IosFailure
     end).
Proof.
  unfold seek_read, read_opt, bind, log, contents; simpl.
  destruct (files w !! spath s ≫= _); reflexivity.
Qed.

Lemma read_file_at_run (s : stream) (o n : Z) (w : world) :
  read_file_at s o n w
  = (World (files w) (trace w ++ [EvRead (sid s) o n]),
     match read_opt (files w !! spath s) o n with
     | Some b => Returned b
     | None => Thrown IosFailure
     end).
Proof. apply seek_read_run. Qed.

Lemma write_file_at_run (s : stream) (o : Z) (d : list byte) (w : world) :
  write_file_at s o d w
  = (World (<[spath s := write_at (default [] (files w !! spath s))
                            (Z.to_nat o) d]> (files w))
           (trace w ++ [EvWrite (sid s) o d]),
     Returned tt).
Proof. reflexivity. Qed.

Lemma append_to_file_run (s : stream) (d : list byte) (w : world) :
  append_to_file s d w
  = (World (<[spath s := default [] (files w !! spath s) ++ d]> (files w))
           (trace w ++ [EvAppend (sid s) d]),
     Returned tt).
Proof. reflexivity. Qed.

Lemma open_in_run (id : stream_id) (p : string) (w : world) :
  open_in id p w
  = (World (files w) (trace w ++ [EvOpen id p]),
     match files w !! p with
     | Some _ => Returned (Stream id p)
     | None => Thrown (OpenFailed p)
     end).
Proof.
  unfold open_in, bind, log, contents; simpl.
  destruct (files w !! p); reflexivity.
Qed.

Lemma open_out_run (id : stream_id) (p : string) (w : world) :
  open_out id p w
  = (World (<[p := []]> (files w)) (trace w ++ [EvCreate id p]),
     Returned (Stream id p)).
Proof. reflexivity. Qed.

Section HeaderReads.

Variable host_le : bool.
Variable L : elf_layout.
Variable is_le : bool.

Lemma read_phdr_loop_ok (file : stream) (phoff : Z) (k i : nat)
    (acc phs : list (list byte)) (w : world) :
  mapM (λ j, read_opt (files w !! spath file) (phdr_pos L phoff j)
               (Z.of_nat (phdr_size L))) (seq i k) = Some phs →
  for_indexed
    (λ j (_ : unit) phdrs,
       let* ph := read_struct_at (phdr_size L) file (phdr_pos L phoff j) in
       ret (phdrs ++ [ph]))
    i (replicate k tt) acc w
  = (World (files w)
       (trace w ++ map (λ j, EvRead (sid file) (phdr_pos L phoff j)
                               (Z.of_nat (phdr_size L))) (seq i k)),
     Returned (acc ++ phs)).
Proof.
  revert i acc phs w. induction k as [|k IH]; intros i acc phs w H; simpl in *.
  - injection H as <-. rewrite !app_nil_r. by destruct w.
  - destruct (read_opt _ (phdr_pos L phoff i) _) as [ph|] eqn:E; [|done].
    simpl in H.
    destruct (mapM _ (seq (S i) k)) as [phs'|] eqn:E'; [|done].
    injection H as <-.
    unfold bind at 1 2. unfold read_struct_at at 1.
    rewrite seek_read_run, E. unfold ret at 1.
    rewrite (IH (S i) (acc ++ [ph]) phs'); [|done].
    simpl. rewrite <- !app_assoc. done.
Qed.

Lemma read_phdr_loop_fail (file : stream) (phoff : Z) (k i : nat)
    (acc : list (list byte)) (w : world) :
  mapM (λ j, read_opt (files w !! spath file) (phdr_pos L phoff j)
               (Z.of_nat (phdr_size L))) (seq i k) = None →
  ∃ w',
  for_indexed
    (λ j (_ : unit) phdrs,
       let* ph := read_struct_at (phdr_size L) file (phdr_pos L phoff j) in
       ret (phdrs ++ [ph]))
    i (replicate k tt) acc w
  = (w', Thrown IosFailure) ∧ files w' = files w.
Proof.
  revert i acc w. induction k as [|k IH]; intros i acc w H; simpl in *.
  - done.
  - unfold bind at 1 2. unfold read_struct_at at 1.
    rewrite seek_read_run.
    destruct (read_opt _ (phdr_pos L phoff i) _) as [ph|] eqn:E.
    + simpl in H.
      destruct (mapM _ (seq (S i) k)) as [phs'|] eqn:E'; [done|].
      unfold ret at 1.
      destruct (IH (S i) (acc ++ [ph])
                  (World (files w) (trace w ++ [EvRead (sid file) (phdr_pos L phoff i) (Z.of_nat (phdr_size L))])))
        as (w' & -> & Hw'); [done|]. eauto.
    + eauto.
Qed.

Lemma read_headers_ok (file : stream) (w : world) ehdr phdrs :
  parse_headers host_le L is_le (files w !! spath file) = Some (ehdr, phdrs) →
  read_headers host_le L file is_le w
  = (World (files w)
       (trace w ++ header_read_events host_le L is_le (sid file) ehdr),
     Returned (ehdr, phdrs)).
Proof.
  unfold parse_headers, read_headers, read_elf_header, read_struct_at,
    read_program_headers, header_read_events.
  intros H.
  destruct (read_opt _ 0 _) as [e|] eqn:E; [|done]. simpl in H.
  destruct (mapM _ _) as [phs|] eqn:E'; [|done]. injection H as -> ->.
  erewrite bind_ok; [|rewrite seek_read_run, E; reflexivity].
  erewrite bind_ok; [|apply read_phdr_loop_ok; exact E'].
  unfold ret. simpl. rewrite <- app_assoc. done.
Qed.

Lemma read_headers_fail (file : stream) (w : world) :
  parse_headers host_le L is_le (files w !! spath file) = None →
  ∃ w', read_headers host_le L file is_le w = (w', Thrown IosFailure)
        ∧ files w' = files w.
Proof.
  unfold parse_headers, read_headers, read_elf_header, read_struct_at,
    read_program_headers.
  intros H.
  destruct (read_opt _ 0 _) as [e|] eqn:E.
  - simpl in H. destruct (mapM _ _) as [phs|] eqn:E'; [done|].
    erewrite bind_ok; [|rewrite seek_read_run, E; reflexivity].
    edestruct (read_phdr_loop_fail file (phoff_of host_le L e is_le)
                 (Z.to_nat (phnum_of host_le L e is_le)) 0%nat []
                 (World (files w) (trace w ++ [EvRead (sid file) 0 (Z.of_nat (ehdr_size L))])))
      as (w' & Hrun & Hw'); [exact E'|].
    erewrite bind_thrown; [|exact Hrun]. eauto.
  - erewrite bind_thrown; [|rewrite seek_read_run, E; reflexivity]. eauto.
Qed.

Lemma read_headers_returned (file : stream) (w w' : world) r :
  read_headers host_le L file is_le w = (w', Returned r) →
  parse_headers host_le L is_le (files w !! spath file) = Some r
  ∧ w' = World (files w)
           (trace w ++ header_read_events host_le L is_le (sid file) r.1).
Proof.
  intros H.
  destruct (parse_headers host_le L is_le (files w !! spath file))
    as [[ehdr phdrs]|] eqn:E.
  - rewrite (read_headers_ok _ _ _ _ E) in H. by injection H as <- <-.
  - destruct (read_headers_fail _ _ E) as (w1 & Hrun & _). congruence.
Qed.

End HeaderReads.

Lemma for_indexed_app {A St} (body : nat → A → St → io St) (l1 l2 : list A)
    (i : nat) (s : St) (w : world) :
  for_indexed body i (l1 ++ l2) s w
  = (let* s' := for_indexed body i l1 s in
     for_indexed body (i + length l1) l2 s') w.
Proof.
  revert i s w. induction l1 as [|x l1 IH]; intros i s w; simpl.
  - unfold bind, ret. by rewrite Nat.add_0_r.
  - unfold bind. destruct (body i x s w) as [w1 [s1|e]]; [|done].
    rewrite IH. unfold bind. by rewrite Nat.add_succ_r.
Qed.

Lemma for_indexed_thrown {A St} (body : nat → A → St → io St)
    (P : error → Prop) :
  (∀ i x s w w' e, body i x s w = (w', Thrown e) → P e) →
  ∀ l i s w w' e, for_indexed body i l s w = (w', Thrown e) → P e.
Proof.
  intros Hb l. induction l as [|x l IH]; intros i s w w' e; simpl.
  - discriminate.
  - unfold bind. destruct (body i x s w) as [w1 [s1|e1]] eqn:E.
    + apply IH.
    + intros [= <- <-]. eapply Hb, E.
Qed.

Section HeaderWrites.

Variable host_le : bool.
Variable L : elf_layout.
Variable is_le : bool.

Lemma write_phdrs_run (out : stream) (phoff : Z) (phdrs : list (list byte))
    (i : nat) (w : world) (g : list byte) :
  files w !! spath out = Some g →
  for_indexed (λ j ph (_ : unit), write_file_at out (phdr_pos L phoff j) ph)
    i phdrs tt w
  = (World (<[spath out := replay (phdr_writes L phoff i phdrs) g]> (files w))
       (trace w ++ write_events (sid out) (phdr_writes L phoff i phdrs)),
     Returned tt).
Proof.
  revert i w g. induction phdrs as [|ph r IH]; intros i w g Hg; simpl.
  - rewrite insert_id by done. rewrite app_nil_r. by destruct w.
  - unfold bind. rewrite write_file_at_run.
    erewrite IH; [|simpl; apply lookup_insert_eq].
    simpl. rewrite insert_insert_eq, Hg, <- app_assoc. done.
Qed.

Lemma write_headers_run (out : stream) (ehdr : list byte)
    (phdrs : list (list byte)) (w : world) :
  write_headers host_le L out ehdr phdrs is_le w
  = (World (<[spath out := replay (header_writes host_le L is_le ehdr phdrs)
                             (default [] (files w !! spath out))]> (files w))
       (trace w ++ write_events (sid out)
                     (header_writes host_le L is_le ehdr phdrs)),
     Returned tt).
Proof.
  unfold write_headers, header_writes. unfold bind.
  rewrite write_file_at_run.
  erewrite write_phdrs_run; [|simpl; apply lookup_insert_eq].
  simpl. rewrite insert_insert_eq, <- app_assoc. done.
Qed.

End HeaderWrites.

Lemma land7_eq_2 (x : Z) :
  Z.land x 7 = 2 ↔
  Z.testbit x 0 = false ∧ Z.testbit x 1 = true ∧ Z.testbit x 2 = false.
Proof.
  split.
  - intros H.
    assert (Hb : ∀ n, 0 <= n < 3 → Z.testbit x n = Z.testbit 2 n).
    { intros n Hn. rewrite <- H, Z.land_spec.
      change 7 with (Z.ones 3). rewrite Z.ones_spec_low by lia.
      by rewrite andb_true_r. }
    rewrite !Hb by lia. done.
  - intros (H0 & H1 & H2). apply Z.bits_inj'. intros n Hn.
    rewrite Z.land_spec. change 7 with (Z.ones 3).
    destruct (Z.lt_ge_cases n 3) as [Hlt|Hge].
    + rewrite Z.ones_spec_low, andb_true_r by lia.
      assert (n = 0 ∨ n = 1 ∨ n = 2) as [->|[->| ->]] by lia; done.
    + rewrite Z.ones_spec_high, andb_false_r by lia.
      symmetry. apply Z.bits_above_log2; [lia|]. simpl. lia.
Qed.

(** C5. [is_pil_hash_segment] is a total function of [p_flags] alone: it
    is true exactly when the three-bit field in bits 24..26 of [p_flags]
    is the hash tag 2 (binary 010), so two flag words with the same bits
    24..26 are classified alike. *)
Theorem is_pil_hash_segment_spec (p_flags : Z) :
  (is_pil_hash_segment p_flags = true ↔ (p_flags / 2 ^ 24) mod 2 ^ 3 = 2)
  ∧ (is_pil_hash_segment p_flags = true ↔
       Z.testbit p_flags 24 = false ∧ Z.testbit p_flags 25 = true
       ∧ Z.testbit p_flags 26 = false)
  ∧ (∀ q, (∀ n, 24 <= n <= 26 → Z.testbit q n = Z.testbit p_flags n) →
          is_pil_hash_segment q = is_pil_hash_segment p_flags).
Proof.
  assert (Hbits : ∀ p, is_pil_hash_segment p = true ↔
       Z.testbit p 24 = false ∧ Z.testbit p 25 = true
       ∧ Z.testbit p 26 = false).
  { intros p. unfold is_pil_hash_segment, PIL_SEGMENT_TYPE_SHIFT,
      PIL_SEGMENT_TYPE_MASK, PIL_SEGMENT_TYPE_HASH.
    rewrite Z.eqb_eq, land7_eq_2. rewrite !Z.shiftr_spec by lia. done. }
  split; [|split].
  - unfold is_pil_hash_segment, PIL_SEGMENT_TYPE_SHIFT,
      PIL_SEGMENT_TYPE_MASK, PIL_SEGMENT_TYPE_HASH.
    rewrite Z.eqb_eq. change 7 with (Z.ones 3).
    rewrite Z.land_ones, Z.shiftr_div_pow2 by lia. done.
  - apply Hbits.
  - intros q Hq.
    destruct (is_pil_hash_segment p_flags) eqn:E.
    + apply Hbits. apply Hbits in E. rewrite !Hq by lia. done.
    + destruct (is_pil_hash_segment q) eqn:E'; [|done].
      apply Hbits in E'. rewrite !Hq in E' by lia.
      apply Hbits in E'. congruence.
Qed.

Lemma of_le_bytes_range (bs : list byte) :
  0 <= of_le_bytes bs < 256 ^ Z.of_nat (length bs).
Proof.
  induction bs as [|b bs IH]; simpl of_le_bytes; simpl length.
  - simpl. lia.
  - rewrite Nat2Z.inj_succ, Z.pow_succ_r by lia.
    pose proof (byte_val_range b). lia.
Qed.

Lemma byte_reversed_range (w : width) (v : Z) : in_range w (byte_reversed w v).
Proof.
  unfold in_range, byte_reversed.
  pose proof (of_le_bytes_range (rev (le_bytes (sizeof w) v))) as H.
  rewrite length_rev, length_le_bytes in H.
  replace (2 ^ bits w) with (256 ^ Z.of_nat (sizeof w)); [done|].
  unfold bits. change 256 with (2 ^ 8). rewrite <- Z.pow_mul_r by lia. done.
Qed.

Lemma byte_of_Z_val (b : byte) (x : Z) : byte_of_Z (byte_val b + 256 * x) = b.
Proof.
  unfold byte_of_Z. pose proof (byte_val_range b).
  replace ((byte_val b + 256 * x) mod 256) with (byte_val b).
  - unfold byte_val. rewrite N2Z.id, Byte.of_to_N. done.
  - rewrite (Z.mul_comm 256 x), Z.mod_add by lia.
    symmetry. apply Z.mod_small. lia.
Qed.

Lemma le_bytes_of_le_bytes (bs : list byte) :
  le_bytes (length bs) (of_le_bytes bs) = bs.
Proof.
  induction bs as [|b bs IH]; [done|].
  cbn [length le_bytes of_le_bytes]. rewrite byte_of_Z_val. f_equal.
  pose proof (byte_val_range b).
  replace ((byte_val b + 256 * of_le_bytes bs) / 256) with (of_le_bytes bs);
    [done|].
  rewrite (Z.mul_comm 256), Z.div_add by lia.
  rewrite Z.div_small by lia. lia.
Qed.

(** The decoded value of a field does not depend on the host: it is the
    reading of the raw bytes in the byte order of the file. *)
Lemma from_file_endian_host_int (host_le file_le : bool) (w : width)
    (bs : list byte) :
  length bs = sizeof w →
  from_file_endian host_le w (host_int host_le bs) file_le
  = host_int file_le bs.
Proof.
  intros Hlen.
  assert (Hswap : ∀ l : list byte, length l = sizeof w →
            byteswap w (of_le_bytes l) = of_le_bytes (rev l)).
  { intros l Hl. rewrite byteswap_byte_reversed.
    - unfold byte_reversed. by rewrite <- Hl, le_bytes_of_le_bytes.
    - pose proof (of_le_bytes_range l) as Hr. rewrite Hl in Hr.
      unfold in_range, bits. change 256 with (2 ^ 8) in Hr.
      by rewrite <- Z.pow_mul_r in Hr by lia. }
  unfold from_file_endian, host_int.
  destruct host_le, file_le; cbn [Bool.eqb]; try done.
  - by apply Hswap.
  - rewrite Hswap by (by rewrite length_rev). by rewrite rev_involutive.
Qed.

(** C6. For a value of one of the four widths, [from_file_endian]
    returns the value itself when the byte order of the file is the
    byte order of the host, and the value with its bytes reversed
    otherwise; the result is again a value of that width. *)
Theorem from_file_endian_spec (host_le : bool) (w : width) (value : Z)
    (file_is_little_endian : bool) :
  in_range w value →
  from_file_endian host_le w value file_is_little_endian
  = (if Bool.eqb file_is_little_endian host_le then value
     else byte_reversed w value)
  ∧ in_range w (from_file_endian host_le w value file_is_little_endian).
Proof.
  intros Hv. unfold from_file_endian.
  destruct (Bool.eqb file_is_little_endian host_le); [done|].
  rewrite byteswap_byte_reversed by done.
  split; [done|apply byte_reversed_range].
Qed.

Lemma from_file_endian_spec_witness :
  in_range W32 0x12345678
  ∧ from_file_endian true W32 0x12345678 false = 0x78563412.
Proof.
  assert (H : in_range W32 0x12345678) by (unfold in_range; done).
  split; [exact H|].
  exact (proj1 (from_file_endian_spec true W32 0x12345678 false H)).
Defined.

Section NamingCheck.

Variable host_le : bool.
Variable extension : string → string.
Variable replace_extension : string → string → string.

(** C8. When the extension of the mdt path is not [.mdt], [split] and
    [squash] throw the naming error and leave the world as it was: no
    stream has been opened, no file created or truncated. *)
Theorem non_mdt_path_rejected (mbn_path mdt_path : string) (w : world) :
  extension mdt_path ≠ ".mdt"%string →
  split host_le extension replace_extension mbn_path mdt_path w
    = (w, Thrown (NotMdtFile mdt_path))
  ∧ squash host_le extension replace_extension mdt_path mbn_path w
    = (w, Thrown (NotMdtFile mdt_path)).
Proof.
  intros H. unfold split, squash. rewrite bool_decide_eq_false_2 by done. done.
Qed.

End NamingCheck.

Lemma non_mdt_path_rejected_witness :
  let w := World {[ "fw.mbn"%string := [x7f; x45] ]} [] in
  posix_extension "fw.bin" ≠ ".mdt"%string
  ∧ split true posix_extension posix_replace_extension "fw.mbn" "fw.bin" w
    = (w, Thrown (NotMdtFile "fw.bin"))
  ∧ squash true posix_extension posix_replace_extension "fw.bin" "fw.mbn" w
    = (w, Thrown (NotMdtFile "fw.bin")).
Proof.
  intros w.
  assert (H : posix_extension "fw.bin" ≠ ".mdt"%string) by (vm_compute; discriminate).
  split; [exact H|].
  exact (non_mdt_path_rejected true posix_extension posix_replace_extension
           "fw.mbn" "fw.bin" w H).
Defined.

Lemma detect_elf_format_short (file : stream) (w : world) (f : list byte) :
  files w !! spath file = Some f → (length f < 16)%nat →
  (detect_elf_format file w).2 = Thrown IosFailure.
Proof.
  intros Hf Hl. unfold detect_elf_format, bind.
  rewrite seek_read_run, Hf.
  destruct (read_opt (Some f) 0 EI_NIDENT) as [d|] eqn:E; [|done].
  apply read_at_Some in E; [|done]. unfold EI_NIDENT in E. lia.
Qed.

Lemma detect_elf_format_long (file : stream) (w : world) (f : list byte) :
  files w !! spath file = Some f → (16 ≤ length f)%nat →
  (detect_elf_format file w).2 =
    if negb (bool_decide (take SELFMAG f = ELFMAG)) then Thrown NotElf
    else if bool_decide (ident_data f = ELFDATA2LSB)
            || bool_decide (ident_data f = ELFDATA2MSB)
    then if negb (bool_decide (ident_class f = ELFCLASS32))
            && negb (bool_decide (ident_class f = ELFCLASS64))
         then Thrown (UnsupportedClass (ident_class f))
         else Returned (MkElfFormat (ident_class f)
                          (bool_decide (ident_data f = ELFDATA2LSB)))
    else Thrown UnknownEncoding.
Proof.
  intros Hf Hl. unfold detect_elf_format, bind.
  rewrite seek_read_run, Hf.
  assert (E : read_opt (Some f) 0 EI_NIDENT = Some (take 16 f)).
  { apply read_at_Some; [done|]. unfold EI_NIDENT, slice.
    repeat split; lia. }
  rewrite E. unfold throw, ret. simpl.
  assert (Hm : take SELFMAG (take 16 f) = take SELFMAG f).
  { rewrite take_take. f_equal. }
  rewrite Hm.
  assert (Hd : default x00 (take 16 f !! EI_DATA) = ident_data f).
  { unfold ident_data. rewrite lookup_take_lt; [done|]. unfold EI_DATA; lia. }
  assert (Hc : default x00 (take 16 f !! EI_CLASS) = ident_class f).
  { unfold ident_class. rewrite lookup_take_lt; [done|]. unfold EI_CLASS; lia. }
  rewrite Hd, Hc.
  repeat case_bool_decide; simpl; done.
Qed.

(** C9 as amended.  On a file that holds the sixteen identification
    bytes, [detect_elf_format] throws one of its three format errors
    exactly when the magic, the data encoding or the class is not a
    recognised one, and returns the class byte and the byte order
    otherwise; on a shorter file the stream read itself fails. *)
Theorem detect_elf_format_spec (file : stream) (w : world) (f : list byte) :
  files w !! spath file = Some f →
  ((length f < 16)%nat → (detect_elf_format file w).2 = Thrown IosFailure)
  ∧ ((16 ≤ length f)%nat →
       (is_format_error (detect_elf_format file w).2 ↔ bad_ident f)
       ∧ (¬ bad_ident f →
            (detect_elf_format file w).2
            = Returned (MkElfFormat (ident_class f)
                          (bool_decide (ident_data f = ELFDATA2LSB))))).
Proof.
  intros Hf. split; [by apply detect_elf_format_short|].
  intros Hl. rewrite (detect_elf_format_long _ _ _ Hf Hl).
  unfold bad_ident, is_format_error.
  repeat case_bool_decide; simpl;
    intuition (try discriminate; try congruence; eauto 6);
    repeat match goal with
           | H : ∃ _, _ |- _ => destruct H
           end; try discriminate; try congruence.
Qed.

Lemma write_at_nil (d : list byte) : write_at [] 0 d = d.
Proof.
  unfold write_at. destruct d as [|b d]; [done|].
  simpl. by rewrite app_nil_r.
Qed.

Section SegmentSteps.

Variable host_le : bool.
Variable extension : string → string.
Variable replace_extension : string → string → string.
Variable L : elf_layout.
Variable is_le : bool.

Local Abbreviation filesz := (seg_filesz host_le L is_le).
Local Abbreviation offset := (seg_offset host_le L is_le).
Local Abbreviation nonempty := (seg_nonempty host_le L is_le).
Local Abbreviation hash := (seg_hash host_le L is_le).
Local Abbreviation bxx := (bxx_path replace_extension).

Lemma split_segment_skip (mbn mdt : stream) (mdt_path : string) (i : nat)
    (ph : list byte) (w : world) :
  filesz ph = 0 →
  split_segment host_le replace_extension L mbn mdt mdt_path is_le i ph tt w
  = (w, Returned tt).
Proof.
  unfold seg_filesz, split_segment.
  destruct (get_phdr_info host_le L ph is_le) as [[o n] fl]; cbn [fst snd].
  intros ->. done.
Qed.

Lemma split_segment_run (mbn mdt : stream) (mdt_path : string) (i : nat)
    (ph : list byte) (w : world) :
  filesz ph ≠ 0 →
  split_segment host_le replace_extension L mbn mdt mdt_path is_le i ph tt w
  = match read_opt (files w !! spath mbn) (offset ph) (filesz ph) with
    | None =>
        (World (files w) (trace w ++ [EvRead (sid mbn) (offset ph) (filesz ph)]),
         Thrown IosFailure)
    | Some seg =>
        let fs1 := <[bxx mdt_path i := seg]> (files w) in
        let tr1 := trace w ++ [EvRead (sid mbn) (offset ph) (filesz ph);
                               EvCreate (SBxx i) (bxx mdt_path i);
                               EvWrite (SBxx i) 0 seg] in
        if hash ph
        then (World (<[spath mdt := default [] (fs1 !! spath mdt) ++ seg]> fs1)
                (tr1 ++ [EvAppend (sid mdt) seg]), Returned tt)
        else (World fs1 tr1, Returned tt)
    end.
Proof.
  unfold seg_filesz, seg_offset, seg_hash, seg_flags, split_segment.
  destruct (get_phdr_info host_le L ph is_le) as [[o n] fl]; cbn [fst snd].
  intros Hn. rewrite (proj2 (Z.eqb_neq n 0) Hn).
  unfold bind at 1. rewrite read_file_at_run.
  destruct (read_opt _ o n) as [seg|]; [|done].
  unfold write_segment_file. unfold bind.
  rewrite open_out_run, write_file_at_run. cbn [files trace spath sid].
  rewrite lookup_insert_eq, insert_insert_eq. cbn [default].
  change (Z.to_nat 0) with 0%nat. rewrite write_at_nil.
  rewrite <- !app_assoc. cbn [app].
  destruct (is_pil_hash_segment fl).
  - rewrite append_to_file_run. cbn [files trace].
    rewrite <- !app_assoc. done.
  - done.
Qed.

Lemma squash_segment_skip (mdt mbn : stream) (mdt_path : string) (i : nat)
    (ph : list byte) (c : Z) (w : world) :
  filesz ph = 0 →
  squash_segment host_le replace_extension L mdt mbn mdt_path is_le i ph c w
  = (w, Returned c).
Proof.
  unfold seg_filesz, squash_segment.
  destruct (get_phdr_info host_le L ph is_le) as [[o n] fl]; cbn [fst snd].
  intros ->. done.
Qed.

Lemma squash_segment_run (mdt mbn : stream) (mdt_path : string) (i : nat)
    (ph : list byte) (c : Z) (w : world) :
  filesz ph ≠ 0 →
  squash_segment host_le replace_extension L mdt mbn mdt_path is_le i ph c w
  = if hash ph then
      match read_opt (files w !! spath mdt) c (filesz ph) with
      | None =>
          (World (files w) (trace w ++ [EvRead (sid mdt) c (filesz ph)]),
           Thrown IosFailure)
      | Some seg =>
          (World (<[spath mbn := write_at (default [] (files w !! spath mbn))
                                   (Z.to_nat (offset ph)) seg]> (files w))
             (trace w ++ [EvRead (sid mdt) c (filesz ph);
                          EvWrite (sid mbn) (offset ph) seg]),
           Returned (size_add c (filesz ph)))
      end
    else
      match files w !! bxx mdt_path i with
      | None =>
          (World (files w) (trace w ++ [EvOpen (SBxx i) (bxx mdt_path i)]),
           Thrown (OpenFailed (bxx mdt_path i)))
      | Some b =>
          match read_at b 0 (filesz ph) with
          | None =>
              (World (files w)
                 (trace w ++ [EvOpen (SBxx i) (bxx mdt_path i);
                              EvRead (SBxx i) 0 (filesz ph)]),
               Thrown IosFailure)
          | Some seg =>
              (World (<[spath mbn := write_at (default [] (files w !! spath mbn))
                                       (Z.to_nat (offset ph)) seg]> (files w))
                 (trace w ++ [EvOpen (SBxx i) (bxx mdt_path i);
                              EvRead (SBxx i) 0 (filesz ph);
                              EvWrite (sid mbn) (offset ph) seg]),
               Returned c)
          end
      end.
Proof.
  unfold seg_filesz, seg_offset, seg_hash, seg_flags, squash_segment.
  destruct (get_phdr_info host_le L ph is_le) as [[o n] fl]; cbn [fst snd].
  intros Hn. rewrite (proj2 (Z.eqb_neq n 0) Hn).
  unfold read_segment_data.
  destruct (is_pil_hash_segment fl).
  - unfold bind. rewrite read_file_at_run.
    destruct (read_opt _ c n) as [seg|]; [|done].
    unfold ret. rewrite write_file_at_run. cbn [files trace fst snd].
    rewrite <- !app_assoc. done.
  - unfold bind. rewrite open_in_run.
    destruct (files w !! bxx mdt_path i) as [b|] eqn:E; [|done].
    rewrite read_file_at_run. cbn [files trace spath sid]. rewrite E.
    unfold read_opt. cbn [mbind option_bind].
    destruct (read_at b 0 n) as [seg|]; [|by rewrite <- !app_assoc].
    unfold ret. rewrite write_file_at_run. cbn [files trace fst snd].
    rewrite <- !app_assoc. done.
Qed.

End SegmentSteps.

Lemma bind_assoc {A B C} (m : io A) (k1 : A → io B) (k2 : B → io C) w :
  bind (bind m k1) k2 w = bind m (λ a, bind (k1 a) k2) w.
Proof. unfold bind. destruct (m w) as [w1 [a|e]]; done. Qed.

Section SkipAndFirstEntry.

Variable host_le : bool.
Variable extension : string → string.
Variable replace_extension : string → string → string.
Variable L : elf_layout.
Variable is_le : bool.

Local Abbreviation filesz := (seg_filesz host_le L is_le).
Local Abbreviation offset := (seg_offset host_le L is_le).
Local Abbreviation nonempty := (seg_nonempty host_le L is_le).
Local Abbreviation hash := (seg_hash host_le L is_le).
Local Abbreviation bxx := (bxx_path replace_extension).
Local Abbreviation split_body mbn mdt mdt_path :=
  (split_segment host_le replace_extension L mbn mdt mdt_path is_le).
Local Abbreviation squash_body mdt mbn mdt_path :=
  (squash_segment host_le replace_extension L mdt mbn mdt_path is_le).

(** C7. A program header whose decoded [p_filesz] is zero is passed
    over by both loops: the iteration of [split_impl] leaves the world
    as it is (no sibling file, nothing appended to the mdt), the
    iteration of [squash_impl] leaves the world and [hash_offset] as
    they are (nothing read), and each loop over a table that contains
    such an entry runs as the segments before it followed by the
    segments after it, these keeping their indices. *)
Theorem zero_length_segment_skipped (mbn mdt : stream) (mdt_path : string)
    (before after : list (list byte)) (ph : list byte) (c : Z) (w : world) :
  filesz ph = 0 →
  split_body mbn mdt mdt_path (length before) ph tt w = (w, Returned tt)
  ∧ squash_body mdt mbn mdt_path (length before) ph c w = (w, Returned c)
  ∧ for_indexed (split_body mbn mdt mdt_path) 0 (before ++ ph :: after) tt w
    = (for_indexed (split_body mbn mdt mdt_path) 0 before tt ;;
       for_indexed (split_body mbn mdt mdt_path) (S (length before)) after tt) w
  ∧ for_indexed (squash_body mdt mbn mdt_path) 0 (before ++ ph :: after) c w
    = (let* c' := for_indexed (squash_body mdt mbn mdt_path) 0 before c in
       for_indexed (squash_body mdt mbn mdt_path) (S (length before)) after c') w.
Proof.
  intros Hz. repeat split.
  - by apply split_segment_skip.
  - by apply squash_segment_skip.
  - rewrite for_indexed_app. unfold bind.
    destruct (for_indexed _ 0 before tt w) as [w1 [[]|e]]; [|done].
    cbn [for_indexed]. unfold bind.
    rewrite split_segment_skip by done. done.
  - rewrite for_indexed_app. unfold bind.
    destruct (for_indexed _ 0 before c w) as [w1 [c1|e]]; [|done].
    cbn [for_indexed]. unfold bind.
    rewrite squash_segment_skip by done. done.
Qed.

Lemma squash_segment_throws (mdt mbn : stream) (mdt_path : string) (i : nat)
    (ph : list byte) (c : Z) (w w' : world) (e : error) :
  squash_body mdt mbn mdt_path i ph c w = (w', Thrown e) →
  e ≠ IndexOutOfRange.
Proof.
  destruct (Z.eq_dec (filesz ph) 0) as [Hz|Hz].
  - rewrite squash_segment_skip by done. discriminate.
  - rewrite squash_segment_run by done.
    destruct (hash ph).
    + destruct (read_opt _ c _); intros [= <- <-]; done.
    + destruct (files w !! _); [|intros [= <- <-]; done].
      destruct (read_at _ 0 _); intros [= <- <-]; done.
Qed.

Lemma squash_impl_unfold (mdt mbn : stream) (mdt_path : string) (w : world) :
  squash_impl host_le replace_extension L mdt mbn mdt_path is_le w
  = (let* r := read_headers host_le L mdt is_le in
     write_headers host_le L mbn r.1 r.2 is_le ;;
     match r.2 !! 0%nat with
     | None => throw IndexOutOfRange
     | Some phdr0 =>
         for_indexed (squash_body mdt mbn mdt_path) 0 r.2 (filesz phdr0) ;;
         ret tt
     end) w.
Proof.
  unfold squash_impl, read_headers. rewrite !bind_assoc.
  unfold bind. destruct (read_elf_header L mdt w) as [w1 [ehdr|e]]; [|done].
  destruct (read_program_headers _ _ _ _ _ w1) as [w2 [phdrs|e]]; done.
Qed.

Lemma split_impl_unfold (mbn mdt : stream) (mdt_path : string) (w : world) :
  split_impl host_le replace_extension L mbn mdt mdt_path is_le w
  = (let* r := read_headers host_le L mbn is_le in
     write_headers host_le L mdt r.1 r.2 is_le ;;
     for_indexed (split_body mbn mdt mdt_path) 0 r.2 tt) w.
Proof.
  unfold split_impl, read_headers. rewrite !bind_assoc.
  unfold bind. destruct (read_elf_header L mbn w) as [w1 [ehdr|e]]; [|done].
  destruct (read_program_headers _ _ _ _ _ w1) as [w2 [phdrs|e]]; done.
Qed.

Lemma parse_headers_Some (c : option (list byte)) ehdr phdrs :
  parse_headers host_le L is_le c = Some (ehdr, phdrs) ↔
  read_opt c 0 (Z.of_nat (ehdr_size L)) = Some ehdr
  ∧ mapM (λ i, read_opt c (phdr_pos L (phoff_of host_le L ehdr is_le) i)
                 (Z.of_nat (phdr_size L)))
      (seq 0 (Z.to_nat (phnum_of host_le L ehdr is_le))) = Some phdrs.
Proof.
  unfold parse_headers.
  destruct (read_opt c 0 _) as [e|]; cbn [mbind option_bind];
    [|split; [done|intros [? _]; done]].
  destruct (mapM _ _) as [phs|] eqn:E; cbn [mbind option_bind].
  - split.
    + intros [= -> ->]. done.
    + intros [[= ->] H]. rewrite E in H. by injection H as ->.
  - split; [done|]. intros [[= ->] H]. congruence.
Qed.

Lemma parse_headers_length (c : option (list byte)) ehdr phdrs :
  parse_headers host_le L is_le c = Some (ehdr, phdrs) →
  length phdrs = Z.to_nat (phnum_of host_le L ehdr is_le).
Proof.
  intros [_ H]%parse_headers_Some. apply length_mapM in H.
  by rewrite length_seq in H.
Qed.

(** C10. [squash_impl] reads [phdrs[0]] before its segment loop.  With
    the header of the mdt readable: when the decoded [e_phnum] is zero
    the table is empty and the run ends in the out-of-range branch; when
    it is at least one, every table that was read has an entry 0 and the
    run never ends in that branch. *)
Theorem squash_needs_first_phdr (mdt mbn : stream) (mdt_path : string)
    (w : world) (ehdr : list byte) :
  read_opt (files w !! spath mdt) 0 (Z.of_nat (ehdr_size L)) = Some ehdr →
  (phnum_of host_le L ehdr is_le = 0 →
     (squash_impl host_le replace_extension L mdt mbn mdt_path is_le w).2
     = Thrown IndexOutOfRange)
  ∧ (1 <= phnum_of host_le L ehdr is_le →
       (squash_impl host_le replace_extension L mdt mbn mdt_path is_le w).2
       ≠ Thrown IndexOutOfRange
       ∧ ∀ phdrs,
           parse_headers host_le L is_le (files w !! spath mdt)
           = Some (ehdr, phdrs) →
           is_Some (phdrs !! 0%nat)).
Proof.
  intros He. split.
  - intros Hn. rewrite squash_impl_unfold.
    assert (Hp : parse_headers host_le L is_le (files w !! spath mdt)
                 = Some (ehdr, [])).
    { apply parse_headers_Some. split; [done|]. by rewrite Hn. }
    unfold bind. rewrite (read_headers_ok _ _ _ _ _ _ _ Hp).
    cbn [fst snd]. rewrite write_headers_run. done.
  - intros Hn.
    assert (Hfirst : ∀ phdrs,
           parse_headers host_le L is_le (files w !! spath mdt)
           = Some (ehdr, phdrs) → is_Some (phdrs !! 0%nat)).
    { intros phdrs Hp. apply parse_headers_length in Hp.
      apply lookup_lt_is_Some. lia. }
    split; [|done].
    rewrite squash_impl_unfold.
    destruct (parse_headers host_le L is_le (files w !! spath mdt))
      as [[ehdr' phdrs]|] eqn:Hp.
    + assert (ehdr' = ehdr) as ->.
      { apply parse_headers_Some in Hp as [Hp _]. congruence. }
      unfold bind. rewrite (read_headers_ok _ _ _ _ _ _ _ Hp).
      cbn [fst snd]. rewrite write_headers_run.
      destruct (Hfirst phdrs eq_refl) as [ph0 ->].
      destruct (for_indexed _ 0 phdrs _ _) as [w2 [c|e]] eqn:Hloop; [done|].
      cbn [snd]. intros [= ->].
      by eapply (for_indexed_thrown _ (λ e, e ≠ IndexOutOfRange)) in Hloop;
        [|intros *; apply squash_segment_throws].
    + destruct (read_headers_fail _ _ _ _ _ Hp) as (w1 & Hrun & _).
      unfold bind. rewrite Hrun. done.
Qed.

End SkipAndFirstEntry.

Lemma reads_of_app (id : stream_id) (t1 t2 : list event) :
  reads_of id (t1 ++ t2) = reads_of id t1 ++ reads_of id t2.
Proof. unfold reads_of. apply omap_app. Qed.

Lemma created_app (t1 t2 : list event) :
  created (t1 ++ t2) = created t1 ++ created t2.
Proof. unfold created. apply omap_app. Qed.

Lemma read_opt_bounds (c : option (list byte)) (o n : Z) (d : list byte) :
  n ≠ 0 → read_opt c o n = Some d →
  ∃ f, c = Some f ∧ 0 <= o ∧ 0 < n ∧ o + n <= Z.of_nat (length f)
       ∧ d = slice f (Z.to_nat o) (Z.to_nat n).
Proof.
  intros Hn. destruct c as [f|]; [|done]. cbn.
  intros H%read_at_Some; [|done]. eauto.
Qed.

Lemma cursor_plan_consecutive (bound start : Z) (sizes : list Z) :
  bound < 2 ^ 64 →
  Forall (λ r, 0 <= r.1 ∧ 0 < r.2 ∧ r.1 + r.2 <= bound)
    (cursor_plan start sizes) →
  cursor_plan start sizes = consecutive_reads start sizes.
Proof.
  intros Hb. revert start. induction sizes as [|n r IH]; intros start H; [done|].
  cbn in *. apply Forall_cons in H as [(H0 & H1 & H2) H]. cbn in *.
  assert (E : size_add start n = start + n).
  { unfold size_add. apply wrap_small. unfold in_range, bits; simpl. lia. }
  rewrite E in *. by rewrite IH.
Qed.

Section LoopTraces.

Variable host_le : bool.
Variable extension : string → string.
Variable replace_extension : string → string → string.
Variable L : elf_layout.
Variable is_le : bool.

Local Abbreviation filesz := (seg_filesz host_le L is_le).
Local Abbreviation offset := (seg_offset host_le L is_le).
Local Abbreviation nonempty := (seg_nonempty host_le L is_le).
Local Abbreviation hash := (seg_hash host_le L is_le).
Local Abbreviation bxx := (bxx_path replace_extension).
Local Abbreviation split_body mbn mdt mdt_path :=
  (split_segment host_le replace_extension L mbn mdt mdt_path is_le).
Local Abbreviation squash_body mdt mbn mdt_path :=
  (squash_segment host_le replace_extension L mdt mbn mdt_path is_le).

Lemma seg_nonempty_false (ph : list byte) : filesz ph = 0 → nonempty ph = false.
Proof. unfold seg_nonempty. intros ->. done. Qed.

Lemma seg_nonempty_true (ph : list byte) : filesz ph ≠ 0 → nonempty ph = true.
Proof. unfold seg_nonempty. intros H. by rewrite (proj2 (Z.eqb_neq _ _) H). Qed.

Lemma hash_sizes_cons (ph : list byte) (r : list (list byte)) :
  hash_sizes host_le L is_le (ph :: r)
  = if nonempty ph && hash ph
    then filesz ph :: hash_sizes host_le L is_le r
    else hash_sizes host_le L is_le r.
Proof.
  unfold hash_sizes. rewrite filter_cons.
  destruct (nonempty ph && hash ph); case_decide; done.
Qed.

Lemma split_loop_created (mbn mdt : stream) (mdt_path : string)
    (phdrs : list (list byte)) (i : nat) (w w' : world) :
  for_indexed (split_body mbn mdt mdt_path) i phdrs tt w = (w', Returned tt) →
  spath mdt ∈ dom (files w) →
  ∃ evs, trace w' = trace w ++ evs
    ∧ created evs
      = map (λ j, (SBxx j, bxx mdt_path j))
          (nonempty_indices host_le L is_le i phdrs)
    ∧ dom (files w')
      = dom (files w)
        ∪ list_to_set (map (bxx mdt_path)
                         (nonempty_indices host_le L is_le i phdrs)).
Proof.
  revert i w. induction phdrs as [|ph r IH]; intros i w Hrun Hmdt.
  - cbn in Hrun. injection Hrun as <-. exists []. rewrite app_nil_r.
    cbn. split; [done|]. split; [done|]. by rewrite union_empty_r_L.
  - cbn [for_indexed] in Hrun. apply bind_returned_inv in Hrun
      as (w1 & [] & Hstep & Hrest).
    cbn [nonempty_indices].
    destruct (Z.eq_dec (filesz ph) 0) as [Hz|Hz].
    + rewrite split_segment_skip in Hstep by done. injection Hstep as <-.
      rewrite seg_nonempty_false by done. by apply IH.
    + rewrite split_segment_run in Hstep by done.
      rewrite seg_nonempty_true by done.
      destruct (read_opt _ _ _) as [seg|]; [|done].
      cbn zeta in Hstep.
      assert (Hw1 : ∃ t, trace w1 = trace w ++ t
                ∧ created t = [(SBxx i, bxx mdt_path i)]
                ∧ dom (files w1) = dom (files w) ∪ {[bxx mdt_path i]}).
      { clear Hrest IH.
        destruct (hash ph); injection Hstep as <-; cbn [files trace];
          eexists; (split; [rewrite <- ?app_assoc; reflexivity|]);
          (split; [done|]); rewrite ?dom_insert_L.
        - apply set_eq. intros x. set_unfold.
          split.
          + intros [Hx|[Hx|Hx]]; subst; auto.
          + intros [Hx|Hx]; subst; auto.
        - apply union_comm_L. }
      destruct Hw1 as (t & Ht & Hc & Hd).
      destruct (IH (S i) w1 Hrest) as (evs & Hevs & Hcr & Hdom).
      { rewrite Hd. by apply elem_of_union_l. }
      exists (t ++ evs). rewrite Hevs, Ht, <- app_assoc.
      split; [done|]. rewrite created_app, Hc, Hcr. split; [done|].
      rewrite Hdom, Hd. cbn [map list_to_set]. by rewrite (assoc_L (∪)).
Qed.

Lemma squash_loop_reads (mdt mbn : stream) (mdt_path : string)
    (phdrs : list (list byte)) (i : nat) (c c' : Z) (w w' : world) :
  sid mdt = SMdt →
  for_indexed (squash_body mdt mbn mdt_path) i phdrs c w = (w', Returned c') →
  ∃ evs, trace w' = trace w ++ evs
    ∧ reads_of SMdt evs = cursor_plan c (hash_sizes host_le L is_le phdrs)
    ∧ ∀ m, spath mbn ≠ spath mdt → files w !! spath mdt = Some m →
           files w' !! spath mdt = Some m
           ∧ Forall (λ r, 0 <= r.1 ∧ 0 < r.2
                          ∧ r.1 + r.2 <= Z.of_nat (length m))
               (reads_of SMdt evs).
Proof.
  intros Hid. revert i c w.
  induction phdrs as [|ph r IH]; intros i c w Hrun.
  - cbn in Hrun. injection Hrun as <- <-. exists []. rewrite app_nil_r.
    split; [done|]. split; [done|]. intros m _ Hm. split; [done|]. constructor.
  - cbn [for_indexed] in Hrun. apply bind_returned_inv in Hrun
      as (w1 & c1 & Hstep & Hrest).
    rewrite hash_sizes_cons.
    destruct (Z.eq_dec (filesz ph) 0) as [Hz|Hz].
    + rewrite squash_segment_skip in Hstep by done. injection Hstep as <- <-.
      rewrite seg_nonempty_false by done. cbn [andb].
      exact (IH _ _ _ Hrest).
    + rewrite squash_segment_run in Hstep by done.
      rewrite seg_nonempty_true by done. cbn [andb].
      destruct (IH _ _ _ Hrest) as (evs & Hevs & Hreads & Hm).
      destruct (hash ph).
      * destruct (read_opt _ c _) as [seg|] eqn:Hread; [|done].
        injection Hstep as <- <-. cbn [files trace] in *.
        eexists. split; [rewrite Hevs, <- app_assoc; reflexivity|].
        split.
        -- rewrite reads_of_app, Hreads. cbn. rewrite Hid.
           rewrite decide_True by done. done.
        -- intros m Hne Hf.
           destruct (Hm m Hne) as [Hf' Hall].
           { rewrite lookup_insert_ne by done. done. }
           split; [done|].
           rewrite reads_of_app. apply Forall_app. split; [|done].
           cbn. rewrite Hid, decide_True by done. cbn.
           constructor; [|constructor]. cbn.
           rewrite Hf in Hread.
           apply read_opt_bounds in Hread as (f & [= <-] & ? & ? & ? & _);
             done.
      * destruct (files w !! bxx mdt_path i) as [b|]; [|done].
        destruct (read_at b 0 _) as [seg|]; [|done].
        injection Hstep as <- <-. cbn [files trace] in *.
        eexists. split; [rewrite Hevs, <- app_assoc; reflexivity|].
        split.
        -- rewrite reads_of_app, Hreads. done.
        -- intros m Hne Hf.
           destruct (Hm m Hne) as [Hf' Hall].
           { rewrite lookup_insert_ne by done. done. }
           split; [done|].
           rewrite reads_of_app. apply Forall_app. split; [|done].
           cbn. constructor.
Qed.

(** C3. In a run of [squash_impl] that returns, the reads of the mdt
    stream made by the segment loop are, in index order, one per
    non-empty hash segment: the first at the decoded [p_filesz] of
    program header 0, each of the segment's [p_filesz] bytes, and each
    next one where [hash_offset += filesz] left the cursor.  While the
    mdt is not the file being written and is shorter than [2^64] bytes,
    every such read lies inside the mdt and starts exactly where the one
    before ended. *)
Theorem hash_reads_follow_cursor (mdt mbn : stream) (mdt_path : string)
    (w w' : world) :
  sid mdt = SMdt →
  squash_impl host_le replace_extension L mdt mbn mdt_path is_le w
  = (w', Returned tt) →
  ∃ ehdr phdrs phdr0 evs,
    parse_headers host_le L is_le (files w !! spath mdt) = Some (ehdr, phdrs)
    ∧ phdrs !! 0%nat = Some phdr0
    ∧ trace w'
      = trace w ++ header_read_events host_le L is_le (sid mdt) ehdr
        ++ write_events (sid mbn) (header_writes host_le L is_le ehdr phdrs)
        ++ evs
    ∧ reads_of SMdt evs
      = cursor_plan (filesz phdr0) (hash_sizes host_le L is_le phdrs)
    ∧ ∀ m, spath mbn ≠ spath mdt → files w !! spath mdt = Some m →
           Z.of_nat (length m) < 2 ^ 64 →
           reads_of SMdt evs
           = consecutive_reads (filesz phdr0) (hash_sizes host_le L is_le phdrs)
           ∧ Forall (λ r, 0 <= r.1 ∧ 0 < r.2
                          ∧ r.1 + r.2 <= Z.of_nat (length m))
               (reads_of SMdt evs).
Proof.
  intros Hid Hrun. rewrite squash_impl_unfold in Hrun.
  apply bind_returned_inv in Hrun as (w1 & [ehdr phdrs] & Hhead & Hrun).
  apply read_headers_returned in Hhead as [Hparse ->].
  apply bind_returned_inv in Hrun as (w2 & [] & Hwr & Hrun).
  rewrite write_headers_run in Hwr. injection Hwr as <-.
  cbn [fst snd] in *.
  destruct (phdrs !! 0%nat) as [phdr0|] eqn:H0; [|done].
  apply bind_returned_inv in Hrun as (w3 & c & Hloop & Hret).
  injection Hret as <-.
  destruct (squash_loop_reads _ _ _ _ _ _ _ _ _ Hid Hloop)
    as (evs & Htr & Hreads & Hm).
  exists ehdr, phdrs, phdr0, evs.
  split; [done|]. split; [done|].
  split; [rewrite Htr; cbn [trace]; by rewrite <- !app_assoc|].
  split; [done|].
  intros m Hne Hf Hlen.
  destruct (Hm m Hne) as [_ Hall].
  { cbn [files]. rewrite lookup_insert_ne by done. done. }
  split; [|done]. rewrite Hreads.
  apply (cursor_plan_consecutive (Z.of_nat (length m))); [done|].
  by rewrite <- Hreads.
Qed.

(** C2 as amended.  In a run of [split_impl] that returns, the sibling
    streams created are, in index order, those of the program headers
    with a non-empty segment, hash-classified or not, each on the name
    with the two-digit index; the files that exist afterwards are those
    that existed before, the mdt, and these siblings. *)
Theorem split_creates_nonempty_siblings (mbn mdt : stream)
    (mdt_path : string) (w w' : world) :
  split_impl host_le replace_extension L mbn mdt mdt_path is_le w
  = (w', Returned tt) →
  ∃ ehdr phdrs evs,
    parse_headers host_le L is_le (files w !! spath mbn) = Some (ehdr, phdrs)
    ∧ trace w'
      = trace w ++ header_read_events host_le L is_le (sid mbn) ehdr
        ++ write_events (sid mdt) (header_writes host_le L is_le ehdr phdrs)
        ++ evs
    ∧ created evs
      = map (λ i, (SBxx i, bxx mdt_path i))
          (nonempty_indices host_le L is_le 0 phdrs)
    ∧ dom (files w')
      = dom (files w) ∪ {[spath mdt]}
        ∪ list_to_set (map (bxx mdt_path)
                         (nonempty_indices host_le L is_le 0 phdrs)).
Proof.
  intros Hrun. rewrite split_impl_unfold in Hrun.
  apply bind_returned_inv in Hrun as (w1 & [ehdr phdrs] & Hhead & Hrun).
  apply read_headers_returned in Hhead as [Hparse ->].
  apply bind_returned_inv in Hrun as (w2 & [] & Hwr & Hloop).
  rewrite write_headers_run in Hwr. injection Hwr as <-.
  cbn [fst snd] in *.
  apply split_loop_created in Hloop as (evs & Htr & Hcr & Hdom).
  2:{ cbn [files]. rewrite dom_insert_L.
      apply elem_of_union_l. by apply elem_of_singleton. }
  exists ehdr, phdrs, evs. split; [done|].
  split; [rewrite Htr; cbn [trace]; by rewrite <- !app_assoc|].
  split; [done|]. rewrite Hdom. cbn [files]. rewrite dom_insert_L.
  f_equal. apply union_comm_L.
Qed.

End LoopTraces.

Lemma read_at_from_source (f : list byte) (o n : Z) (d : list byte) :
  read_at f o n = Some d → from_source f (o, d).
Proof.
  intros H. pose proof (read_at_length _ _ _ _ H) as Hl.
  destruct (Z.eq_dec n 0) as [->|Hn].
  - unfold read_at in H. simpl in H. injection H as <-. split; done.
  - apply read_at_Some in H as (? & ? & ? & ->); [|done].
    split; simpl.
    + unfold slice. rewrite length_take, length_drop. f_equal. lia.
    + intros _. rewrite Hl. lia.
Qed.

Lemma slice_of_matches (g f : list byte) (C : nat → Prop) (o : Z)
    (d : list byte) :
  matches g f C → from_source f (o, d) →
  (∀ k, in_region (Z.to_nat o) (length d) k → C k) →
  slice g (Z.to_nat o) (length d) = d.
Proof.
  intros Hm [Hs Hb] Hc. simpl in *.
  destruct (decide (d = [])) as [->|Hd]; [done|].
  specialize (Hb Hd).
  destruct (matches_slice g f C (Z.to_nat o) (length d)) as [_ E]; try done.
  - destruct d; [done|simpl; lia].
  - by rewrite E.
Qed.

Lemma covered_elem (ws : list (Z * list byte)) (o : Z) (d : list byte)
    (k : nat) :
  (o, d) ∈ ws → in_region (Z.to_nat o) (length d) k → covered ws k.
Proof.
  intros Hin Hk. apply Exists_exists. exists (o, d). done.
Qed.

Lemma phdr_writes_elem (L : elf_layout) (phoff : Z) (phdrs : list (list byte))
    (i k : nat) (ph : list byte) :
  phdrs !! k = Some ph →
  (phdr_pos L phoff (i + k), ph) ∈ phdr_writes L phoff i phdrs.
Proof.
  revert i k. induction phdrs as [|x r IH]; intros i k H; [done|].
  destruct k as [|k]; simpl in *.
  - injection H as ->. rewrite Nat.add_0_r. apply list_elem_of_here.
  - apply list_elem_of_further.
    replace (i + S k)%nat with (S i + k)%nat by lia. by apply IH.
Qed.

Lemma slice_app_l (g e : list byte) (o n : nat) :
  (o + n ≤ length g)%nat → slice (g ++ e) o n = slice g o n.
Proof.
  intros H. unfold slice. rewrite drop_app_le by lia.
  rewrite take_app_le; [done|]. rewrite length_drop. lia.
Qed.

Section VerbatimHeaders.

Variable host_le : bool.
Variable extension : string → string.
Variable replace_extension : string → string → string.
Variable L : elf_layout.
Variable is_le : bool.

Local Abbreviation filesz := (seg_filesz host_le L is_le).
Local Abbreviation offset := (seg_offset host_le L is_le).
Local Abbreviation nonempty := (seg_nonempty host_le L is_le).
Local Abbreviation hash := (seg_hash host_le L is_le).
Local Abbreviation bxx := (bxx_path replace_extension).
Local Abbreviation split_body mbn mdt mdt_path :=
  (split_segment host_le replace_extension L mbn mdt mdt_path is_le).
Local Abbreviation squash_body mdt mbn mdt_path :=
  (squash_segment host_le replace_extension L mdt mbn mdt_path is_le).
Local Abbreviation parse := (parse_headers host_le L is_le).
Local Abbreviation hwrites := (header_writes host_le L is_le).
Local Abbreviation phoff ehdr := (phoff_of host_le L ehdr is_le).

Lemma phdr_writes_from_source (f : list byte) (po : Z)
    (phdrs : list (list byte)) (i : nat) :
  Forall2 (λ j ph, read_opt (Some f) (phdr_pos L po j)
                     (Z.of_nat (phdr_size L)) = Some ph)
    (seq i (length phdrs)) phdrs →
  Forall (from_source f) (phdr_writes L po i phdrs).
Proof.
  revert i. induction phdrs as [|ph r IH]; intros i H; [constructor|].
  simpl in H. apply Forall2_cons in H as [H1 H2]. simpl.
  constructor; [eapply read_at_from_source; exact H1|by apply IH].
Qed.

Lemma header_writes_from_source (f : list byte) ehdr phdrs :
  parse (Some f) = Some (ehdr, phdrs) →
  Forall (from_source f) (hwrites ehdr phdrs).
Proof.
  intros Hp. pose proof (parse_headers_length _ _ _ _ _ _ Hp) as Hl.
  apply parse_headers_Some in Hp as [He Hph].
  unfold header_writes. constructor; [eapply read_at_from_source; exact He|].
  apply phdr_writes_from_source. apply mapM_Some in Hph. by rewrite Hl.
Qed.

Lemma parse_headers_sizes (f : list byte) ehdr phdrs :
  parse (Some f) = Some (ehdr, phdrs) →
  length ehdr = ehdr_size L ∧ Forall (λ ph, length ph = phdr_size L) phdrs.
Proof.
  intros Hp. apply parse_headers_Some in Hp as [He Hph]. split.
  - apply read_at_length in He. lia.
  - apply mapM_Some in Hph. apply Forall_forall. intros ph Hin.
    apply list_elem_of_lookup in Hin as [k Hk].
    eapply Forall2_lookup_r in Hph as (j & _ & Hr); [|exact Hk].
    apply read_at_length in Hr. lia.
Qed.

Lemma split_loop_mdt_prefix (mbn mdt : stream) (mdt_path : string)
    (phdrs : list (list byte)) (i : nat) (w w' : world) (m : list byte) :
  for_indexed (split_body mbn mdt mdt_path) i phdrs tt w = (w', Returned tt) →
  (∀ j, j ∈ nonempty_indices host_le L is_le i phdrs →
        bxx mdt_path j ≠ spath mdt) →
  files w !! spath mdt = Some m →
  ∃ extra, files w' !! spath mdt = Some (m ++ extra).
Proof.
  revert i w m. induction phdrs as [|ph r IH]; intros i w m Hrun Hne Hm.
  - cbn in Hrun. injection Hrun as <-. exists []. by rewrite app_nil_r.
  - cbn [for_indexed] in Hrun. apply bind_returned_inv in Hrun
      as (w1 & [] & Hstep & Hrest).
    cbn [nonempty_indices] in Hne.
    destruct (Z.eq_dec (filesz ph) 0) as [Hz|Hz].
    + rewrite split_segment_skip in Hstep by done. injection Hstep as <-.
      rewrite seg_nonempty_false in Hne by done. by eapply IH.
    + rewrite split_segment_run in Hstep by done.
      rewrite seg_nonempty_true in Hne by done.
      destruct (read_opt _ _ _) as [seg|]; [|done].
      cbn zeta in Hstep.
      assert (Hi : bxx mdt_path i ≠ spath mdt) by (apply Hne; left).
      assert (Hw1 : ∃ e, files w1 !! spath mdt = Some (m ++ e)).
      { destruct (hash ph); injection Hstep as <-; cbn [files].
        - exists seg. rewrite lookup_insert_eq.
          rewrite lookup_insert_ne by done. by rewrite Hm.
        - exists []. rewrite lookup_insert_ne by done. by rewrite app_nil_r. }
      destruct Hw1 as (e & He).
      destruct (IH (S i) w1 (m ++ e) Hrest) as (extra & Hex); [|done|].
      { intros j Hj. apply Hne. by right. }
      exists (e ++ extra). by rewrite app_assoc.
Qed.

Lemma segment_region_cons (ph : list byte) (r : list (list byte)) (k : nat) :
  segment_region host_le L is_le (ph :: r) k ↔
  (filesz ph ≠ 0 ∧ in_region (Z.to_nat (offset ph)) (Z.to_nat (filesz ph)) k)
  ∨ segment_region host_le L is_le r k.
Proof. unfold segment_region. apply Exists_cons. Qed.

Lemma squash_loop_outside (mdt mbn : stream) (mdt_path : string)
    (phdrs : list (list byte)) (i : nat) (c c' : Z) (w w' : world)
    (o : list byte) :
  for_indexed (squash_body mdt mbn mdt_path) i phdrs c w = (w', Returned c') →
  files w !! spath mbn = Some o →
  ∃ o', files w' !! spath mbn = Some o' ∧ (length o ≤ length o')%nat
    ∧ ∀ k, (k < length o)%nat → ¬ segment_region host_le L is_le phdrs k →
           o' !! k = o !! k.
Proof.
  revert i c w o. induction phdrs as [|ph r IH]; intros i c w o Hrun Ho.
  - cbn in Hrun. injection Hrun as <- <-. exists o. done.
  - cbn [for_indexed] in Hrun. apply bind_returned_inv in Hrun
      as (w1 & c1 & Hstep & Hrest).
    destruct (Z.eq_dec (filesz ph) 0) as [Hz|Hz].
    + rewrite squash_segment_skip in Hstep by done. injection Hstep as <- <-.
      destruct (IH _ _ _ _ Hrest Ho) as (o' & Ho' & Hl & Hk).
      exists o'. split; [done|]. split; [done|].
      intros k Hlt Hn. apply Hk; [done|]. intros Hr. apply Hn.
      apply segment_region_cons. by right.
    + rewrite squash_segment_run in Hstep by done.
      assert (Hw1 : ∃ seg, length seg = Z.to_nat (filesz ph) ∧ seg ≠ []
                ∧ files w1 !! spath mbn
                  = Some (write_at o (Z.to_nat (offset ph)) seg)).
      { destruct (hash ph).
        - destruct (read_opt _ c _) as [seg|] eqn:Hread; [|done].
          injection Hstep as <- <-. cbn [files]. exists seg.
          rewrite lookup_insert_eq, Ho.
          apply read_opt_bounds in Hread as (f & _ & ? & ? & ? & ->); [|done].
          unfold slice. rewrite length_take, length_drop.
          split; [lia|]. split; [|done].
          intros E. apply (f_equal length) in E.
          rewrite length_take, length_drop in E. simpl in E. lia.
        - destruct (files w !! bxx mdt_path i) as [b|]; [|done].
          destruct (read_at b 0 _) as [seg|] eqn:Hread; [|done].
          injection Hstep as <- <-. cbn [files]. exists seg.
          rewrite lookup_insert_eq, Ho.
          pose proof (read_at_length _ _ _ _ Hread) as Hlen.
          apply read_at_Some in Hread as (? & ? & ? & _); [|done].
          split; [done|]. split; [|done].
          intros ->. simpl in Hlen. lia. }
      destruct Hw1 as (seg & Hlen & Hseg & Hw1).
      destruct (IH _ _ _ _ Hrest Hw1) as (o' & Ho' & Hl & Hk).
      exists o'. split; [done|].
      rewrite length_write_at in Hl by done. split; [lia|].
      intros k Hlt Hn. rewrite Hk.
      * rewrite lookup_write_at by done.
        rewrite decide_False.
        -- by rewrite decide_True.
        -- intros Hin. apply Hn. apply segment_region_cons. left.
           split; [done|]. unfold in_region. lia.
      * rewrite length_write_at by done. lia.
      * intros Hr. apply Hn. apply segment_region_cons. by right.
Qed.

Lemma slice_of_matches_app (g e f : list byte) (C : nat → Prop) (o : Z)
    (d : list byte) :
  matches g f C → from_source f (o, d) →
  (∀ k, in_region (Z.to_nat o) (length d) k → C k) →
  slice (g ++ e) (Z.to_nat o) (length d) = d.
Proof.
  intros Hm [Hs Hb] Hc. simpl in *.
  destruct (decide (d = [])) as [->|Hd]; [done|].
  specialize (Hb Hd).
  destruct (matches_slice g f C (Z.to_nat o) (length d)) as [Hl E]; try done.
  - destruct d; [done|simpl; lia].
  - rewrite slice_app_l by done. by rewrite E.
Qed.

Lemma header_regions_read (f g : list byte) (C : nat → Prop) ehdr phdrs :
  parse (Some f) = Some (ehdr, phdrs) →
  matches g f C →
  ((∀ k, in_region 0 (ehdr_size L) k → C k) →
   slice g 0 (ehdr_size L) = ehdr)
  ∧ ∀ i ph, phdrs !! i = Some ph →
      (∀ k, in_region (Z.to_nat (phdr_pos L (phoff ehdr) i)) (phdr_size L) k
            → C k) →
      slice g (Z.to_nat (phdr_pos L (phoff ehdr) i)) (phdr_size L) = ph.
Proof.
  intros Hp Hm.
  pose proof (header_writes_from_source _ _ _ Hp) as Hsrc.
  destruct (parse_headers_sizes _ _ _ Hp) as [He Hph].
  rewrite Forall_forall in Hsrc. rewrite Forall_forall in Hph.
  split.
  - intros Hc. rewrite <- He.
    apply (slice_of_matches g f C 0 ehdr); [done| |by rewrite He].
    apply Hsrc. unfold header_writes. apply list_elem_of_here.
  - intros i ph Hi Hc.
    assert (Hlen : length ph = phdr_size L)
      by (apply Hph; eapply list_elem_of_lookup_2, Hi).
    rewrite <- Hlen. apply (slice_of_matches g f C); [done| |by rewrite Hlen].
    apply Hsrc. unfold header_writes. apply list_elem_of_further.
    by apply (phdr_writes_elem L _ phdrs 0 i).
Qed.

Lemma header_region_covered ehdr phdrs (f : list byte) :
  parse (Some f) = Some (ehdr, phdrs) →
  (∀ k, in_region 0 (ehdr_size L) k → covered (hwrites ehdr phdrs) k)
  ∧ ∀ i ph, phdrs !! i = Some ph →
      ∀ k, in_region (Z.to_nat (phdr_pos L (phoff ehdr) i)) (phdr_size L) k →
           covered (hwrites ehdr phdrs) k.
Proof.
  intros Hp. destruct (parse_headers_sizes _ _ _ Hp) as [He Hph].
  rewrite Forall_forall in Hph. split.
  - intros k Hk. apply (covered_elem _ 0 ehdr); [apply list_elem_of_here|].
    by rewrite He.
  - intros i ph Hi k Hk.
    apply (covered_elem _ (phdr_pos L (phoff ehdr) i) ph).
    + unfold header_writes. apply list_elem_of_further.
      by apply (phdr_writes_elem L _ phdrs 0 i).
    + rewrite (Hph ph); [done|]. eapply list_elem_of_lookup_2, Hi.
Qed.

Lemma headers_image_matches (f g0 : list byte) ehdr phdrs :
  parse (Some f) = Some (ehdr, phdrs) →
  matches (replay (hwrites ehdr phdrs) g0) f (covered (hwrites ehdr phdrs)).
Proof.
  intros Hp.
  eapply matches_mono.
  - apply (matches_replay _ g0 f (λ _, False)); [by intros k []|].
    by apply header_writes_from_source.
  - intros k Hk. by right.
Qed.


End VerbatimHeaders.

Section SplitResult.

Variable host_le : bool.
Variable extension : string → string.
Variable replace_extension : string → string → string.
Variable L : elf_layout.
Variable is_le : bool.

Local Abbreviation filesz := (seg_filesz host_le L is_le).
Local Abbreviation offset := (seg_offset host_le L is_le).
Local Abbreviation nonempty := (seg_nonempty host_le L is_le).
Local Abbreviation hash := (seg_hash host_le L is_le).
Local Abbreviation bxx := (bxx_path replace_extension).
Local Abbreviation split_body mbn mdt mdt_path :=
  (split_segment host_le replace_extension L mbn mdt mdt_path is_le).
Local Abbreviation squash_body mdt mbn mdt_path :=
  (squash_segment host_le replace_extension L mdt mbn mdt_path is_le).
Local Abbreviation parse := (parse_headers host_le L is_le).
Local Abbreviation hwrites := (header_writes host_le L is_le).
Local Abbreviation phoff ehdr := (phoff_of host_le L ehdr is_le).
Local Abbreviation segb := (seg_bytes host_le L is_le).
Local Abbreviation hstream := (hash_stream host_le L is_le).
Local Abbreviation swrites := (seg_writes host_le L is_le).
Local Abbreviation in_bounds := (segs_in_bounds host_le L is_le).

Lemma split_loop_frame (mbn mdt : stream) (mdt_path : string)
    (phdrs : list (list byte)) (i : nat) (w w' : world) (p : string) :
  for_indexed (split_body mbn mdt mdt_path) i phdrs tt w = (w', Returned tt) →
  p ≠ spath mdt →
  (∀ k, (k < length phdrs)%nat → p ≠ bxx mdt_path (i + k)) →
  files w' !! p = files w !! p.
Proof.
  revert i w. induction phdrs as [|ph r IH]; intros i w Hrun Hp Hk.
  - cbn in Hrun. by injection Hrun as <-.
  - cbn [for_indexed] in Hrun. apply bind_returned_inv in Hrun
      as (w1 & [] & Hstep & Hrest).
    assert (Hrec : files w' !! p = files w1 !! p).
    { apply (IH (S i) w1 Hrest Hp). intros k Hlt.
      replace (S i + k)%nat with (i + S k)%nat by lia.
      apply Hk. simpl. lia. }
    rewrite Hrec.
    destruct (Z.eq_dec (filesz ph) 0) as [Hz|Hz].
    + rewrite split_segment_skip in Hstep by done. by injection Hstep as <-.
    + rewrite split_segment_run in Hstep by done.
      destruct (read_opt _ _ _) as [seg|]; [|done].
      cbn zeta in Hstep.
      assert (Hi : p ≠ bxx mdt_path i).
      { specialize (Hk 0%nat). rewrite Nat.add_0_r in Hk. apply Hk.
        simpl. lia. }
      destruct (hash ph); injection Hstep as <-; cbn [files];
        rewrite ?(lookup_insert_ne _ (spath mdt)) by done;
        rewrite lookup_insert_ne by done; done.
Qed.

Lemma length_seg_bytes (f ph : list byte) :
  0 <= offset ph → 0 <= filesz ph →
  offset ph + filesz ph <= Z.of_nat (length f) →
  length (segb f ph) = Z.to_nat (filesz ph).
Proof.
  intros. unfold seg_bytes, slice. rewrite length_take, length_drop. lia.
Qed.

Lemma split_loop_result (mbn mdt : stream) (mdt_path : string)
    (phdrs : list (list byte)) (i : nat) (w w' : world) (f m : list byte) :
  for_indexed (split_body mbn mdt mdt_path) i phdrs tt w = (w', Returned tt) →
  files w !! spath mbn = Some f →
  files w !! spath mdt = Some m →
  spath mbn ≠ spath mdt →
  (∀ k, (k < length phdrs)%nat →
        bxx mdt_path (i + k) ≠ spath mbn ∧ bxx mdt_path (i + k) ≠ spath mdt) →
  (∀ k1 k2, (k1 < length phdrs)%nat → (k2 < length phdrs)%nat →
            bxx mdt_path (i + k1) = bxx mdt_path (i + k2) → k1 = k2) →
  files w' !! spath mdt = Some (m ++ hstream f phdrs)
  ∧ in_bounds f phdrs
  ∧ ∀ k ph, phdrs !! k = Some ph → filesz ph ≠ 0 →
            files w' !! bxx mdt_path (i + k) = Some (segb f ph).
Proof.
  revert i w m. induction phdrs as [|ph r IH];
    intros i w m Hrun Hf Hm Hne Hpaths Hinj.
  - cbn in Hrun. injection Hrun as <-. cbn. rewrite app_nil_r.
    split; [done|]. split; [constructor|]. intros k ph Hk. done.
  - pose proof Hrun as Hwhole.
    cbn [for_indexed] in Hrun. apply bind_returned_inv in Hrun
      as (w1 & [] & Hstep & Hrest).
    assert (Hpaths' : ∀ k, (k < length r)%nat →
        bxx mdt_path (S i + k) ≠ spath mbn ∧ bxx mdt_path (S i + k) ≠ spath mdt).
    { intros k Hk. replace (S i + k)%nat with (i + S k)%nat by lia.
      apply Hpaths. simpl. lia. }
    assert (Hinj' : ∀ k1 k2, (k1 < length r)%nat → (k2 < length r)%nat →
        bxx mdt_path (S i + k1) = bxx mdt_path (S i + k2) → k1 = k2).
    { intros k1 k2 H1 H2 E.
      replace (S i + k1)%nat with (i + S k1)%nat in E by lia.
      replace (S i + k2)%nat with (i + S k2)%nat in E by lia.
      apply Hinj in E; simpl; lia. }
    destruct (Hpaths 0%nat) as [Hb1 Hb2]; [simpl; lia|].
    rewrite Nat.add_0_r in Hb1, Hb2.
    cbn [hash_stream].
    destruct (Z.eq_dec (filesz ph) 0) as [Hz|Hz].
    + rewrite split_segment_skip in Hstep by done. injection Hstep as <-.
      rewrite seg_nonempty_false by done. cbn [andb].
      destruct (IH (S i) w m Hrest Hf Hm Hne Hpaths' Hinj') as (R1 & R2 & R3).
      split; [done|]. split.
      * constructor; [done|done].
      * intros [|k] ph' Hk Hnz; simpl in Hk.
        -- injection Hk as ->. done.
        -- replace (i + S k)%nat with (S i + k)%nat by lia. by apply R3.
    + rewrite split_segment_run in Hstep by done.
      rewrite seg_nonempty_true by done. cbn [andb].
      rewrite Hf in Hstep.
      destruct (read_opt (Some f) _ _) as [seg|] eqn:Hread; [|done].
      apply read_opt_bounds in Hread
        as (f' & [= <-] & Ho & Hn & Hb & Hseg); [|done].
      change (slice f (Z.to_nat (offset ph)) (Z.to_nat (filesz ph)))
        with (segb f ph) in Hseg. subst seg.
      cbn zeta in Hstep.
      assert (Hw1 : files w1 !! spath mbn = Some f
                ∧ files w1 !! bxx mdt_path i = Some (segb f ph)
                ∧ files w1 !! spath mdt
                  = Some (m ++ if hash ph then segb f ph else [])).
      { destruct (hash ph); injection Hstep as <-; cbn [files];
          (split; [|split]).
        - by rewrite !lookup_insert_ne by done.
        - rewrite lookup_insert_ne by done. apply lookup_insert_eq.
        - rewrite lookup_insert_eq. rewrite lookup_insert_ne by done.
          by rewrite Hm.
        - by rewrite lookup_insert_ne by done.
        - apply lookup_insert_eq.
        - rewrite lookup_insert_ne by done. by rewrite app_nil_r. }
      destruct Hw1 as (Hf1 & Hb1' & Hm1).
      destruct (IH (S i) w1 _ Hrest Hf1 Hm1 Hne Hpaths' Hinj')
        as (R1 & R2 & R3).
      split; [|split].
      * rewrite R1. destruct (hash ph); by rewrite <- ?app_assoc.
      * constructor; [done|done].
      * intros [|k] ph' Hk Hnz; simpl in Hk.
        -- injection Hk as <-. rewrite Nat.add_0_r.
           rewrite (split_loop_frame _ _ _ _ _ _ _ _ Hrest); [done|done|].
           intros k Hk E.
           replace (S i + k)%nat with (i + S k)%nat in E by lia.
           rewrite <- (Nat.add_0_r i) in E at 1.
           apply Hinj in E; simpl; lia.
        -- replace (i + S k)%nat with (S i + k)%nat by lia. by apply R3.
Qed.

End SplitResult.

Lemma slice_prefix (g a b : list byte) (o : nat) :
  slice g o (length (a ++ b)) = a ++ b →
  slice g o (length a) = a
  ∧ slice g (o + length a) (length b) = b.
Proof.
  unfold slice. rewrite length_app. intros H. split.
  - replace (length a) with (length a `min` (length a + length b))%nat by lia.
    rewrite <- take_take, H. apply take_app_length.
  - rewrite <- drop_drop, take_drop_commute, H. apply drop_app_length.
Qed.

Section SquashResult.

Variable host_le : bool.
Variable extension : string → string.
Variable replace_extension : string → string → string.
Variable L : elf_layout.
Variable is_le : bool.

Local Abbreviation filesz := (seg_filesz host_le L is_le).
Local Abbreviation offset := (seg_offset host_le L is_le).
Local Abbreviation nonempty := (seg_nonempty host_le L is_le).
Local Abbreviation hash := (seg_hash host_le L is_le).
Local Abbreviation bxx := (bxx_path replace_extension).
Local Abbreviation squash_body mdt mbn mdt_path :=
  (squash_segment host_le replace_extension L mdt mbn mdt_path is_le).
Local Abbreviation segb := (seg_bytes host_le L is_le).
Local Abbreviation hstream := (hash_stream host_le L is_le).
Local Abbreviation swrites := (seg_writes host_le L is_le).
Local Abbreviation in_bounds := (segs_in_bounds host_le L is_le).

Lemma squash_loop_result (mdt mbn : stream) (mdt_path : string)
    (phdrs : list (list byte)) (i : nat) (c : Z) (w : world)
    (f mdt1 o : list byte) :
  files w !! spath mdt = Some mdt1 →
  files w !! spath mbn = Some o →
  spath mbn ≠ spath mdt →
  (∀ k, (k < length phdrs)%nat → spath mbn ≠ bxx mdt_path (i + k)) →
  in_bounds f phdrs →
  (∀ k ph, phdrs !! k = Some ph → filesz ph ≠ 0 → hash ph = false →
           files w !! bxx mdt_path (i + k) = Some (segb f ph)) →
  cursor_ok mdt1 (hstream f phdrs) c →
  ∃ w' c',
    for_indexed (squash_body mdt mbn mdt_path) i phdrs c w = (w', Returned c')
    ∧ files w' = <[spath mbn := replay (swrites f phdrs) o]> (files w).
Proof.
  revert i c w o. induction phdrs as [|ph r IH];
    intros i c w o Hmdt Hout Hne Hpaths Hbounds Hsib Hcur.
  - exists w, c. split; [done|]. cbn. by rewrite insert_id.
  - apply Forall_cons in Hbounds as [Hb Hbounds].
    assert (Hpaths' : ∀ k, (k < length r)%nat →
              spath mbn ≠ bxx mdt_path (S i + k)).
    { intros k Hk. replace (S i + k)%nat with (i + S k)%nat by lia.
      apply Hpaths. simpl. lia. }
    assert (Hi : spath mbn ≠ bxx mdt_path i).
    { specialize (Hpaths 0%nat). rewrite Nat.add_0_r in Hpaths.
      apply Hpaths. simpl. lia. }
    cbn [for_indexed seg_writes hash_stream] in *.
    destruct (Z.eq_dec (filesz ph) 0) as [Hz|Hz].
    + unfold bind. rewrite squash_segment_skip by done.
      rewrite seg_nonempty_false in * by done. cbn [andb] in Hcur.
      apply (IH (S i) c w o); try done.
      intros k ph' Hk. replace (S i + k)%nat with (i + S k)%nat by lia.
      by apply (Hsib (S k)).
    + unfold bind. rewrite squash_segment_run by done.
      rewrite seg_nonempty_true in * by done. cbn [andb] in Hcur.
      destruct (Hb Hz) as (Ho & Hn & Hbd).
      pose proof (length_seg_bytes host_le L is_le f ph Ho (Z.lt_le_incl _ _ Hn) Hbd)
        as Hlen.
      assert (Hrest : ∀ w1 c1,
          files w1 = <[spath mbn := write_at o (Z.to_nat (offset ph)) (segb f ph)]>
                       (files w) →
          cursor_ok mdt1 (hstream f r) c1 →
          ∃ w' c',
            for_indexed (squash_body mdt mbn mdt_path) (S i) r c1 w1
            = (w', Returned c')
            ∧ files w'
              = <[spath mbn := replay (swrites f r)
                    (write_at o (Z.to_nat (offset ph)) (segb f ph))]>
                  (files w)).
      { intros w1 c1 Hw1 Hc1.
        destruct (IH (S i) c1 w1
                    (write_at o (Z.to_nat (offset ph)) (segb f ph)))
          as (w' & c' & Hrun & Hfiles); try done.
        - rewrite Hw1. by rewrite lookup_insert_ne.
        - rewrite Hw1. apply lookup_insert_eq.
        - intros k ph' Hk Hnz Hh. rewrite Hw1.
          rewrite lookup_insert_ne by (apply Hpaths'; eapply lookup_lt_Some, Hk).
          replace (S i + k)%nat with (i + S k)%nat by lia.
          by apply (Hsib (S k)).
        - exists w', c'. split; [done|].
          rewrite Hfiles, Hw1. apply insert_insert_eq. }
      destruct (hash ph) eqn:Hh.
      * destruct Hcur as [Hnil|(Hc0 & Hcb & Hlt & Hs)].
        { apply (f_equal length) in Hnil. rewrite length_app, Hlen in Hnil.
          simpl in Hnil. lia. }
        apply slice_prefix in Hs as [Hs1 Hs2].
        rewrite length_app, Hlen in Hcb.
        rewrite Hmdt.
        assert (Hread : read_opt (Some mdt1) c (filesz ph) = Some (segb f ph)).
        { apply read_at_Some; [done|]. repeat split; try lia.
          rewrite <- Hs1 at 1. by rewrite Hlen. }
        rewrite Hread, Hout. cbn [default].
        apply Hrest; [done|].
        destruct (decide (hstream f r = [])) as [E|E]; [by left|right].
        assert (Ec : size_add c (filesz ph) = c + filesz ph).
        { apply wrap_small. unfold in_range, bits; simpl. lia. }
        rewrite Ec. repeat split; try lia.
        rewrite <- Hs2 at 2. rewrite Hlen. f_equal. lia.
      * specialize (Hsib 0%nat ph eq_refl Hz Hh). rewrite Nat.add_0_r in Hsib.
        rewrite Hsib.
        assert (Hread : read_at (segb f ph) 0 (filesz ph) = Some (segb f ph)).
        { apply read_at_Some; [done|]. repeat split; try lia.
          unfold slice. rewrite drop_0. symmetry. apply take_ge. lia. }
        rewrite Hread, Hout. cbn [default].
        apply Hrest; [done|]. done.
Qed.

Lemma seg_writes_from_source (f : list byte) (phdrs : list (list byte)) :
  in_bounds f phdrs → Forall (from_source f) (swrites f phdrs).
Proof.
  induction phdrs as [|ph r IH]; intros Hb; [constructor|].
  apply Forall_cons in Hb as [Hb Hr]. cbn [seg_writes].
  destruct (Z.eq_dec (filesz ph) 0) as [Hz|Hz].
  - rewrite seg_nonempty_false by done. by apply IH.
  - rewrite seg_nonempty_true by done. constructor; [|by apply IH].
    destruct (Hb Hz) as (Ho & Hn & Hbd).
    pose proof (length_seg_bytes host_le L is_le f ph Ho (Z.lt_le_incl _ _ Hn) Hbd)
      as Hlen.
    split; cbn [fst snd].
    + by rewrite Hlen.
    + intros _. rewrite Hlen. lia.
Qed.

End SquashResult.

Lemma read_at_transfer (f g : list byte) (C : nat → Prop) (o n : Z)
    (d : list byte) :
  read_at f o n = Some d → matches g f C →
  (∀ k, in_region (Z.to_nat o) (length d) k → C k) →
  read_at g o n = Some d.
Proof.
  intros Hr Hm Hc. pose proof (read_at_length _ _ _ _ Hr) as Hl.
  destruct (Z.eq_dec n 0) as [->|Hn].
  - unfold read_at in *. simpl in *. done.
  - apply read_at_Some in Hr as (Ho & Hn' & Hb & ->); [|done].
    rewrite Hl in Hc.
    destruct (matches_slice g f C (Z.to_nat o) (Z.to_nat n) Hm Hc)
      as [Hg E]; [lia|lia|].
    apply read_at_Some; [done|]. repeat split; try lia. by rewrite E.
Qed.

Lemma matches_app (g e f : list byte) (C : nat → Prop) :
  matches g f C → (∀ k, C k → (k < length f)%nat) → matches (g ++ e) f C.
Proof.
  intros Hm Hlt k Hk. specialize (Hm k Hk).
  destruct (lookup_lt_is_Some_2 f k (Hlt k Hk)) as [b Hb].
  rewrite Hb in *. by apply lookup_app_l_Some.
Qed.

Lemma replay_app (ws1 ws2 : list (Z * list byte)) (g : list byte) :
  replay (ws1 ++ ws2) g = replay ws2 (replay ws1 g).
Proof. unfold replay. apply fold_left_app. Qed.

Section RoundTripImpl.

Variable host_le : bool.
Variable extension : string → string.
Variable replace_extension : string → string → string.
Variable L : elf_layout.
Variable is_le : bool.

Local Abbreviation filesz := (seg_filesz host_le L is_le).
Local Abbreviation offset := (seg_offset host_le L is_le).
Local Abbreviation nonempty := (seg_nonempty host_le L is_le).
Local Abbreviation hash := (seg_hash host_le L is_le).
Local Abbreviation bxx := (bxx_path replace_extension).
Local Abbreviation parse := (parse_headers host_le L is_le).
Local Abbreviation hwrites := (header_writes host_le L is_le).
Local Abbreviation phoff ehdr := (phoff_of host_le L ehdr is_le).
Local Abbreviation segb := (seg_bytes host_le L is_le).
Local Abbreviation hstream := (hash_stream host_le L is_le).
Local Abbreviation swrites := (seg_writes host_le L is_le).
Local Abbreviation in_bounds := (segs_in_bounds host_le L is_le).

Lemma parse_transfer (f g : list byte) ehdr phdrs :
  parse (Some f) = Some (ehdr, phdrs) →
  matches g f (covered (hwrites ehdr phdrs)) →
  parse (Some g) = Some (ehdr, phdrs).
Proof.
  intros Hp Hm.
  destruct (header_region_covered host_le L is_le _ _ _ Hp) as [Hc0 Hci].
  destruct (parse_headers_sizes host_le L is_le _ _ _ Hp) as [He Hph].
  rewrite Forall_forall in Hph.
  apply parse_headers_Some in Hp as [Hr0 Hrs].
  apply parse_headers_Some. split.
  - eapply read_at_transfer; [exact Hr0|exact Hm|]. by rewrite He.
  - apply mapM_Some. apply mapM_Some in Hrs.
    apply Forall2_same_length_lookup.
    apply Forall2_same_length_lookup in Hrs as [Hlen Hrs].
    split; [done|]. intros i j ph Hj Hi.
    specialize (Hrs i j ph Hj Hi).
    apply lookup_seq in Hj as [-> _]. simpl in *.
    eapply read_at_transfer; [exact Hrs|exact Hm|].
    rewrite (Hph ph) by (eapply list_elem_of_lookup_2, Hi).
    by apply (Hci i ph).
Qed.

Lemma hash_sizes_nil (f : list byte) (phdrs : list (list byte)) :
  hash_sizes host_le L is_le phdrs = [] → hstream f phdrs = [].
Proof.
  induction phdrs as [|ph r IH]; [done|].
  rewrite hash_sizes_cons. cbn [hash_stream].
  destruct (nonempty ph && hash ph); [done|]. apply IH.
Qed.

Lemma roundtrip_impl (mbn mdt out : stream) (mdt_path : string)
    (w0 w1 : world) (t : list event) (f : list byte) ehdr phdrs ph0 mdt1 :
  files w0 !! spath mbn = Some f →
  files w0 !! spath mdt = Some [] →
  split_impl host_le replace_extension L mbn mdt mdt_path is_le w0
    = (w1, Returned tt) →
  parse (Some f) = Some (ehdr, phdrs) →
  spath mbn ≠ spath mdt →
  spath out ≠ spath mdt →
  (∀ k, (k < length phdrs)%nat →
        bxx mdt_path k ≠ spath mbn ∧ bxx mdt_path k ≠ spath mdt
        ∧ bxx mdt_path k ≠ spath out) →
  (∀ k1 k2, (k1 < length phdrs)%nat → (k2 < length phdrs)%nat →
            bxx mdt_path k1 = bxx mdt_path k2 → k1 = k2) →
  phdrs !! 0%nat = Some ph0 →
  (hash_sizes host_le L is_le phdrs = []
   ∨ filesz ph0 = Z.of_nat (length (replay (hwrites ehdr phdrs) []))) →
  files w1 !! spath mdt = Some mdt1 →
  Z.of_nat (length mdt1) < 2 ^ 64 →
  (∀ k, (k < length f)%nat →
        covered (hwrites ehdr phdrs ++ swrites f phdrs) k) →
  ∃ w2,
    squash_impl host_le replace_extension L mdt out mdt_path is_le
      (World (<[spath out := []]> (files w1)) t)
    = (w2, Returned tt)
    ∧ files w2 !! spath out = Some f.
Proof.
  intros Hf Hm0 Hsplit Hparse Hne Hout Hpaths Hinj H0 Hconv Hmdt1 Hlt Hcov.
  set (H := replay (hwrites ehdr phdrs) []) in *.
  (* the run of split *)
  rewrite split_impl_unfold in Hsplit.
  apply bind_returned_inv in Hsplit as (wa & [ehdr' phdrs'] & Hhead & Hsplit).
  apply read_headers_returned in Hhead as [Hparse' ->].
  rewrite Hf, Hparse in Hparse'. injection Hparse' as <- <-.
  apply bind_returned_inv in Hsplit as (wb & [] & Hwr & Hloop).
  rewrite write_headers_run in Hwr. injection Hwr as <-.
  cbn [fst snd files trace] in Hloop. rewrite Hm0 in Hloop. cbn [default] in Hloop.
  fold H in Hloop.
  destruct (split_loop_result host_le replace_extension L is_le
              _ _ _ _ _ _ _ f H Hloop) as (R1 & R2 & R3).
  { cbn [files]. by rewrite lookup_insert_ne. }
  { cbn [files]. apply lookup_insert_eq. }
  { done. }
  { intros k Hk. cbn [Nat.add]. destruct (Hpaths k Hk) as (? & ? & ?). done. }
  { intros k1 k2 H1 H2. cbn [Nat.add]. by apply Hinj. }
  rewrite Hmdt1 in R1. injection R1 as ->.
  (* the run of squash *)
  pose proof (header_writes_from_source host_le L is_le _ _ _ Hparse) as Hsrc.
  pose proof (headers_image_matches host_le L is_le f [] _ _ Hparse) as HmH.
  fold H in HmH.
  assert (Hm1 : matches (H ++ hstream f phdrs) f (covered (hwrites ehdr phdrs))).
  { apply matches_app; [done|]. intros k. by apply covered_lt. }
  pose proof (parse_transfer _ _ _ _ Hparse Hm1) as Hparse1.
  rewrite squash_impl_unfold.
  set (ws := World (<[spath out := []]> (files w1)) t).
  assert (Hws : files ws !! spath mdt = Some (H ++ hstream f phdrs)).
  { cbn [ws files]. by rewrite lookup_insert_ne. }
  erewrite bind_ok; [|apply read_headers_ok; rewrite Hws; exact Hparse1].
  cbn [fst snd].
  erewrite bind_ok; [|apply write_headers_run].
  rewrite H0. subst ws.
  cbn [files trace]. rewrite lookup_insert_eq. cbn [default]. fold H.
  rewrite insert_insert_eq.
  edestruct (squash_loop_result host_le replace_extension L is_le mdt out
               mdt_path phdrs 0 (filesz ph0)
               (World (<[spath out := H]> (files w1))
                  ((t ++ header_read_events host_le L is_le (sid mdt) ehdr)
                   ++ write_events (sid out) (hwrites ehdr phdrs)))
               f (H ++ hstream f phdrs) H)
    as (w' & c' & Hrun & Hfiles).
  { cbn [files]. by rewrite lookup_insert_ne. }
  { cbn [files]. apply lookup_insert_eq. }
  { done. }
  { intros k Hk. cbn [Nat.add]. destruct (Hpaths k Hk) as (? & ? & ?). done. }
  { done. }
  { intros k ph Hk Hnz _. cbn [files Nat.add].
    assert (Hk' : (k < length phdrs)%nat) by (eapply lookup_lt_Some, Hk).
    destruct (Hpaths k Hk') as (? & ? & ?).
    rewrite lookup_insert_ne by done. by apply (R3 k ph). }
  { destruct (decide (hstream f phdrs = [])) as [E|E]; [by left|right].
    destruct Hconv as [Hnil|Hc0]; [by apply (hash_sizes_nil f) in Hnil|].
    rewrite Hc0. rewrite length_app in Hlt.
    split; [lia|]. split; [rewrite length_app; lia|].
    split; [rewrite length_app; lia|].
    rewrite Nat2Z.id. unfold slice. rewrite drop_app_length.
    by apply take_ge. }
  eexists. split; [erewrite bind_ok; [reflexivity|exact Hrun]|].
  rewrite Hfiles. cbn [files]. rewrite lookup_insert_eq. f_equal.
  unfold H. rewrite <- replay_app.
  eapply agrees_full.
  - apply (agrees_replay _ [] f (λ _, False));
      [split; [simpl; lia|by intros k []]|].
    apply Forall_app. split; [done|]. by apply seg_writes_from_source.
  - intros k Hk. right. by apply Hcov.
Qed.

End RoundTripImpl.

Lemma detect_elf_format_run (file : stream) (w : world) :
  detect_elf_format file w
  = (World (files w) (trace w ++ [EvRead (sid file) 0 EI_NIDENT]),
     detect_outcome (files w !! spath file)).
Proof.
  unfold detect_elf_format, detect_outcome, classify_ident, bind.
  rewrite seek_read_run.
  destruct (read_opt _ 0 EI_NIDENT) as [e|]; [|done].
  unfold throw, ret, ident_data, ident_class.
  repeat (case_bool_decide; cbn [negb andb orb]); done.
Qed.

Lemma layout_of_class_sizes (c : byte) (L : elf_layout) :
  layout_of_class c = Some L → (16 ≤ ehdr_size L)%nat.
Proof.
  unfold layout_of_class. repeat case_bool_decide; intros [= <-]; simpl; lia.
Qed.

Section ToolRuns.

Variable host_le : bool.
Variable extension : string → string.
Variable replace_extension : string → string → string.

Local Abbreviation bxx := (bxx_path replace_extension).

Lemma split_run (mbn_path mdt_path : string) (w : world) :
  extension mdt_path = ".mdt"%string →
  is_Some (files w !! mbn_path) →
  split host_le extension replace_extension mbn_path mdt_path w
  = let w1 := World (<[mdt_path := []]> (files w))
                (trace w ++ [EvOpen SMbn mbn_path; EvCreate SMdt mdt_path;
                             EvRead SMbn 0 EI_NIDENT]) in
    match detect_outcome (<[mdt_path := []]> (files w) !! mbn_path) with
    | Thrown e => (w1, Thrown e)
    | Returned format =>
        match layout_of_class (elf_class format) with
        | Some L =>
            split_impl host_le replace_extension L (Stream SMbn mbn_path)
              (Stream SMdt mdt_path) mdt_path (is_little_endian format) w1
        | None => (w1, Returned tt)
        end
    end.
Proof.
  intros Hext [f Hf]. unfold split.
  rewrite bool_decide_eq_true_2 by done. cbn [negb].
  unfold bind. rewrite open_in_run, Hf, open_out_run, detect_elf_format_run.
  cbn [files trace spath sid]. rewrite <- !app_assoc. cbn [app].
  destruct (detect_outcome _) as [format|e]; [|done].
  unfold layout_of_class. repeat case_bool_decide; done.
Qed.

Lemma squash_run (mdt_path mbn_path : string) (w : world) :
  extension mdt_path = ".mdt"%string →
  is_Some (files w !! mdt_path) →
  squash host_le extension replace_extension mdt_path mbn_path w
  = let w1 := World (<[mbn_path := []]> (files w))
                (trace w ++ [EvOpen SMdt mdt_path; EvCreate SMbn mbn_path;
                             EvRead SMdt 0 EI_NIDENT]) in
    match detect_outcome (<[mbn_path := []]> (files w) !! mdt_path) with
    | Thrown e => (w1, Thrown e)
    | Returned format =>
        match layout_of_class (elf_class format) with
        | Some L =>
            squash_impl host_le replace_extension L (Stream SMdt mdt_path)
              (Stream SMbn mbn_path) mdt_path (is_little_endian format) w1
        | None => (w1, Returned tt)
        end
    end.
Proof.
  intros Hext [f Hf]. unfold squash.
  rewrite bool_decide_eq_true_2 by done. cbn [negb].
  unfold bind. rewrite open_in_run, Hf, open_out_run, detect_elf_format_run.
  cbn [files trace spath sid]. rewrite <- !app_assoc. cbn [app].
  destruct (detect_outcome _) as [format|e]; [|done].
  unfold layout_of_class. repeat case_bool_decide; done.
Qed.

End ToolRuns.

Section RoundTrip.

Variable host_le : bool.
Variable extension : string → string.
Variable replace_extension : string → string → string.

Local Abbreviation bxx := (bxx_path replace_extension).

Lemma split_needs_mdt (mbn_path mdt_path : string) (w w' : world) :
  split host_le extension replace_extension mbn_path mdt_path w
    = (w', Returned tt) →
  extension mdt_path = ".mdt"%string.
Proof.
  unfold split. case_bool_decide; [done|]. discriminate.
Qed.

Lemma nonempty_indices_lt (L : elf_layout) (is_le : bool)
    (phdrs : list (list byte)) (i j : nat) :
  j ∈ nonempty_indices host_le L is_le i phdrs →
  (i ≤ j < i + length phdrs)%nat.
Proof.
  revert i. induction phdrs as [|ph r IH]; intros i; cbn [nonempty_indices].
  - intros H. by apply elem_of_nil in H.
  - destruct (seg_nonempty host_le L is_le ph).
    + intros [->|H]%elem_of_cons; [simpl; lia|]. apply IH in H. simpl. lia.
    + intros H. apply IH in H. simpl. lia.
Qed.

Lemma paths_distinct_elim (mbn_path mdt_path out_path : string) (n : nat) :
  paths_distinct replace_extension mbn_path mdt_path out_path n →
  mbn_path ≠ mdt_path ∧ out_path ≠ mdt_path
  ∧ (∀ k, (k < n)%nat →
          bxx mdt_path k ≠ mbn_path ∧ bxx mdt_path k ≠ mdt_path
          ∧ bxx mdt_path k ≠ out_path)
  ∧ (∀ k1 k2, (k1 < n)%nat → (k2 < n)%nat →
              bxx mdt_path k1 = bxx mdt_path k2 → k1 = k2).
Proof.
  intros (Hnd & Hm & Ho). cbn zeta in *.
  apply NoDup_cons in Hnd as [Hmdt Hnd].
  rewrite not_elem_of_cons in Hm, Ho.
  destruct Hm as [Hm1 Hm2], Ho as [Ho1 Ho2].
  assert (Hin : ∀ k, (k < n)%nat →
            bxx mdt_path k ∈ map (bxx mdt_path) (seq 0 n)).
  { intros k Hk. apply (list_elem_of_fmap_2 (bxx mdt_path)).
    apply elem_of_seq. lia. }
  split; [done|]. split; [done|]. split.
  - intros k Hk. specialize (Hin k Hk).
    repeat split; intros E; rewrite E in Hin; done.
  - intros k1 k2 H1 H2 E.
    eapply (NoDup_lookup _ k1 k2 (bxx mdt_path k1)) in Hnd; [done| |].
    + change (map (bxx mdt_path) (seq 0 n)) with (bxx mdt_path <$> seq 0 n).
      rewrite list_lookup_fmap, lookup_seq_lt by done. done.
    + change (map (bxx mdt_path) (seq 0 n)) with (bxx mdt_path <$> seq 0 n).
      rewrite list_lookup_fmap, lookup_seq_lt by done. simpl. by rewrite E.
Qed.

Lemma split_impl_mdt_image (L : elf_layout) (is_le : bool)
    (mbn mdt : stream) (mdt_path : string) (w w' : world) (f : list byte)
    ehdr phdrs :
  files w !! spath mbn = Some f →
  split_impl host_le replace_extension L mbn mdt mdt_path is_le w
    = (w', Returned tt) →
  parse_headers host_le L is_le (Some f) = Some (ehdr, phdrs) →
  (∀ j, j ∈ nonempty_indices host_le L is_le 0 phdrs →
        bxx mdt_path j ≠ spath mdt) →
  ∃ extra,
    files w' !! spath mdt
    = Some (replay (header_writes host_le L is_le ehdr phdrs)
              (default [] (files w !! spath mdt)) ++ extra).
Proof.
  intros Hf Hrun Hparse Hne. rewrite split_impl_unfold in Hrun.
  apply bind_returned_inv in Hrun as (w1 & [ehdr' phdrs'] & Hhead & Hrun).
  apply read_headers_returned in Hhead as [Hparse' ->].
  rewrite Hf, Hparse in Hparse'. injection Hparse' as <- <-.
  apply bind_returned_inv in Hrun as (w2 & [] & Hwr & Hloop).
  rewrite write_headers_run in Hwr. injection Hwr as <-.
  cbn [fst snd files trace] in *.
  eapply (split_loop_mdt_prefix host_le replace_extension L is_le);
    [exact Hloop|exact Hne|]. cbn [files]. apply lookup_insert_eq.
Qed.


End RoundTrip.

Lemma run_returned {A} (p : world * outcome A) (a : A) :
  p.2 = Returned a → p = (p.1, Returned a).
Proof. destruct p as [w o]. simpl. by intros ->. Qed.



(** Counterexample to C2: of the two-segment image, whose segment 0 is
    a hash segment and whose segment 1 is not, [split] leaves both
    [fw.b00] and [fw.b01]; the hash segment has a sibling file of its
    own besides its copy in the mdt. *)
Lemma split_hash_sibling_counterexample :
  (run_split image_two_segments).2 = Returned tt
  ∧ seg_hash true Elf32 true (elf32_phdr 116 2 HASH_FLAGS) = true
  ∧ seg_hash true Elf32 true (elf32_phdr 118 1 0) = false
  ∧ files (run_split image_two_segments).1 !! "fw.b00"%string
    = Some [xaa; xbb]
  ∧ files (run_split image_two_segments).1 !! "fw.b01"%string
    = Some [xcc]
  ∧ files (run_split image_two_segments).1 !! "fw.mdt"%string
    = Some (take 116 image_two_segments ++ [xaa; xbb]).
Proof. repeat split; vm_compute; reflexivity. Qed.

Lemma split_creates_nonempty_siblings_witness :
  ∃ ehdr phdrs evs,
    parse_headers true Elf32 true (Some image_two_segments)
    = Some (ehdr, phdrs)
    ∧ trace (split_impl true posix_replace_extension Elf32 mbn_stream
               mdt_stream "fw.mdt" true
               (world_of [("fw.mbn"%string, image_two_segments)])).1
      = [] ++ header_read_events true Elf32 true SMbn ehdr
        ++ write_events SMdt (header_writes true Elf32 true ehdr phdrs)
        ++ evs
    ∧ created evs
      = map (λ i, (SBxx i, bxx_path posix_replace_extension "fw.mdt" i))
          (nonempty_indices true Elf32 true 0 phdrs)
    ∧ dom (files (split_impl true posix_replace_extension Elf32 mbn_stream
                    mdt_stream "fw.mdt" true
                    (world_of [("fw.mbn"%string, image_two_segments)])).1)
      = dom (files (world_of [("fw.mbn"%string, image_two_segments)]))
        ∪ {["fw.mdt"%string]}
        ∪ list_to_set (map (bxx_path posix_replace_extension "fw.mdt")
                         (nonempty_indices true Elf32 true 0 phdrs)).
Proof.
  apply (split_creates_nonempty_siblings true posix_replace_extension Elf32
           true mbn_stream mdt_stream "fw.mdt"
           (world_of [("fw.mbn"%string, image_two_segments)])).
  apply run_returned. vm_compute; reflexivity.
Defined.

Lemma hash_reads_follow_cursor_witness :
  ∃ ehdr phdrs phdr0 evs,
    parse_headers true Elf32 true (Some image_conventional)
    = Some (ehdr, phdrs)
    ∧ phdrs !! 0%nat = Some phdr0
    ∧ reads_of SMdt evs
      = cursor_plan (seg_filesz true Elf32 true phdr0)
          (hash_sizes true Elf32 true phdrs)
    ∧ reads_of SMdt evs = [(116, 4)].
Proof.
  destruct (hash_reads_follow_cursor true posix_replace_extension Elf32 true
              mdt_stream out_stream "fw.mdt" split_files
              (squash_impl true posix_replace_extension Elf32 mdt_stream
                 out_stream "fw.mdt" true split_files).1)
    as (ehdr & phdrs & phdr0 & evs & Hp & H0 & _ & Hr & _).
  - reflexivity.
  - apply run_returned. vm_compute; reflexivity.
  - exists ehdr, phdrs, phdr0, evs.
    split; [exact Hp|]. split; [exact H0|]. split; [exact Hr|].
    rewrite Hr.
    assert (E : parse_headers true Elf32 true (Some image_conventional)
                = Some (take 52 image_conventional,
                        [slice image_conventional 52 32;
                         slice image_conventional 84 32]))
      by (vm_compute; reflexivity).
    change (files split_files !! spath mdt_stream)
      with (Some image_conventional) in Hp.
    rewrite E in Hp. injection Hp as <- <-.
    injection H0 as <-. vm_compute; reflexivity.
Defined.



Lemma zero_length_segment_skipped_witness :
  seg_filesz true Elf32 true empty_phdr = 0
  ∧ split_segment true posix_replace_extension Elf32 mbn_stream mdt_stream
      "fw.mdt" true 0 empty_phdr tt split_files
    = (split_files, Returned tt)
  ∧ squash_segment true posix_replace_extension Elf32 mdt_stream out_stream
      "fw.mdt" true 0 empty_phdr 116 split_files
    = (split_files, Returned 116).
Proof.
  assert (H : seg_filesz true Elf32 true empty_phdr = 0)
    by (vm_compute; reflexivity).
  split; [exact H|].
  destruct (zero_length_segment_skipped true posix_replace_extension Elf32
              true mbn_stream mdt_stream "fw.mdt" [] [] empty_phdr 116
              split_files H) as (H1 & H2 & _).
  split; [exact H1|exact H2].
Defined.

(** Counterexample to C9: a six-byte file with the magic, the 32-bit
    class and the little-endian encoding has none of the three defects,
    yet [detect_elf_format] does not return a format: the read of the
    sixteen identification bytes fails. *)
Lemma detect_short_file_counterexample :
  ¬ bad_ident short_ident
  ∧ (detect_elf_format mdt_stream
       (world_of [("fw.mdt"%string, short_ident)])).2
    = Thrown IosFailure.
Proof.
  split; [|vm_compute; reflexivity].
  intros [H|[[H _]|[H _]]]; apply H; reflexivity.
Qed.

Lemma detect_elf_format_spec_witness :
  (detect_elf_format mbn_stream
     (world_of [("fw.mbn"%string, image_conventional)])).2
  = Returned (MkElfFormat ELFCLASS32 true).
Proof.
  destruct (detect_elf_format_spec mbn_stream
              (world_of [("fw.mbn"%string, image_conventional)])
              image_conventional) as [_ Hlong].
  - vm_compute; reflexivity.
  - destruct Hlong as [_ Hret]; [vm_compute; lia|].
    rewrite Hret; [reflexivity|].
    intros [H|[[H _]|[H _]]]; apply H; reflexivity.
Defined.

Lemma squash_needs_first_phdr_witness :
  (squash_impl true posix_replace_extension Elf32 mdt_stream out_stream
     "fw.mdt" true (world_of [("fw.mdt"%string, mdt_without_phdrs)])).2
  = Thrown IndexOutOfRange.
Proof.
  destruct (squash_needs_first_phdr true posix_replace_extension Elf32 true
              mdt_stream out_stream "fw.mdt"
              (world_of [("fw.mdt"%string, mdt_without_phdrs)])
              mdt_without_phdrs) as [Hzero _].
  - vm_compute; reflexivity.
  - apply Hzero. vm_compute; reflexivity.
Defined.

(** The two tools on a big-endian 64-bit image, built for a
    little-endian and for a big-endian host. *)
Example roundtrip_elf64_be_ex :
  (run_split image64_conventional).2 = Returned tt
  ∧ files (run_split image64_conventional).1 !! "fw.mdt"%string
    = Some (take 235 image64_conventional)
  ∧ files (run_split image64_conventional).1 !! "fw.b02"%string
    = Some [x44; x55]
  ∧ (run_squash (run_split image64_conventional).1).2 = Returned tt
  ∧ files (run_squash (run_split image64_conventional).1).1
      !! "out.mbn"%string
    = Some image64_conventional.
Proof. repeat split; vm_compute; reflexivity. Qed.

Example roundtrip_big_endian_host_ex :
  files (squash false posix_extension posix_replace_extension
           "fw.mdt" "out.mbn"
           (split false posix_extension posix_replace_extension
              "fw.mbn" "fw.mdt"
              (world_of [("fw.mbn"%string, image64_conventional)])).1).1
    !! "out.mbn"%string
  = Some image64_conventional.
Proof. vm_compute; reflexivity. Qed.

(** ** Further properties of the code *)

(** *** Byte order *)

Lemma of_le_bytes_le_bytes (n : nat) (v : Z) :
  0 <= v < 256 ^ Z.of_nat n → of_le_bytes (le_bytes n v) = v.
Proof.
  revert v. induction n as [|n IH]; intros v Hv.
  - simpl in *. lia.
  - cbn [le_bytes of_le_bytes]. rewrite byte_val_of_Z.
    rewrite Nat2Z.inj_succ, Z.pow_succ_r in Hv by lia.
    rewrite IH.
    + pose proof (Z.div_mod v 256). lia.
    + split; [apply Z.div_pos; lia|].
      apply Z.div_lt_upper_bound; lia.
Qed.

Lemma in_range_256 (w : width) (v : Z) :
  in_range w v ↔ 0 <= v < 256 ^ Z.of_nat (sizeof w).
Proof.
  unfold in_range, bits. change 256 with (2 ^ 8).
  rewrite <- Z.pow_mul_r by lia. done.
Qed.

Lemma byte_reversed_involutive (w : width) (v : Z) :
  in_range w v → byte_reversed w (byte_reversed w v) = v.
Proof.
  intros Hv. unfold byte_reversed.
  rewrite <- (length_le_bytes (sizeof w) v) at 1.
  rewrite <- (length_rev (le_bytes (sizeof w) v)).
  rewrite le_bytes_of_le_bytes, rev_involutive.
  apply of_le_bytes_le_bytes. by apply in_range_256.
Qed.

Lemma byteswap_twice (w : width) (v : Z) :
  in_range w v → in_range w (byteswap w v) ∧ byteswap w (byteswap w v) = v.
Proof.
  intros Hv. rewrite (byteswap_byte_reversed w v Hv).
  pose proof (byte_reversed_range w v) as Hr. split; [done|].
  rewrite (byteswap_byte_reversed _ _ Hr). by apply byte_reversed_involutive.
Qed.

(** X1. On a value of its type [byteswap] is an involution that stays
    inside the type, for each of the four widths; so [from_file_endian]
    applied twice with the same byte order gives the value back, and the
    one function converts in both directions. *)
Theorem byteswap_involutive (host_le file_le : bool) (w : width) (v : Z) :
  in_range w v →
  in_range w (byteswap w v)
  ∧ byteswap w (byteswap w v) = v
  ∧ from_file_endian host_le w (from_file_endian host_le w v file_le) file_le
    = v.
Proof.
  intros Hv. destruct (byteswap_twice w v Hv) as [Hr Hinv].
  split; [done|]. split; [done|].
  unfold from_file_endian. by destruct (Bool.eqb file_le host_le).
Qed.

(** X2. The decoded value of a field does not depend on the host.  The
    field is read from its raw bytes in the byte order of the host (the
    structure was made by [bit_cast]) and then passed through
    [from_file_endian]; the result is the number that the bytes spell in
    the byte order of the file. *)
Theorem decoded_field_host_independent (host_le file_le : bool) (w : width)
    (bs : list byte) :
  length bs = sizeof w →
  from_file_endian host_le w (host_int host_le bs) file_le
  = of_le_bytes (if file_le then bs else rev bs).
Proof.
  intros H. rewrite from_file_endian_host_int by done.
  unfold host_int. by destruct file_le.
Qed.

Lemma decoded_field_host_independent_witness :
  length [x12; x34; x56; x78] = sizeof W32
  ∧ from_file_endian false W32 (host_int false [x12; x34; x56; x78]) true
    = of_le_bytes [x12; x34; x56; x78].
Proof.
  split; [reflexivity|].
  exact (decoded_field_host_independent false true W32 [x12; x34; x56; x78]
           eq_refl).
Defined.

(** *** Writing and reading back *)

Lemma read_at_write_at (f : list byte) (o : nat) (d : list byte) :
  read_at (write_at f o d) (Z.of_nat o) (Z.of_nat (length d)) = Some d.
Proof.
  destruct d as [|b d]; [done|].
  apply read_at_Some; [simpl; lia|].
  rewrite length_write_at by done.
  repeat split; try (simpl; lia).
  rewrite !Nat2Z.id. unfold slice, write_at.
  rewrite app_assoc.
  rewrite drop_app_length'.
  2:{ rewrite length_app, length_take, length_replicate. lia. }
  by rewrite take_app_length.
Qed.




(** *** Which files a run may change *)

Section Frame.

Context {A B : Type} (P : string → Prop).

Lemma only_writes_ret (a : A) : only_writes P (ret a).
Proof. by intros w p _. Qed.

Lemma only_writes_throw (e : error) : only_writes P (throw (A:=A) e).
Proof. by intros w p _. Qed.

Lemma only_writes_bind (m : io A) (k : A → io B) :
  only_writes P m → (∀ a, only_writes P (k a)) → only_writes P (bind m k).
Proof.
  intros Hm Hk w p Hp. unfold bind. specialize (Hm w p Hp).
  destruct (m w) as [w1 [a|e]]; [|done].
  rewrite (Hk a w1 p Hp). done.
Qed.

Lemma only_writes_bind_post (Q : A → Prop) (m : io A) (k : A → io B) :
  only_writes P m → (∀ w w' a, m w = (w', Returned a) → Q a) →
  (∀ a, Q a → only_writes P (k a)) → only_writes P (bind m k).
Proof.
  intros Hm HQ Hk w p Hp. unfold bind. specialize (Hm w p Hp).
  destruct (m w) as [w1 [a|e]] eqn:E; [|done].
  rewrite (Hk a (HQ _ _ _ E) w1 p Hp). done.
Qed.

End Frame.

Lemma only_writes_log (P : string → Prop) (e : event) : only_writes P (log e).
Proof. by intros w p _. Qed.

Lemma only_writes_contents (P : string → Prop) (q : string) :
  only_writes P (contents q).
Proof. by intros w p _. Qed.

Lemma only_writes_store (P : string → Prop) (q : string) (f : list byte) :
  P q → only_writes P (store q f).
Proof.
  intros Hq w p Hp. cbn. rewrite lookup_insert_ne; [done|]. by intros ->.
Qed.

Lemma only_writes_for_indexed {A St} (P : string → Prop)
    (body : nat → A → St → io St) (l : list A) (i : nat) (s : St) :
  (∀ i x s, only_writes P (body i x s)) →
  only_writes P (for_indexed body i l s).
Proof.
  intros Hb. revert i s. induction l as [|x l IH]; intros i s; cbn.
  - apply only_writes_ret.
  - apply only_writes_bind; [apply Hb|]. intros s'. apply IH.
Qed.

Create HintDb frame discriminated.
#[local] Hint Resolve only_writes_ret only_writes_throw only_writes_log
  only_writes_contents only_writes_store : frame.

Ltac frame_step :=
  first
    [ solve [eauto with frame]
    | match goal with
      | |- only_writes _ (for_indexed _ _ _ _) =>
          apply only_writes_for_indexed; intros ? ? ?
      | |- only_writes _ (bind _ _) => apply only_writes_bind; [|intros ?]
      end
    | match goal with
      | |- only_writes _ (match ?x with _ => _ end) => destruct x
      | |- only_writes _ (if ?x then _ else _) => destruct x
      end ].

Lemma open_in_stream id q w w' s :
  open_in id q w = (w', Returned s) → s = Stream id q.
Proof.
  rewrite open_in_run. destruct (files w !! q); [|done]. by intros [= _ <-].
Qed.

Lemma open_out_stream id q w w' s :
  open_out id q w = (w', Returned s) → s = Stream id q.
Proof. rewrite open_out_run. by intros [= _ <-]. Qed.

Lemma only_writes_open_in P id q : only_writes P (open_in id q).
Proof. unfold open_in. repeat frame_step. Qed.

Lemma only_writes_open_out (P : string → Prop) id q :
  P q → only_writes P (open_out id q).
Proof. intros. unfold open_out. repeat frame_step. Qed.

Lemma only_writes_seek_read P s o n : only_writes P (seek_read s o n).
Proof. unfold seek_read. repeat frame_step. Qed.

Lemma only_writes_write_file_at (P : string → Prop) s o d :
  P (spath s) → only_writes P (write_file_at s o d).
Proof. intros. unfold write_file_at. repeat frame_step. Qed.

Lemma only_writes_append_to_file (P : string → Prop) s d :
  P (spath s) → only_writes P (append_to_file s d).
Proof. intros. unfold append_to_file. repeat frame_step. Qed.

#[local] Hint Resolve only_writes_open_in only_writes_open_out
  only_writes_seek_read only_writes_write_file_at
  only_writes_append_to_file : frame.

Ltac frame :=
  repeat first
    [ match goal with
      | |- only_writes _ (bind (open_out _ _) _) =>
          eapply only_writes_bind_post;
            [apply only_writes_open_out; solve [eauto]
            |apply open_out_stream|intros ? ->]
      | |- only_writes _ (bind (open_in _ _) _) =>
          eapply only_writes_bind_post;
            [apply only_writes_open_in|apply open_in_stream|intros ? ->]
      end
    | frame_step ].

Lemma only_writes_detect P s : only_writes P (detect_elf_format s).
Proof. unfold detect_elf_format. frame. Qed.

Lemma only_writes_read_program_headers P h L s ehdr le :
  only_writes P (read_program_headers h L s ehdr le).
Proof. unfold read_program_headers, read_struct_at. frame. Qed.

Lemma only_writes_write_headers (P : string → Prop) h L s ehdr phdrs le :
  P (spath s) → only_writes P (write_headers h L s ehdr phdrs le).
Proof. intros. unfold write_headers. frame. Qed.

#[local] Hint Resolve only_writes_detect only_writes_read_program_headers
  only_writes_write_headers : frame.

Section FrameTools.

Variable host_le : bool.
Variable extension : string → string.
Variable replace_extension : string → string → string.

Lemma only_writes_split_segment (P : string → Prop) L mbn mdt mdt_path le
    i ph u :
  P (spath mdt) → P (bxx_path replace_extension mdt_path i) →
  only_writes P
    (split_segment host_le replace_extension L mbn mdt mdt_path le i ph u).
Proof.
  intros. unfold split_segment, write_segment_file, read_file_at.
  destruct (get_phdr_info host_le L ph le) as [[o n] fl]. frame.
Qed.

Lemma only_writes_squash_segment (P : string → Prop) L mdt mbn mdt_path le
    i ph c :
  P (spath mbn) →
  only_writes P
    (squash_segment host_le replace_extension L mdt mbn mdt_path le i ph c).
Proof.
  intros. unfold squash_segment, read_segment_data, read_file_at.
  destruct (get_phdr_info host_le L ph le) as [[o n] fl]. frame.
Qed.

Lemma only_writes_split_impl (P : string → Prop) L mbn mdt mdt_path le :
  P (spath mdt) → (∀ i, P (bxx_path replace_extension mdt_path i)) →
  only_writes P
    (split_impl host_le replace_extension L mbn mdt mdt_path le).
Proof.
  intros. unfold split_impl, read_elf_header, read_struct_at. frame.
  by apply only_writes_split_segment.
Qed.

Lemma only_writes_squash_impl (P : string → Prop) L mdt mbn mdt_path le :
  P (spath mbn) →
  only_writes P
    (squash_impl host_le replace_extension L mdt mbn mdt_path le).
Proof.
  intros. unfold squash_impl, read_elf_header, read_struct_at. frame.
  by apply only_writes_squash_segment.
Qed.

Lemma only_writes_split (mbn_path mdt_path : string) :
  only_writes (split_output replace_extension mdt_path)
    (split host_le extension replace_extension mbn_path mdt_path).
Proof.
  assert (H1 : split_output replace_extension mdt_path mdt_path) by by left.
  assert (H2 : ∀ i, split_output replace_extension mdt_path
                      (bxx_path replace_extension mdt_path i))
    by (intros i; right; eauto).
  unfold split.
  destruct (negb _); [apply only_writes_throw|].
  frame; by apply only_writes_split_impl.
Qed.

Lemma only_writes_squash (mdt_path mbn_path : string) :
  only_writes (λ p, p = mbn_path)
    (squash host_le extension replace_extension mdt_path mbn_path).
Proof.
  unfold squash.
  destruct (negb _); [apply only_writes_throw|].
  frame; by apply only_writes_squash_impl.
Qed.

(** X5. [split] changes no file but the mdt and the siblings of the mdt
    path, whether it returns or throws; in particular the image that is
    split is left as it is when its name is none of these. *)
Theorem split_writes_only_outputs (mbn_path mdt_path : string) (w : world)
    (p : string) :
  p ≠ mdt_path → (∀ i, p ≠ bxx_path replace_extension mdt_path i) →
  files (split host_le extension replace_extension mbn_path mdt_path w).1 !! p
  = files w !! p.
Proof.
  intros H1 H2. apply only_writes_split.
  intros [->|[i ->]]; [done|]. by apply (H2 i).
Qed.

(** X6. [squash] changes no file but the image it writes, whether it
    returns or throws: the mdt and the sibling files are left as they
    are when the output does not bear one of their names. *)
Theorem squash_writes_only_output (mdt_path mbn_path : string) (w : world)
    (p : string) :
  p ≠ mbn_path →
  files (squash host_le extension replace_extension mdt_path mbn_path w).1 !! p
  = files w !! p.
Proof. intros H. by apply only_writes_squash. Qed.

End FrameTools.

(** *** Independence of the host *)

Lemma layout_fits_Elf32 : layout_fits Elf32.
Proof. unfold layout_fits; simpl; lia. Qed.

Lemma layout_fits_Elf64 : layout_fits Elf64.
Proof. unfold layout_fits; simpl; lia. Qed.

Lemma bind_ext {A B} (m1 m2 : io A) (k1 k2 : A → io B) (w : world) :
  m1 w = m2 w →
  (∀ a w', m2 w = (w', Returned a) → k1 a w' = k2 a w') →
  bind m1 k1 w = bind m2 k2 w.
Proof.
  intros Hm Hk. unfold bind. rewrite Hm.
  destruct (m2 w) as [w' [a|e]]; [by apply Hk|done].
Qed.

Lemma for_indexed_ext {A St} (body1 body2 : nat → A → St → io St)
    (l : list A) (i : nat) (s : St) (w : world) :
  (∀ i x s w, x ∈ l → body1 i x s w = body2 i x s w) →
  for_indexed body1 i l s w = for_indexed body2 i l s w.
Proof.
  revert i s w. induction l as [|x l IH]; intros i s w H; cbn; [done|].
  apply bind_ext; [apply H; left|].
  intros s' w' _. apply IH. intros. apply H. by right.
Qed.

Lemma seek_read_length (s : stream) (o n : Z) (w w' : world) (d : list byte) :
  seek_read s o n w = (w', Returned d) → length d = Z.to_nat n.
Proof.
  rewrite seek_read_run. unfold read_opt.
  destruct (files w !! spath s) as [f|]; cbn; [|done].
  destruct (read_at f o n) as [d'|] eqn:E; [|done].
  intros [= _ <-]. by eapply read_at_length.
Qed.

Section HostIndependence.

Variables h1 h2 : bool.
Variable replace_extension : string → string → string.
Variable L : elf_layout.
Hypothesis HL : layout_fits L.
Variable is_le : bool.

Lemma field_decode_host (raw : list byte) (at_ : nat) (w : width) :
  (at_ + sizeof w ≤ length raw)%nat →
  from_file_endian h1 w (field h1 raw at_ w) is_le
  = from_file_endian h2 w (field h2 raw at_ w) is_le.
Proof.
  intros H. unfold field.
  rewrite !from_file_endian_host_int; [done| |];
    rewrite length_take, length_drop; lia.
Qed.

Lemma phoff_of_host (ehdr : list byte) :
  length ehdr = ehdr_size L →
  phoff_of h1 L ehdr is_le = phoff_of h2 L ehdr is_le.
Proof.
  intros H. apply field_decode_host. destruct HL as (? & _). lia.
Qed.

Lemma phnum_of_host (ehdr : list byte) :
  length ehdr = ehdr_size L →
  phnum_of h1 L ehdr is_le = phnum_of h2 L ehdr is_le.
Proof.
  intros H. apply field_decode_host. destruct HL as (_ & ? & _). lia.
Qed.

Lemma get_phdr_info_host (phdr : list byte) :
  length phdr = phdr_size L →
  get_phdr_info h1 L phdr is_le = get_phdr_info h2 L phdr is_le.
Proof.
  intros H. destruct HL as (_ & _ & ? & ? & ?). unfold get_phdr_info.
  unfold p_offset, p_filesz, p_flags.
  rewrite (field_decode_host phdr (p_offset_at L)) by lia.
  rewrite (field_decode_host phdr (p_filesz_at L)) by lia.
  rewrite (field_decode_host phdr (p_flags_at L)) by lia. done.
Qed.

Lemma read_headers_host (file : stream) (w : world) :
  read_headers h1 L file is_le w = read_headers h2 L file is_le w.
Proof.
  unfold read_headers. apply bind_ext; [done|].
  intros ehdr w' He. apply seek_read_length in He. rewrite Nat2Z.id in He.
  unfold read_program_headers.
  by rewrite (phoff_of_host _ He), (phnum_of_host _ He).
Qed.

Lemma read_headers_sizes (h : bool) (file : stream) (w w' : world) ehdr phdrs :
  read_headers h L file is_le w = (w', Returned (ehdr, phdrs)) →
  length ehdr = ehdr_size L ∧ Forall (λ ph, length ph = phdr_size L) phdrs.
Proof.
  intros [Hp _]%read_headers_returned. cbn [fst] in Hp.
  destruct (files w !! spath file) as [f|].
  - by eapply parse_headers_sizes.
  - done.
Qed.

Lemma write_headers_host (out : stream) ehdr phdrs (w : world) :
  length ehdr = ehdr_size L →
  write_headers h1 L out ehdr phdrs is_le w
  = write_headers h2 L out ehdr phdrs is_le w.
Proof. intros H. unfold write_headers. by rewrite (phoff_of_host _ H). Qed.

Lemma split_impl_host (mbn mdt : stream) (mdt_path : string) (w : world) :
  split_impl h1 replace_extension L mbn mdt mdt_path is_le w
  = split_impl h2 replace_extension L mbn mdt mdt_path is_le w.
Proof.
  rewrite !split_impl_unfold.
  apply bind_ext; [apply read_headers_host|].
  intros [ehdr phdrs] w1 [He Hph]%read_headers_sizes. cbn [fst snd].
  apply bind_ext; [by apply write_headers_host|].
  intros [] w2 _. apply for_indexed_ext.
  intros i ph [] w3 Hin. rewrite Forall_forall in Hph.
  unfold split_segment. by rewrite (get_phdr_info_host _ (Hph _ Hin)).
Qed.

Lemma squash_impl_host (mdt mbn : stream) (mdt_path : string) (w : world) :
  squash_impl h1 replace_extension L mdt mbn mdt_path is_le w
  = squash_impl h2 replace_extension L mdt mbn mdt_path is_le w.
Proof.
  rewrite !squash_impl_unfold.
  apply bind_ext; [apply read_headers_host|].
  intros [ehdr phdrs] w1 [He Hph]%read_headers_sizes. cbn [fst snd].
  apply bind_ext; [by apply write_headers_host|].
  intros [] w2 _. rewrite Forall_forall in Hph.
  destruct (phdrs !! 0%nat) as [ph0|] eqn:E0; [|done].
  assert (H0 : length ph0 = phdr_size L)
    by (eapply Hph, list_elem_of_lookup_2, E0).
  unfold seg_filesz. rewrite (get_phdr_info_host _ H0).
  apply bind_ext; [|done].
  apply for_indexed_ext.
  intros i ph c w3 Hin.
  unfold squash_segment. by rewrite (get_phdr_info_host _ (Hph _ Hin)).
Qed.

End HostIndependence.

(** X7. The tools do the same on a little-endian and on a big-endian
    host: for every state of the file system [split] and [squash] built
    for one host end in the same state, with the same outcome and the
    same stream operations, as when built for the other. *)
Theorem tools_host_independent (h1 h2 : bool)
    (extension : string → string)
    (replace_extension : string → string → string)
    (mbn_path mdt_path : string) (w : world) :
  split h1 extension replace_extension mbn_path mdt_path w
  = split h2 extension replace_extension mbn_path mdt_path w
  ∧ squash h1 extension replace_extension mdt_path mbn_path w
    = squash h2 extension replace_extension mdt_path mbn_path w.
Proof.
  split.
  - unfold split. destruct (negb _); [done|].
    apply bind_ext; [done|]. intros mbn w1 _.
    apply bind_ext; [done|]. intros mdt w2 _.
    apply bind_ext; [done|]. intros format w3 _.
    repeat case_bool_decide; try done.
    + apply split_impl_host, layout_fits_Elf32.
    + apply split_impl_host, layout_fits_Elf64.
  - unfold squash. destruct (negb _); [done|].
    apply bind_ext; [done|]. intros mdt w1 _.
    apply bind_ext; [done|]. intros mbn w2 _.
    apply bind_ext; [done|]. intros format w3 _.
    repeat case_bool_decide; try done.
    + apply squash_impl_host, layout_fits_Elf32.
    + apply squash_impl_host, layout_fits_Elf64.
Qed.

(** *** Rejected inputs *)

Lemma detect_outcome_of_run (c : option (list byte)) :
  detect_outcome c
  = (detect_elf_format (Stream SMbn "") (World (from_option (λ f, {[ ""%string := f ]}) ∅ c) [])).2.
Proof.
  rewrite detect_elf_format_run. cbn [snd files spath].
  destruct c as [f|]; cbn [from_option].
  - by rewrite lookup_singleton_eq.
  - by rewrite lookup_empty.
Qed.

Lemma detect_outcome_short (f : list byte) :
  (length f < 16)%nat → detect_outcome (Some f) = Thrown IosFailure.
Proof.
  intros H. rewrite detect_outcome_of_run.
  eapply detect_elf_format_short; [|exact H]. apply lookup_singleton_eq.
Qed.

Lemma detect_outcome_bad (f : list byte) :
  (16 ≤ length f)%nat → bad_ident f → is_format_error (detect_outcome (Some f)).
Proof.
  intros H Hbad. rewrite detect_outcome_of_run.
  erewrite detect_elf_format_long; [|apply lookup_singleton_eq|exact H].
  unfold bad_ident, is_format_error in *.
  repeat case_bool_decide; cbn [negb andb orb];
    intuition (try discriminate; try congruence; eauto 6).
Qed.

Lemma detect_outcome_class (c : option (list byte)) (format : ElfFormat) :
  detect_outcome c = Returned format →
  is_Some (layout_of_class (elf_class format)).
Proof.
  unfold detect_outcome, classify_ident, layout_of_class.
  destruct (read_opt c 0 EI_NIDENT) as [e|]; [|done].
  repeat case_bool_decide; cbn [negb andb orb]; try done;
    intros [= <-]; cbn [elf_class]; repeat case_bool_decide; eauto; done.
Qed.

Lemma detect_outcome_nil : detect_outcome (Some []) = Thrown IosFailure.
Proof. apply detect_outcome_short. simpl. lia. Qed.

Section ErrorRuns.

Variable host_le : bool.
Variable extension : string → string.
Variable replace_extension : string → string → string.

(** X8. With a well-named mdt path, a missing input makes [split] and
    [squash] fail at the opening of the input, before the output is
    created: the error names the input and no file is created, emptied
    or changed. *)
Theorem missing_input_creates_nothing (mbn_path mdt_path : string)
    (w : world) :
  extension mdt_path = ".mdt"%string →
  (files w !! mbn_path = None →
     (split host_le extension replace_extension mbn_path mdt_path w).2
     = Thrown (OpenFailed mbn_path)
     ∧ files (split host_le extension replace_extension mbn_path mdt_path w).1
       = files w)
  ∧ (files w !! mdt_path = None →
     (squash host_le extension replace_extension mdt_path mbn_path w).2
     = Thrown (OpenFailed mdt_path)
     ∧ files (squash host_le extension replace_extension mdt_path mbn_path w).1
       = files w).
Proof.
  intros Hext. split; intros Hnone.
  - unfold split. rewrite bool_decide_eq_true_2 by done. cbn [negb].
    unfold bind. rewrite open_in_run, Hnone. done.
  - unfold squash. rewrite bool_decide_eq_true_2 by done. cbn [negb].
    unfold bind. rewrite open_in_run, Hnone. done.
Qed.



End ErrorRuns.

(** *** What split leaves behind *)

Section SplitSpec.

Variable host_le : bool.
Variable extension : string → string.
Variable replace_extension : string → string → string.

Local Abbreviation bxx := (bxx_path replace_extension).

Section Loop.

Variable L : elf_layout.
Variable is_le : bool.

Local Abbreviation filesz := (seg_filesz host_le L is_le).
Local Abbreviation offset := (seg_offset host_le L is_le).
Local Abbreviation split_body mbn mdt mdt_path :=
  (split_segment host_le replace_extension L mbn mdt mdt_path is_le).
Local Abbreviation in_bounds := (segs_in_bounds host_le L is_le).

Lemma split_loop_returns_iff (mbn mdt : stream) (mdt_path : string)
    (phdrs : list (list byte)) (i : nat) (w : world) (f : list byte) :
  files w !! spath mbn = Some f →
  spath mbn ≠ spath mdt →
  (∀ k, (k < length phdrs)%nat → bxx mdt_path (i + k) ≠ spath mbn) →
  (for_indexed (split_body mbn mdt mdt_path) i phdrs tt w).2 = Returned tt
  ↔ in_bounds f phdrs.
Proof.
  intros Hf Hne Hb. revert i w Hf Hb.
  induction phdrs as [|ph r IH]; intros i w Hf Hb;
    [|assert (Hb' : ∀ k, (k < length r)%nat →
                bxx mdt_path (S i + k) ≠ spath mbn)
        by (intros k Hk; replace (S i + k)%nat with (i + S k)%nat by lia;
            apply Hb; simpl; lia);
      assert (Hb0 : bxx mdt_path i ≠ spath mbn)
        by (rewrite <- (Nat.add_0_r i); apply Hb; simpl; lia)].
  - cbn. split; [constructor|done].
  - cbn [for_indexed]. unfold segs_in_bounds. rewrite Forall_cons.
    fold (in_bounds f r).
    destruct (Z.eq_dec (filesz ph) 0) as [Hz|Hz].
    + unfold bind. rewrite split_segment_skip by done.
      rewrite (IH (S i) w Hf Hb'). intuition.
    + pose proof (only_writes_split_segment host_le replace_extension
                    (λ p, p = spath mdt ∨ p = bxx mdt_path i)
                    L mbn mdt mdt_path is_le i ph tt
                    (or_introl eq_refl) (or_intror eq_refl) w (spath mbn))
        as Hframe.
      assert (Hn : ¬ (spath mbn = spath mdt ∨ spath mbn = bxx mdt_path i))
        by (intros [?|?]; done).
      specialize (Hframe Hn). unfold bind.
      rewrite split_segment_run in Hframe |- * by done.
      rewrite Hf in Hframe |- *.
      destruct (read_opt (Some f) (offset ph) (filesz ph)) as [seg|] eqn:Hr.
      * apply read_opt_bounds in Hr as (f' & [= <-] & ? & ? & ? & _); [|done].
        cbn zeta in *.
        destruct (seg_hash host_le L is_le ph); cbn [fst] in Hframe;
          rewrite (IH (S i) _ Hframe Hb'); intuition lia.
      * cbn [snd]. split; [done|]. intros [Hh _]. specialize (Hh Hz).
        change (read_at f (offset ph) (filesz ph) = None) in Hr.
        assert (is_Some (read_at f (offset ph) (filesz ph))) as [d Hd];
          [|congruence].
        eexists. apply read_at_Some; [done|]. intuition.
Qed.

Lemma nonempty_indices_spec (phdrs : list (list byte)) (i j : nat) :
  j ∈ nonempty_indices host_le L is_le i phdrs
  ↔ ∃ k ph, j = (i + k)%nat ∧ phdrs !! k = Some ph ∧ filesz ph ≠ 0.
Proof.
  revert i. induction phdrs as [|ph r IH]; intros i; cbn [nonempty_indices].
  - split; [by intros ?%elem_of_nil|]. by intros (k & ph & _ & ? & _).
  - assert (Hr : j ∈ nonempty_indices host_le L is_le (S i) r
                 ↔ ∃ k ph', j = (i + S k)%nat ∧ r !! k = Some ph'
                            ∧ filesz ph' ≠ 0).
    { rewrite IH. by setoid_rewrite Nat.add_succ_r. }
    destruct (Z.eq_dec (filesz ph) 0) as [Hz|Hz].
    + rewrite seg_nonempty_false by done. rewrite Hr. split.
      * intros (k & ph' & -> & Hk & Hnz). by exists (S k), ph'.
      * intros ([|k] & ph' & -> & Hk & Hnz); cbn in Hk.
        -- by injection Hk as <-.
        -- by exists k, ph'.
    + rewrite seg_nonempty_true by done. rewrite elem_of_cons, Hr. split.
      * intros [->|(k & ph' & -> & Hk & Hnz)].
        -- exists 0%nat, ph. by rewrite Nat.add_0_r.
        -- by exists (S k), ph'.
      * intros ([|k] & ph' & -> & Hk & Hnz); cbn in Hk.
        -- left. by rewrite Nat.add_0_r.
        -- right. by exists k, ph'.
Qed.

Lemma split_loop_frame_fine (mbn mdt : stream) (mdt_path : string)
    (phdrs : list (list byte)) (i : nat) (w w' : world) (p : string) :
  for_indexed (split_body mbn mdt mdt_path) i phdrs tt w = (w', Returned tt) →
  p ≠ spath mdt →
  (∀ k ph, phdrs !! k = Some ph → filesz ph ≠ 0 → p ≠ bxx mdt_path (i + k)) →
  files w' !! p = files w !! p.
Proof.
  revert i w. induction phdrs as [|ph r IH]; intros i w Hrun Hp Hk.
  - cbn in Hrun. by injection Hrun as <-.
  - cbn [for_indexed] in Hrun. apply bind_returned_inv in Hrun
      as (w1 & [] & Hstep & Hrest).
    assert (Hrec : files w' !! p = files w1 !! p).
    { apply (IH (S i) w1 Hrest Hp). intros k ph' Hlk.
      replace (S i + k)%nat with (i + S k)%nat by lia.
      by apply (Hk (S k)). }
    rewrite Hrec.
    destruct (Z.eq_dec (filesz ph) 0) as [Hz|Hz].
    + rewrite split_segment_skip in Hstep by done. by injection Hstep as <-.
    + pose proof (only_writes_split_segment host_le replace_extension
                    (λ p, p = spath mdt ∨ p = bxx mdt_path i)
                    L mbn mdt mdt_path is_le i ph tt
                    (or_introl eq_refl) (or_intror eq_refl) w p) as Hframe.
      rewrite Hstep in Hframe. apply Hframe.
      intros [?|E]; [done|]. apply (Hk 0%nat ph eq_refl Hz).
      by rewrite Nat.add_0_r.
Qed.

End Loop.

Lemma split_run_view (mbn_path mdt_path : string) (w : world) (f : list byte)
    L is_le ehdr phdrs :
  extension mdt_path = ".mdt"%string →
  files w !! mbn_path = Some f → mbn_path ≠ mdt_path →
  elf_view host_le f = Some (L, is_le, ehdr, phdrs) →
  ∃ t,
    split host_le extension replace_extension mbn_path mdt_path w
    = for_indexed
        (split_segment host_le replace_extension L (Stream SMbn mbn_path)
           (Stream SMdt mdt_path) mdt_path is_le)
        0 phdrs tt
        (World (<[mdt_path := replay (header_writes host_le L is_le ehdr phdrs) []]>
                  (files w)) t).
Proof.
  intros Hext Hf Hne Hview.
  unfold elf_view in Hview.
  destruct (detect_outcome (Some f)) as [format|] eqn:Hdet; [|done].
  destruct (layout_of_class (elf_class format)) as [L'|] eqn:HL; [|done].
  cbn [mbind option_bind] in Hview.
  destruct (parse_headers host_le L' _ (Some f)) as [[e p]|] eqn:Hparse;
    [|done].
  cbn [mbind option_bind fst snd] in Hview.
  injection Hview as -> <- -> ->.
  rewrite split_run by (done || eauto). cbn zeta.
  assert (E : <[mdt_path:=[]]> (files w) !! mbn_path = Some f)
    by (rewrite lookup_insert_ne by done; exact Hf).
  eexists. rewrite lookup_insert_ne by done.
  rewrite Hf, Hdet, HL. rewrite split_impl_unfold.
  erewrite bind_ok;
    [|apply read_headers_ok; cbn [files spath]; rewrite E; exact Hparse].
  cbn [fst snd]. erewrite bind_ok; [|apply write_headers_run].
  cbn [files trace spath sid]. rewrite lookup_insert_eq, insert_insert_eq.
  cbn [default]. reflexivity.
Qed.

Lemma split_run_no_view (mbn_path mdt_path : string) (w : world)
    (f : list byte) :
  extension mdt_path = ".mdt"%string →
  files w !! mbn_path = Some f → mbn_path ≠ mdt_path →
  elf_view host_le f = None →
  ∃ e, (split host_le extension replace_extension mbn_path mdt_path w).2
       = Thrown e.
Proof.
  intros Hext Hf Hne Hview.
  rewrite split_run by (done || eauto). cbn zeta.
  assert (E : <[mdt_path:=[]]> (files w) !! mbn_path = Some f)
    by (rewrite lookup_insert_ne by done; exact Hf).
  rewrite lookup_insert_ne by done. rewrite Hf. unfold elf_view in Hview.
  destruct (detect_outcome (Some f)) as [format|e] eqn:Hdet; [|eauto].
  destruct (detect_outcome_class _ _ Hdet) as [L HL].
  rewrite HL in *. cbn [mbind option_bind] in Hview.
  destruct (parse_headers host_le L _ (Some f)) as [[e p]|] eqn:Hparse;
    [done|].
  rewrite split_impl_unfold.
  match goal with
  | |- context [bind (read_headers _ _ ?s _) _ ?w0] =>
      destruct (read_headers_fail host_le L (is_little_endian format) s w0)
        as (w' & Hrun & _);
        [cbn [files spath]; rewrite E; exact Hparse|]
  end.
  erewrite bind_thrown; [|exact Hrun]. eauto.
Qed.

Lemma names_distinct_elim (mbn_path mdt_path : string) (n : nat) :
  NoDup (mbn_path :: mdt_path :: map (bxx mdt_path) (seq 0 n)) →
  mbn_path ≠ mdt_path
  ∧ (∀ k, (k < n)%nat →
          bxx mdt_path k ≠ mbn_path ∧ bxx mdt_path k ≠ mdt_path)
  ∧ (∀ k1 k2, (k1 < n)%nat → (k2 < n)%nat →
              bxx mdt_path k1 = bxx mdt_path k2 → k1 = k2).
Proof.
  intros [Hm Hnd]%NoDup_cons.
  destruct (paths_distinct_elim replace_extension mbn_path mdt_path mbn_path n)
    as (H1 & _ & H2 & H3); [done|].
  split; [done|]. split; [|done]. intros k Hk.
  destruct (H2 k Hk) as (? & ? & _). done.
Qed.

(** What a run of [split] that returns leaves behind. *)
Lemma split_run_result (mbn_path mdt_path : string) (w0 w1 : world)
    (f : list byte) L is_le ehdr phdrs :
  files w0 !! mbn_path = Some f →
  split host_le extension replace_extension mbn_path mdt_path w0
    = (w1, Returned tt) →
  elf_view host_le f = Some (L, is_le, ehdr, phdrs) →
  NoDup (mbn_path :: mdt_path :: map (bxx mdt_path) (seq 0 (length phdrs))) →
  segs_in_bounds host_le L is_le f phdrs
  ∧ files w1 !! mdt_path
    = Some (replay (header_writes host_le L is_le ehdr phdrs) []
            ++ hash_stream host_le L is_le f phdrs)
  ∧ (∀ k ph, phdrs !! k = Some ph → seg_filesz host_le L is_le ph ≠ 0 →
             files w1 !! bxx mdt_path k
             = Some (seg_bytes host_le L is_le f ph))
  ∧ (∀ p, p ≠ mdt_path →
          (∀ k ph, phdrs !! k = Some ph → seg_filesz host_le L is_le ph ≠ 0 →
                   p ≠ bxx mdt_path k) →
          files w1 !! p = files w0 !! p).
Proof.
  intros Hf Hsplit Hview (Hne & Hbxx & Hinj)%names_distinct_elim.
  pose proof (split_needs_mdt _ _ _ _ _ _ _ Hsplit) as Hext.
  destruct (split_run_view _ _ _ _ _ _ _ _ Hext Hf Hne Hview) as [t Hrun].
  rewrite Hrun in Hsplit. clear Hrun.
  destruct (split_loop_result host_le replace_extension L is_le
              _ _ _ _ _ _ _ f
              (replay (header_writes host_le L is_le ehdr phdrs) []) Hsplit)
    as (R1 & R2 & R3).
  { cbn [files spath]. by rewrite lookup_insert_ne. }
  { cbn [files spath]. apply lookup_insert_eq. }
  { done. }
  { intros k Hk. cbn [Nat.add spath]. by apply Hbxx. }
  { intros k1 k2 H1 H2. cbn [Nat.add]. by apply Hinj. }
  split; [done|]. split; [done|]. split; [done|].
  intros p Hp Hk.
  rewrite (split_loop_frame_fine _ _ _ _ _ _ _ _ _ p Hsplit); [|done|done].
  cbn [files]. by rewrite lookup_insert_ne.
Qed.

(** X11. What a run of [split] that returns leaves behind, the names
    involved being pairwise different.  The mdt is the image of the
    header writes (the header at offset 0, the program headers at their
    places) followed by the non-empty hash segments in index order; the
    sibling file of every non-empty segment holds the [p_filesz] bytes
    that the image has at [p_offset]; every other file, the image that
    was split among them, is as it was. *)
Theorem split_result (mbn_path mdt_path : string) (w0 w1 : world)
    (f : list byte) L is_le ehdr phdrs :
  files w0 !! mbn_path = Some f →
  split host_le extension replace_extension mbn_path mdt_path w0
    = (w1, Returned tt) →
  elf_view host_le f = Some (L, is_le, ehdr, phdrs) →
  NoDup (mbn_path :: mdt_path :: map (bxx mdt_path) (seq 0 (length phdrs))) →
  files w1 !! mdt_path
    = Some (replay (header_writes host_le L is_le ehdr phdrs) []
            ++ hash_stream host_le L is_le f phdrs)
  ∧ (∀ k ph, phdrs !! k = Some ph → seg_filesz host_le L is_le ph ≠ 0 →
             files w1 !! bxx mdt_path k
             = Some (seg_bytes host_le L is_le f ph)
             ∧ length (seg_bytes host_le L is_le f ph)
               = Z.to_nat (seg_filesz host_le L is_le ph))
  ∧ (∀ p, p ≠ mdt_path →
          (∀ k ph, phdrs !! k = Some ph → seg_filesz host_le L is_le ph ≠ 0 →
                   p ≠ bxx mdt_path k) →
          files w1 !! p = files w0 !! p).
Proof.
  intros Hf Hsplit Hview Hnd.
  destruct (split_run_result _ _ _ _ _ _ _ _ _ Hf Hsplit Hview Hnd)
    as (Hb & Hm & Hs & Hfr).
  split; [done|]. split; [|done].
  intros k ph Hk Hnz. split; [by apply Hs|].
  unfold segs_in_bounds in Hb. rewrite Forall_forall in Hb.
  destruct (Hb ph (list_elem_of_lookup_2 _ _ _ Hk) Hnz) as (? & ? & ?).
  apply length_seg_bytes; lia.
Qed.


(** X13. [split] is idempotent: run again on the files that a run of
    [split] left, with the same two paths, it returns and leaves every
    file as it found it. *)
Theorem split_twice_changes_nothing (mbn_path mdt_path : string)
    (w0 w1 : world) (f : list byte) L is_le ehdr phdrs :
  files w0 !! mbn_path = Some f →
  split host_le extension replace_extension mbn_path mdt_path w0
    = (w1, Returned tt) →
  elf_view host_le f = Some (L, is_le, ehdr, phdrs) →
  NoDup (mbn_path :: mdt_path :: map (bxx mdt_path) (seq 0 (length phdrs))) →
  ∃ w2,
    split host_le extension replace_extension mbn_path mdt_path w1
      = (w2, Returned tt)
    ∧ files w2 = files w1.
Proof.
  intros Hf Hsplit Hview Hnd.
  destruct (split_run_result _ _ _ _ _ _ _ _ _ Hf Hsplit Hview Hnd)
    as (Hb & Hm & Hs & Hfr).
  pose proof Hnd as (Hne & Hbxx & Hinj)%names_distinct_elim.
  pose proof (split_needs_mdt _ _ _ _ _ _ _ Hsplit) as Hext.
  assert (Hf1 : files w1 !! mbn_path = Some f).
  { rewrite Hfr; [done|done|]. intros k ph Hk _ E.
    apply lookup_lt_Some in Hk. destruct (Hbxx k Hk) as [? _]. done. }
  destruct (split_run_view _ _ _ _ _ _ _ _ Hext Hf1 Hne Hview) as [t Hrun].
  destruct (split host_le extension replace_extension mbn_path mdt_path w1)
    as [w2 o] eqn:Hsplit2.
  assert (o = Returned tt) as ->.
  { change o with (w2, o).2. rewrite Hrun.
    apply (split_loop_returns_iff L is_le _ _ _ _ _ _ f); try done.
    - cbn [files spath]. by rewrite lookup_insert_ne.
    - intros k Hk. cbn [Nat.add spath]. by apply Hbxx. }
  exists w2. split; [done|].
  destruct (split_run_result _ _ _ _ _ _ _ _ _ Hf1 Hsplit2 Hview Hnd)
    as (_ & Hm2 & Hs2 & Hfr2).
  apply map_eq. intros p.
  destruct (decide (p = mdt_path)) as [->|Hp]; [by rewrite Hm, Hm2|].
  destruct (decide (p ∈ map (bxx mdt_path)
                          (nonempty_indices host_le L is_le 0 phdrs)))
    as [Hin|Hout].
  - apply (list_elem_of_fmap_1 (bxx mdt_path)) in Hin as (j & -> & Hj).
    apply nonempty_indices_spec in Hj as (k & ph & -> & Hk & Hnz).
    cbn [Nat.add]. by rewrite (Hs k ph), (Hs2 k ph).
  - apply Hfr2; [done|]. intros k ph Hk Hnz ->. apply Hout.
    apply (list_elem_of_fmap_2 (bxx mdt_path)).
    apply nonempty_indices_spec. exists k, ph. done.
Qed.

End SplitSpec.

(** *** The table and the segments of squash *)

Section Table.

Variable host_le : bool.
Variable L : elf_layout.
Variable is_le : bool.

(** X14. [read_program_headers] leaves the files as they are.  When
    every one of the [e_phnum] entries lies inside the file it returns
    that many records, record [i] being the [sizeof(ElfPhdr)] bytes at
    [e_phoff + i * sizeof(ElfPhdr)] (in [size_t]); when one entry does
    not, it fails with the stream failure.  With [e_phnum] zero both
    conditions are void and the table is empty. *)
Theorem read_program_headers_table (file : stream) (ehdr : list byte)
    (w : world) (f : list byte) :
  files w !! spath file = Some f →
  files (read_program_headers host_le L file ehdr is_le w).1 = files w
  ∧ ((∀ i, (i < Z.to_nat (phnum_of host_le L ehdr is_le))%nat →
           is_Some (read_at f (phdr_pos L (phoff_of host_le L ehdr is_le) i)
                      (Z.of_nat (phdr_size L)))) →
     ∃ phdrs,
       (read_program_headers host_le L file ehdr is_le w).2 = Returned phdrs
       ∧ length phdrs = Z.to_nat (phnum_of host_le L ehdr is_le)
       ∧ ∀ i ph, phdrs !! i = Some ph →
           length ph = phdr_size L
           ∧ read_at f (phdr_pos L (phoff_of host_le L ehdr is_le) i)
               (Z.of_nat (phdr_size L)) = Some ph)
  ∧ ((∃ i, (i < Z.to_nat (phnum_of host_le L ehdr is_le))%nat
           ∧ read_at f (phdr_pos L (phoff_of host_le L ehdr is_le) i)
               (Z.of_nat (phdr_size L)) = None) →
     (read_program_headers host_le L file ehdr is_le w).2
     = Thrown IosFailure).
Proof.
  intros Hf. unfold read_program_headers.
  set (po := phoff_of host_le L ehdr is_le).
  set (n := Z.to_nat (phnum_of host_le L ehdr is_le)).
  destruct (mapM (λ j, read_opt (files w !! spath file) (phdr_pos L po j)
                         (Z.of_nat (phdr_size L))) (seq 0 n))
    as [phs|] eqn:E.
  - rewrite (read_phdr_loop_ok L file po n 0 [] phs w E). cbn [fst snd files].
    split; [done|].
    pose proof (length_mapM _ _ _ E) as Hlen. rewrite length_seq in Hlen.
    apply mapM_Some in E. rewrite Hf in E. cbn in E.
    split.
    + intros _. exists phs. split; [done|]. split; [done|].
      intros i ph Hi.
      destruct (Forall2_lookup_r _ _ _ _ _ E Hi) as (j & Hj & Hr).
      apply lookup_seq in Hj as [-> _]. cbn in Hr. split; [|done].
      apply read_at_length in Hr. lia.
    + intros (i & Hi & Hnone). exfalso.
      destruct (lookup_lt_is_Some_2 phs i) as [ph Hph]; [lia|].
      destruct (Forall2_lookup_r _ _ _ _ _ E Hph) as (j & Hj & Hr).
      apply lookup_seq in Hj as [-> _]. cbn in Hr. congruence.
  - destruct (read_phdr_loop_fail L file po n 0 [] w E) as (w' & -> & Hw').
    cbn [fst snd]. split; [done|]. split; [|done].
    intros Hall. exfalso. apply mapM_None in E.
    apply Exists_exists in E as (i & Hi & Hnone).
    apply elem_of_seq in Hi. rewrite Hf in Hnone. cbn in Hnone.
    destruct (Hall i) as [? ?]; [lia|congruence].
Qed.

End Table.

Section SquashSibling.

Variable host_le : bool.
Variable extension : string → string.
Variable replace_extension : string → string → string.

Local Abbreviation bxx := (bxx_path replace_extension).

Lemma squash_run_view (mdt_path out_path : string) (w : world) (m : list byte)
    L is_le ehdr phdrs ph0 :
  extension mdt_path = ".mdt"%string →
  files w !! mdt_path = Some m → out_path ≠ mdt_path →
  elf_view host_le m = Some (L, is_le, ehdr, phdrs) →
  phdrs !! 0%nat = Some ph0 →
  ∃ t,
    squash host_le extension replace_extension mdt_path out_path w
    = (for_indexed
         (squash_segment host_le replace_extension L (Stream SMdt mdt_path)
            (Stream SMbn out_path) mdt_path is_le)
         0 phdrs (seg_filesz host_le L is_le ph0) ;; ret tt)
        (World (<[out_path := replay (header_writes host_le L is_le ehdr phdrs) []]>
                  (files w)) t).
Proof.
  intros Hext Hf Hne Hview H0.
  unfold elf_view in Hview.
  destruct (detect_outcome (Some m)) as [format|] eqn:Hdet; [|done].
  destruct (layout_of_class (elf_class format)) as [L'|] eqn:HL; [|done].
  cbn [mbind option_bind] in Hview.
  destruct (parse_headers host_le L' _ (Some m)) as [[e p]|] eqn:Hparse;
    [|done].
  cbn [mbind option_bind fst snd] in Hview.
  injection Hview as -> <- -> ->.
  rewrite squash_run by (done || eauto). cbn zeta.
  assert (E : <[out_path:=[]]> (files w) !! mdt_path = Some m)
    by (rewrite lookup_insert_ne by done; exact Hf).
  eexists. rewrite lookup_insert_ne by done.
  rewrite Hf, Hdet, HL. rewrite squash_impl_unfold.
  erewrite bind_ok;
    [|apply read_headers_ok; cbn [files spath]; rewrite E; exact Hparse].
  cbn [fst snd]. erewrite bind_ok; [|apply write_headers_run].
  rewrite H0.
  cbn [files trace spath sid]. rewrite lookup_insert_eq, insert_insert_eq.
  cbn [default]. reflexivity.
Qed.

Lemma squash_loop_cursor (L : elf_layout) (is_le : bool) (mdt mbn : stream)
    (mdt_path : string) (phdrs : list (list byte)) (i : nat) (c c' : Z)
    (w w' : world) :
  for_indexed
    (squash_segment host_le replace_extension L mdt mbn mdt_path is_le)
    i phdrs c w = (w', Returned c') →
  c' = fold_left size_add (hash_sizes host_le L is_le phdrs) c.
Proof.
  revert i c w. induction phdrs as [|ph r IH]; intros i c w Hrun.
  - cbn in Hrun. by injection Hrun as _ <-.
  - cbn [for_indexed] in Hrun. apply bind_returned_inv in Hrun
      as (w1 & c1 & Hstep & Hrest).
    rewrite hash_sizes_cons. apply IH in Hrest. subst c'.
    destruct (Z.eq_dec (seg_filesz host_le L is_le ph) 0) as [Hz|Hz].
    + rewrite squash_segment_skip in Hstep by done. injection Hstep as _ <-.
      by rewrite seg_nonempty_false.
    + rewrite squash_segment_run in Hstep by done.
      rewrite seg_nonempty_true by done. cbn [andb].
      destruct (seg_hash host_le L is_le ph).
      * destruct (read_opt _ c _); [|done]. by injection Hstep as _ <-.
      * destruct (files w !! _); [|done].
        destruct (read_at _ 0 _); [|done]. by injection Hstep as _ <-.
Qed.

(** The run of [squash] at the iteration for program header [k]. *)
Lemma squash_run_at (mdt_path out_path : string) (w w' : world)
    (m : list byte) L is_le ehdr phdrs (k : nat) (ph : list byte) :
  files w !! mdt_path = Some m →
  squash host_le extension replace_extension mdt_path out_path w
    = (w', Returned tt) →
  elf_view host_le m = Some (L, is_le, ehdr, phdrs) →
  out_path ≠ mdt_path →
  phdrs !! k = Some ph →
  ∃ wa wb cb oa o',
    (∀ p, p ≠ out_path → files wa !! p = files w !! p)
    ∧ files wa !! out_path = Some oa
    ∧ squash_segment host_le replace_extension L (Stream SMdt mdt_path)
        (Stream SMbn out_path) mdt_path is_le k ph
        (hash_cursor host_le L is_le phdrs k) wa
      = (wb, Returned cb)
    ∧ files w' !! out_path = Some o'
    ∧ ∀ ob, files wb !! out_path = Some ob →
        ∀ j, (j < length ob)%nat →
             ¬ segment_region host_le L is_le (drop (S k) phdrs) j →
             o' !! j = ob !! j.
Proof.
  intros Hf Hrun Hview Hne Hk.
  assert (Hext : extension mdt_path = ".mdt"%string).
  { revert Hrun. unfold squash. case_bool_decide; [done|discriminate]. }
  destruct (phdrs !! 0%nat) as [ph0|] eqn:H0.
  2:{ apply lookup_ge_None in H0. apply lookup_lt_Some in Hk. lia. }
  destruct (squash_run_view _ _ _ _ _ _ _ _ _ Hext Hf Hne Hview H0)
    as [t Hrun'].
  rewrite Hrun' in Hrun. clear Hrun'.
  match type of Hrun with
  | _ ?w0 = _ =>
      set (w2 := w0) in Hrun;
      assert (Hw2 : ∀ p, p ≠ out_path → files w2 !! p = files w !! p)
        by (intros p Hp; cbn [w2 files]; by rewrite lookup_insert_ne);
      assert (Hw2o : is_Some (files w2 !! out_path))
        by (cbn [w2 files]; rewrite lookup_insert_eq; eauto);
      clearbody w2
  end.
  apply bind_returned_inv in Hrun as (w3 & c3 & Hloop & Hret).
  injection Hret as <-.
  unfold hash_cursor. rewrite H0. cbn [default].
  rewrite <- (take_drop_middle _ _ _ Hk) in Hloop.
  rewrite for_indexed_app in Hloop.
  apply bind_returned_inv in Hloop as (wa & ca & Hpre & Hloop).
  cbn [for_indexed] in Hloop.
  apply bind_returned_inv in Hloop as (wb & cb & Hstep & Hpost).
  assert (Hlen : length (take k phdrs) = k).
  { rewrite length_take. apply lookup_lt_Some in Hk. lia. }
  rewrite Hlen in Hstep, Hpost. cbn [Nat.add] in Hstep, Hpost.
  assert (Hfr : only_writes (λ p, p = out_path)
            (for_indexed
               (squash_segment host_le replace_extension L
                  (Stream SMdt mdt_path) (Stream SMbn out_path) mdt_path is_le)
               0 (take k phdrs) (seg_filesz host_le L is_le ph0))).
  { apply only_writes_for_indexed. intros.
    by apply only_writes_squash_segment. }
  assert (Hwa : ∀ p, p ≠ out_path → files wa !! p = files w !! p).
  { intros p Hp. specialize (Hfr w2 p). rewrite Hpre in Hfr.
    cbn [fst] in Hfr. rewrite Hfr by done. by apply Hw2. }
  destruct Hw2o as [o2 Ho2].
  destruct (squash_loop_outside host_le replace_extension L is_le
              _ _ _ _ _ _ _ _ _ o2 Hpre Ho2) as (oa & Hoa & _).
  cbn [spath] in Hoa.
  pose proof (squash_loop_cursor _ _ _ _ _ _ _ _ _ _ _ Hpre) as Hca.
  subst ca.
  assert (Hob : is_Some (files wb !! out_path)).
  { destruct (Z.eq_dec (seg_filesz host_le L is_le ph) 0) as [Hz|Hz].
    - rewrite squash_segment_skip in Hstep by done.
      injection Hstep as <- _. eauto.
    - rewrite squash_segment_run in Hstep by done. cbn [spath] in Hstep.
      destruct (seg_hash host_le L is_le ph).
      + destruct (read_opt _ _ _); [|done]. injection Hstep as <- _.
        cbn [files]. rewrite lookup_insert_eq. eauto.
      + destruct (files wa !! bxx mdt_path k); [|done].
        destruct (read_at _ 0 _); [|done]. injection Hstep as <- _.
        cbn [files]. rewrite lookup_insert_eq. eauto. }
  destruct Hob as [ob Hob].
  destruct (squash_loop_outside host_le replace_extension L is_le
              _ _ _ _ _ _ _ _ _ ob Hpost Hob) as (o' & Ho' & _ & Hout).
  cbn [spath] in Ho'.
  exists wa, wb, cb, oa, o'. repeat split; try done.
  intros ob' Hob'. rewrite Hob in Hob'. injection Hob' as <-. exact Hout.
Qed.

(** X15. In a run of [squash] that returns, the sibling file of a
    non-empty segment that is not hash-classified exists and holds at
    least [p_filesz] bytes; these are in the output at [p_offset],
    wherever no later non-empty segment lies over them.  Bytes of the
    sibling file behind the first [p_filesz] are not used. *)
Theorem squash_places_sibling (mdt_path out_path : string) (w w' : world)
    (m : list byte) L is_le ehdr phdrs (k : nat) (ph : list byte) :
  files w !! mdt_path = Some m →
  squash host_le extension replace_extension mdt_path out_path w
    = (w', Returned tt) →
  elf_view host_le m = Some (L, is_le, ehdr, phdrs) →
  out_path ≠ mdt_path → out_path ≠ bxx mdt_path k →
  phdrs !! k = Some ph →
  seg_filesz host_le L is_le ph ≠ 0 →
  seg_hash host_le L is_le ph = false →
  ∃ b o,
    files w !! bxx mdt_path k = Some b
    ∧ (Z.to_nat (seg_filesz host_le L is_le ph) ≤ length b)%nat
    ∧ files w' !! out_path = Some o
    ∧ ∀ j, in_region (Z.to_nat (seg_offset host_le L is_le ph))
             (Z.to_nat (seg_filesz host_le L is_le ph)) j →
           ¬ segment_region host_le L is_le (drop (S k) phdrs) j →
           o !! j = b !! (j - Z.to_nat (seg_offset host_le L is_le ph))%nat.
Proof.
  intros Hf Hrun Hview Hne Hnb Hk Hnz Hh.
  destruct (squash_run_at _ _ _ _ _ _ _ _ _ _ _ Hf Hrun Hview Hne Hk)
    as (wa & wb & cb & oa & o' & Hwa & Hoa & Hstep & Ho' & Hout).
  rewrite squash_segment_run in Hstep by done. cbn [spath] in Hstep.
  rewrite Hh, (Hwa (bxx mdt_path k)), Hoa in Hstep by congruence.
  destruct (files w !! bxx mdt_path k) as [b|]; [|done].
  destruct (read_at b 0 (seg_filesz host_le L is_le ph)) as [seg|] eqn:Hread;
    [|done].
  injection Hstep as <- <-. cbn [default files] in Hout.
  pose proof (read_at_length _ _ _ _ Hread) as Hseglen.
  apply read_at_Some in Hread as (_ & Hpos & Hb & Hseg); [|done].
  assert (Hsegne : seg ≠ []).
  { intros ->. simpl in Hseglen. lia. }
  exists b, o'. split; [done|]. split; [lia|]. split; [done|].
  intros j Hj Hnot. unfold in_region in Hj.
  rewrite (Hout _ (lookup_insert_eq _ _ _)); [| |done].
  2:{ rewrite length_write_at by done. lia. }
  rewrite lookup_write_at by done.
  rewrite decide_True by lia.
  rewrite Hseg. rewrite lookup_slice by lia. done.
Qed.

(** X16. In a run of [squash] that returns, a non-empty hash segment is
    taken from the mdt at [hash_cursor]: the decoded [p_filesz] of
    program header 0 plus the sizes of the non-empty hash segments
    before it.  That range lies inside the mdt, and its bytes are in the
    output at [p_offset], wherever no later non-empty segment lies over
    them. *)
Theorem squash_places_hash_segment (mdt_path out_path : string)
    (w w' : world) (m : list byte) L is_le ehdr phdrs (k : nat)
    (ph : list byte) :
  files w !! mdt_path = Some m →
  squash host_le extension replace_extension mdt_path out_path w
    = (w', Returned tt) →
  elf_view host_le m = Some (L, is_le, ehdr, phdrs) →
  out_path ≠ mdt_path →
  phdrs !! k = Some ph →
  seg_filesz host_le L is_le ph ≠ 0 →
  seg_hash host_le L is_le ph = true →
  ∃ o,
    0 <= hash_cursor host_le L is_le phdrs k
    ∧ hash_cursor host_le L is_le phdrs k + seg_filesz host_le L is_le ph
      <= Z.of_nat (length m)
    ∧ files w' !! out_path = Some o
    ∧ ∀ j, in_region (Z.to_nat (seg_offset host_le L is_le ph))
             (Z.to_nat (seg_filesz host_le L is_le ph)) j →
           ¬ segment_region host_le L is_le (drop (S k) phdrs) j →
           o !! j = m !! (Z.to_nat (hash_cursor host_le L is_le phdrs k)
                          + (j - Z.to_nat (seg_offset host_le L is_le ph)))%nat.
Proof.
  intros Hf Hrun Hview Hne Hk Hnz Hh.
  destruct (squash_run_at _ _ _ _ _ _ _ _ _ _ _ Hf Hrun Hview Hne Hk)
    as (wa & wb & cb & oa & o' & Hwa & Hoa & Hstep & Ho' & Hout).
  rewrite squash_segment_run in Hstep by done. cbn [spath] in Hstep.
  rewrite Hh, (Hwa mdt_path), Hf, Hoa in Hstep by congruence.
  destruct (read_opt (Some m) _ _) as [seg|] eqn:Hread; [|done].
  injection Hstep as <- <-. cbn [default files] in Hout.
  apply read_opt_bounds in Hread as (m' & [= <-] & Hc0 & Hpos & Hb & Hseg);
    [|done].
  assert (Hseglen : length seg = Z.to_nat (seg_filesz host_le L is_le ph)).
  { rewrite Hseg. unfold slice. rewrite length_take, length_drop. lia. }
  assert (Hsegne : seg ≠ []).
  { intros E. rewrite E in Hseglen. simpl in Hseglen. lia. }
  exists o'. split; [done|]. split; [done|]. split; [done|].
  intros j Hj Hnot. unfold in_region in Hj.
  rewrite (Hout _ (lookup_insert_eq _ _ _)); [| |done].
  2:{ rewrite length_write_at by done. lia. }
  rewrite lookup_write_at by done.
  rewrite decide_True by lia.
  rewrite Hseg. rewrite lookup_slice by lia. done.
Qed.

End SquashSibling.

(** *** Sibling names *)

Lemma pretty_N_go_length (x : N) (s : string) :
  (String.length s ≤ String.length (pretty_N_go x s))%nat
  ∧ ((0 < x)%N → (String.length s < String.length (pretty_N_go x s))%nat).
Proof.
  revert s. induction (N.lt_wf_0 x) as [x _ IH]; intros s.
  destruct (decide (x = 0)%N) as [->|Hx].
  - rewrite pretty_N_go_0. split; [done|lia].
  - rewrite pretty_N_go_step by lia.
    destruct (IH (x `div` 10)%N) with (s := String (pretty_N_char (x `mod` 10)) s)
      as [Hle _]; [apply N.div_lt; lia|].
    cbn [String.length] in Hle. split; [lia|]. intros _. lia.
Qed.

Lemma pretty_nat_two_digits (j : nat) (c : ascii) :
  (10 ≤ j)%nat → pretty j ≠ String "0" (String c "").
Proof.
  intros Hj. unfold pretty, pretty_nat, pretty, pretty_N.
  rewrite decide_False by lia.
  rewrite pretty_N_go_step by lia.
  set (d := pretty_N_char (N.of_nat j `mod` 10)).
  set (q := (N.of_nat j `div` 10)%N).
  assert (Hq : (1 ≤ q)%N).
  { subst q. apply N.div_le_lower_bound; lia. }
  rewrite pretty_N_go_step by lia.
  set (d' := pretty_N_char (q `mod` 10)).
  destruct (decide (q `div` 10 = 0)%N) as [E|E].
  - rewrite E, pretty_N_go_0. intros [= Hd' _].
    assert (Hq10 : (q < 10)%N).
    { destruct (N.lt_ge_cases q 10) as [|Hge]; [done|].
      assert (1 ≤ q `div` 10)%N by (apply N.div_le_lower_bound; lia). lia. }
    subst d'. rewrite N.mod_small in Hd' by done.
    assert (q = 1 ∨ q = 2 ∨ q = 3 ∨ q = 4 ∨ q = 5 ∨ q = 6 ∨ q = 7 ∨ q = 8
            ∨ q = 9)%N as Hc by lia.
    destruct Hc as [->|[->|[->|[->|[->|[->|[->|[->| ->]]]]]]]]; discriminate.
  - intros Heq. apply (f_equal String.length) in Heq.
    destruct (pretty_N_go_length (q `div` 10)%N (String d' (String d "")))
      as [_ Hlt].
    apply N.neq_0_lt_0 in E. specialize (Hlt E).
    rewrite Heq in Hlt. cbn [String.length] in Hlt. lia.
Qed.

Lemma pretty_nat_digit (i : nat) :
  (i < 10)%nat → ∃ c, pretty i = String c "".
Proof.
  intros Hi.
  do 10 (destruct i as [|i]; [eexists; reflexivity|]). lia.
Qed.

Lemma bxx_extension_inj (i j : nat) :
  bxx_extension i = bxx_extension j → i = j.
Proof.
  unfold bxx_extension.
  destruct (Nat.ltb_spec i 10), (Nat.ltb_spec j 10); cbn [String.app].
  - intros [= E]. by apply (inj pretty).
  - destruct (pretty_nat_digit i) as [c Hc]; [done|]. rewrite Hc.
    intros [= E]. by destruct (pretty_nat_two_digits j c).
  - destruct (pretty_nat_digit j) as [c Hc]; [done|]. rewrite Hc.
    intros [= E]. by destruct (pretty_nat_two_digits i c).
  - intros [= E]. by apply (inj pretty).
Qed.

Lemma bxx_extension_dot (i : nat) : ∃ s, bxx_extension i = String "." s.
Proof. unfold bxx_extension. destruct (_ <? _)%nat; eexists; reflexivity. Qed.

(** X17. Two different segment indices never give the same sibling
    name: [std::format(".b{:02d}", i)] is injective (the indices below
    ten get a leading zero, no longer index starts with one), and so is
    the sibling path under the POSIX reading of [replace_extension]. *)
Theorem sibling_names_distinct (mdt_path : string) (i j : nat) :
  i ≠ j →
  bxx_extension i ≠ bxx_extension j
  ∧ bxx_path posix_replace_extension mdt_path i
    ≠ bxx_path posix_replace_extension mdt_path j.
Proof.
  intros Hij. split; [by intros ?%bxx_extension_inj|].
  unfold bxx_path, posix_replace_extension.
  destruct (path_parts mdt_path) as [[dir stem] ext].
  destruct (bxx_extension_dot i) as [si Hi], (bxx_extension_dot j) as [sj Hj].
  rewrite Hi, Hj. cbn [Ascii.eqb Bool.eqb].
  intros E. apply (inj (String.app _)) in E. cbn [String.app] in E.
  apply Hij, bxx_extension_inj. by rewrite Hi, Hj.
Qed.

Lemma sibling_names_distinct_witness :
  0%nat ≠ 1%nat
  ∧ bxx_extension 0 ≠ bxx_extension 1
  ∧ bxx_path posix_replace_extension "fw.mdt" 0
    ≠ bxx_path posix_replace_extension "fw.mdt" 1.
Proof.
  assert (H : 0%nat ≠ 1%nat) by lia.
  split; [exact H|]. exact (sibling_names_distinct "fw.mdt" 0 1 H).
Defined.

(** *** The common writing helper *)

Lemma for_indexed_replicate {A St} (body1 : nat → unit → St → io St)
    (body2 : nat → A → St → io St) (l : list A) (i : nat) (s : St)
    (w : world) :
  (∀ k x s w, l !! k = Some x →
              body1 (i + k)%nat tt s w = body2 (i + k)%nat x s w) →
  for_indexed body1 i (replicate (length l) tt) s w
  = for_indexed body2 i l s w.
Proof.
  revert i s w. induction l as [|x l IH]; intros i s w H; cbn; [done|].
  apply bind_ext.
  - specialize (H 0%nat x s w eq_refl). by rewrite Nat.add_0_r in H.
  - intros s' w' _. apply IH. intros k y s0 w0 Hk.
    replace (S i + k)%nat with (i + S k)%nat by lia. by apply H.
Qed.

Lemma length_concat_uniform (n : nat) (l : list (list byte)) :
  Forall (λ x, length x = n) l → length (concat l) = (length l * n)%nat.
Proof.
  induction 1 as [|x l Hx _ IH]; cbn; [done|].
  rewrite length_app, IH, Hx. lia.
Qed.

Lemma slice_concat_uniform (n : nat) (l : list (list byte)) (k : nat)
    (x : list byte) :
  Forall (λ x, length x = n) l → l !! k = Some x →
  take n (drop (k * n) (concat l)) = x.
Proof.
  intros H. revert k. induction H as [|y l Hy _ IH]; intros k Hk; [done|].
  destruct k as [|k]; cbn [concat lookup list_lookup] in *.
  - injection Hk as ->. rewrite Nat.mul_0_l, drop_0, <- Hy.
    apply take_app_length.
  - replace (S k * n)%nat with (length y + k * n)%nat by lia.
    rewrite <- drop_drop, drop_app_length. by apply IH.
Qed.

Section HeaderHelper.

Variable host_le : bool.
Variable L : elf_layout.
Variable is_le : bool.

(** X18. The helper [write_elf_header_and_phdrs], given the program
    headers as one span, does what the loops in [split_impl] and
    [squash_impl] do with the vector: for records of [phdr_size] bytes
    each it makes the same writes in the same order.  Bytes of the span
    behind the last whole record are not written. *)
Theorem write_elf_header_and_phdrs_inline (out : stream) (ehdr : list byte)
    (phdrs : list (list byte)) (rest : list byte) (w : world) :
  Forall (λ ph, length ph = phdr_size L) phdrs →
  (length rest < phdr_size L)%nat →
  Z.of_nat (length (concat phdrs ++ rest)) < 2 ^ 64 →
  ∃ m,
    write_elf_header_and_phdrs out ehdr (phoff_of host_le L ehdr is_le)
      (concat phdrs ++ rest) (Z.of_nat (phdr_size L)) = Some m
    ∧ m w = write_headers host_le L out ehdr phdrs is_le w.
Proof.
  intros Hall Hrest Hlt. unfold write_elf_header_and_phdrs.
  destruct (Z.eqb_spec (Z.of_nat (phdr_size L)) 0) as [?|_]; [lia|].
  eexists. split; [reflexivity|].
  unfold write_headers. apply bind_ext; [done|]. intros [] w1 _.
  pose proof (length_concat_uniform _ _ Hall) as Hlen.
  rewrite length_app, Hlen in *.
  replace (Z.to_nat (Z.of_nat (length phdrs * phdr_size L + length rest)
                     / Z.of_nat (phdr_size L)))
    with (length phdrs).
  2:{ rewrite Nat2Z.inj_add, Nat2Z.inj_mul, Z.div_add_l by lia.
      rewrite Z.div_small by lia. lia. }
  apply for_indexed_replicate. intros k ph [] w2 Hk. cbn [Nat.add].
  assert (Hkn : (k < length phdrs)%nat) by (eapply lookup_lt_Some, Hk).
  assert (E : size_mul (Z.of_nat k) (Z.of_nat (phdr_size L))
              = Z.of_nat (k * phdr_size L)).
  { unfold size_mul. rewrite wrap_small; [lia|].
    unfold in_range, bits; simpl. nia. }
  unfold phdr_pos, subspan. rewrite E, !Nat2Z.id.
  rewrite drop_app_le by (rewrite Hlen; nia).
  rewrite take_app_le by (rewrite length_drop, Hlen; nia).
  by rewrite (slice_concat_uniform _ _ _ _ Hall Hk).
Qed.

End HeaderHelper.

(** *** The command lines *)

Lemma handlers_success (r : world * outcome unit) (w : world) :
  handlers r = (w, Some (Exit 0 None)) ↔ r = (w, Returned tt).
Proof.
  destruct r as [w' [[]|e]]; cbn.
  - split; by intros [= ->].
  - destruct e; split; intros [=].
Qed.

Section MainProps.

Variable host_le : bool.
Variable extension : string → string.
Variable replace_extension : string → string → string.

Local Abbreviation bxx := (bxx_path replace_extension).

Lemma split_then_squash_run (mbn_path mdt_path out_path : string)
    (w0 w1 : world) (f : list byte) (L : elf_layout) (is_le : bool)
    (ehdr : list byte) (phdrs : list (list byte)) (phdr0 mdt1 : list byte) :
  files w0 !! mbn_path = Some f →
  split host_le extension replace_extension mbn_path mdt_path w0
    = (w1, Returned tt) →
  elf_view host_le f = Some (L, is_le, ehdr, phdrs) →
  paths_distinct replace_extension mbn_path mdt_path out_path (length phdrs) →
  phdrs !! 0%nat = Some phdr0 →
  (hash_sizes host_le L is_le phdrs = []
   ∨ seg_filesz host_le L is_le phdr0
     = Z.of_nat (length (replay (header_writes host_le L is_le ehdr phdrs) []))) →
  files w1 !! mdt_path = Some mdt1 →
  Z.of_nat (length mdt1) < 2 ^ 64 →
  Forall (covered (header_writes host_le L is_le ehdr phdrs
                   ++ seg_writes host_le L is_le f phdrs))
    (seq 0 (length f)) →
  ∃ w2,
    squash host_le extension replace_extension mdt_path out_path w1
      = (w2, Returned tt)
    ∧ files w2 !! out_path = Some f.
Proof.
  intros Hf Hsplit Hview Hpaths H0 Hconv Hmdt1 Hlt Hcov.
  pose proof (split_needs_mdt _ _ _ _ _ _ _ Hsplit) as Hext.
  apply paths_distinct_elim in Hpaths as (Hne & Hout & Hbxx & Hinj).
  unfold elf_view in Hview.
  destruct (detect_outcome (Some f)) as [format|] eqn:Hdet; [|done].
  destruct (layout_of_class (elf_class format)) as [L'|] eqn:HL; [|done].
  cbn [mbind option_bind] in Hview.
  destruct (parse_headers host_le L' _ (Some f)) as [[e p]|] eqn:Hparse;
    [|done].
  cbn [mbind option_bind fst snd] in Hview.
  injection Hview as -> <- -> ->.
  assert (Hne' : mdt_path ≠ mbn_path) by congruence.
  rewrite split_run in Hsplit by (done || eauto). cbn zeta in Hsplit.
  assert (E : <[mdt_path:=[]]> (files w0) !! mbn_path = Some f)
    by (rewrite lookup_insert_ne by done; exact Hf).
  rewrite E, Hdet, HL in Hsplit.
  set (mbn := Stream SMbn mbn_path) in *.
  set (mdt := Stream SMdt mdt_path) in *.
  set (out := Stream SMbn out_path).
  set (wa := World (<[mdt_path:=[]]> (files w0))
               (trace w0 ++ [EvOpen SMbn mbn_path; EvCreate SMdt mdt_path;
                             EvRead SMbn 0 EI_NIDENT])) in *.
  assert (Hfa : files wa !! spath mbn = Some f) by exact E.
  destruct (split_impl_mdt_image host_le replace_extension L _ mbn mdt _ _ _ f
              _ _ Hfa Hsplit Hparse)
    as (extra & Himg).
  { intros j Hj. apply nonempty_indices_lt in Hj.
    destruct (Hbxx j) as (_ & ? & _); [lia|done]. }
  cbn [files spath mdt wa] in Himg. rewrite Hmdt1 in Himg.
  rewrite lookup_insert_eq in Himg. cbn [default] in Himg.
  injection Himg as Himg.
  assert (Hm1 : matches mdt1 f
            (covered (header_writes host_le L (is_little_endian format) ehdr phdrs))).
  { rewrite Himg. apply matches_app.
    - by apply headers_image_matches.
    - intros k. apply covered_lt.
      by apply header_writes_from_source. }
  assert (Hdet1 : detect_outcome (Some mdt1) = Returned format).
  { unfold detect_outcome in *.
    destruct (read_opt (Some f) 0 EI_NIDENT) as [e|] eqn:Hr; [|done].
    assert (Hr1 : read_opt (Some mdt1) 0 EI_NIDENT = Some e);
      [|by rewrite Hr1].
    eapply read_at_transfer; [exact Hr|exact Hm1|].
    intros k Hk.
    destruct (header_region_covered host_le L _ _ _ _ Hparse) as [Hc0 _].
    apply Hc0. pose proof (layout_of_class_sizes _ _ HL).
    apply read_at_length in Hr. unfold in_region, EI_NIDENT in *. lia. }
  rewrite squash_run by (done || eauto). cbn zeta.
  rewrite lookup_insert_ne by done. rewrite Hmdt1, Hdet1, HL.
  apply (roundtrip_impl host_le replace_extension L _ mbn mdt out mdt_path
           wa w1 _ f ehdr phdrs phdr0 mdt1 Hfa);
    try done.
  - cbn [files spath mdt wa]. apply lookup_insert_eq.
  - intros k Hk. rewrite Forall_forall in Hcov. apply Hcov.
    apply elem_of_seq. lia.
Qed.


End MainProps.

(** *** The sibling files that squash opens *)

Lemma opened_app (t1 t2 : list event) :
  opened (t1 ++ t2) = opened t1 ++ opened t2.
Proof. unfold opened. apply omap_app. Qed.

Section SquashOpens.

Variable host_le : bool.
Variable replace_extension : string → string → string.
Variable L : elf_layout.
Variable is_le : bool.

Local Abbreviation bxx := (bxx_path replace_extension).

Lemma squash_loop_opened (mdt mbn : stream) (mdt_path : string)
    (phdrs : list (list byte)) (i : nat) (c c' : Z) (w w' : world) :
  for_indexed
    (squash_segment host_le replace_extension L mdt mbn mdt_path is_le)
    i phdrs c w = (w', Returned c') →
  ∃ evs, trace w' = trace w ++ evs
    ∧ opened evs
      = map (λ j, (SBxx j, bxx mdt_path j))
          (plain_indices host_le L is_le i phdrs).
Proof.
  revert i c w. induction phdrs as [|ph r IH]; intros i c w Hrun.
  - cbn in Hrun. injection Hrun as <- _. exists []. by rewrite app_nil_r.
  - cbn [for_indexed] in Hrun. apply bind_returned_inv in Hrun
      as (w1 & c1 & Hstep & Hrest).
    destruct (IH _ _ _ Hrest) as (evs & Hevs & Hop).
    cbn [plain_indices].
    destruct (Z.eq_dec (seg_filesz host_le L is_le ph) 0) as [Hz|Hz].
    + rewrite squash_segment_skip in Hstep by done. injection Hstep as <- _.
      rewrite seg_nonempty_false by done. cbn [andb]. eauto.
    + rewrite squash_segment_run in Hstep by done.
      rewrite seg_nonempty_true by done. cbn [andb].
      destruct (seg_hash host_le L is_le ph); cbn [negb].
      * destruct (read_opt _ c _) as [seg|]; [|done].
        injection Hstep as <- _. cbn [trace] in Hevs.
        eexists. split; [rewrite Hevs, <- app_assoc; reflexivity|].
        by rewrite opened_app, Hop.
      * destruct (files w !! bxx mdt_path i) as [b|]; [|done].
        destruct (read_at b 0 _) as [seg|]; [|done].
        injection Hstep as <- _. cbn [trace] in Hevs.
        eexists. split; [rewrite Hevs, <- app_assoc; reflexivity|].
        by rewrite opened_app, Hop.
Qed.

(** X20. In a run of [squash_impl] that returns, the sibling files
    opened are, in index order, those of the non-empty segments that
    are not hash-classified; the sibling files of the hash segments,
    which [split] also writes, are never opened. *)
Theorem squash_opens_plain_siblings (mdt mbn : stream) (mdt_path : string)
    (w w' : world) :
  squash_impl host_le replace_extension L mdt mbn mdt_path is_le w
  = (w', Returned tt) →
  ∃ ehdr phdrs evs,
    parse_headers host_le L is_le (files w !! spath mdt) = Some (ehdr, phdrs)
    ∧ trace w'
      = trace w ++ header_read_events host_le L is_le (sid mdt) ehdr
        ++ write_events (sid mbn) (header_writes host_le L is_le ehdr phdrs)
        ++ evs
    ∧ opened evs
      = map (λ i, (SBxx i, bxx mdt_path i))
          (plain_indices host_le L is_le 0 phdrs).
Proof.
  intros Hrun. rewrite squash_impl_unfold in Hrun.
  apply bind_returned_inv in Hrun as (w1 & [ehdr phdrs] & Hhead & Hrun).
  apply read_headers_returned in Hhead as [Hparse ->].
  apply bind_returned_inv in Hrun as (w2 & [] & Hwr & Hrun).
  rewrite write_headers_run in Hwr. injection Hwr as <-.
  cbn [fst snd] in *.
  destruct (phdrs !! 0%nat) as [phdr0|] eqn:H0; [|done].
  apply bind_returned_inv in Hrun as (w3 & c & Hloop & Hret).
  injection Hret as <-.
  destruct (squash_loop_opened _ _ _ _ _ _ _ _ _ Hloop) as (evs & Htr & Hop).
  exists ehdr, phdrs, evs. split; [done|].
  split; [rewrite Htr; cbn [trace]; by rewrite <- !app_assoc|done].
Qed.

End SquashOpens.

(** *** When squash returns *)

Lemma wrap_nonneg (w : width) (x : Z) : 0 <= wrap w x.
Proof.
  unfold wrap. apply Z.mod_pos_bound. apply Z.pow_pos_nonneg; [lia|].
  unfold bits. lia.
Qed.

Lemma byteswap_nonneg (w : width) (v : Z) : 0 <= v → 0 <= byteswap w v.
Proof. intros H. destruct w; cbn [byteswap]; [done|apply wrap_nonneg..]. Qed.

Lemma decoded_nonneg (host_le is_le : bool) (w : width) (raw : list byte)
    (at_ : nat) :
  0 <= from_file_endian host_le w (field host_le raw at_ w) is_le.
Proof.
  assert (H : 0 <= field host_le raw at_ w).
  { unfold field, host_int. destruct host_le; apply of_le_bytes_range. }
  unfold from_file_endian. destruct (Bool.eqb _ _); [done|].
  by apply byteswap_nonneg.
Qed.

Lemma seg_filesz_nonneg (host_le : bool) (L : elf_layout) (is_le : bool)
    (ph : list byte) : 0 <= seg_filesz host_le L is_le ph.
Proof. apply decoded_nonneg. Qed.

Lemma fold_size_add_nonneg (l : list Z) (c : Z) :
  0 <= c → 0 <= fold_left size_add l c.
Proof.
  revert c. induction l as [|x l IH]; intros c Hc; cbn; [done|].
  apply IH. apply wrap_nonneg.
Qed.

Section SquashSpec.

Variable host_le : bool.
Variable extension : string → string.
Variable replace_extension : string → string → string.

Local Abbreviation bxx := (bxx_path replace_extension).

Section Loop.

Variable L : elf_layout.
Variable is_le : bool.

Local Abbreviation filesz := (seg_filesz host_le L is_le).
Local Abbreviation hash := (seg_hash host_le L is_le).
Local Abbreviation squash_body mdt mbn mdt_path :=
  (squash_segment host_le replace_extension L mdt mbn mdt_path is_le).

Lemma squash_loop_returns_iff (mdt mbn : stream) (mdt_path : string)
    (phdrs : list (list byte)) (i : nat) (c : Z) (w : world)
    (m : list byte) :
  files w !! spath mdt = Some m →
  spath mbn ≠ spath mdt →
  (∀ k, (k < length phdrs)%nat → spath mbn ≠ bxx mdt_path (i + k)) →
  0 <= c →
  (∃ c', (for_indexed (squash_body mdt mbn mdt_path) i phdrs c w).2
         = Returned c')
  ↔ ∀ k ph, phdrs !! k = Some ph → filesz ph ≠ 0 →
      (hash ph = true →
         fold_left size_add (hash_sizes host_le L is_le (take k phdrs)) c
         + filesz ph <= Z.of_nat (length m))
      ∧ (hash ph = false →
         ∃ b, files w !! bxx mdt_path (i + k) = Some b
              ∧ filesz ph <= Z.of_nat (length b)).
Proof.
  intros Hm Hne. revert i c w Hm.
  induction phdrs as [|ph r IH]; intros i c w Hm Hb Hc.
  - cbn [for_indexed]. unfold ret. cbn [snd].
    split; [intros _ k ph Hk; rewrite lookup_nil in Hk; discriminate Hk|].
    intros _. by exists c.
  - assert (Hb' : ∀ k, (k < length r)%nat → spath mbn ≠ bxx mdt_path (S i + k)).
    { intros k Hk. replace (S i + k)%nat with (i + S k)%nat by lia.
      apply Hb. simpl. lia. }
    assert (Hb0 : spath mbn ≠ bxx mdt_path i).
    { rewrite <- (Nat.add_0_r i). apply Hb. simpl. lia. }
    pose proof (seg_filesz_nonneg host_le L is_le ph) as Hnn.
    (* the condition on the entries after [ph], for the state after it *)
    assert (Hstep : ∀ w1 c1,
        files w1 !! spath mdt = Some m → 0 <= c1 →
        (∀ p, p ≠ spath mbn → files w1 !! p = files w !! p) →
        c1 = fold_left size_add (hash_sizes host_le L is_le [ph]) c →
        ((∃ c', (for_indexed (squash_body mdt mbn mdt_path) (S i) r c1 w1).2
                = Returned c')
         ↔ ∀ k ph', r !! k = Some ph' → filesz ph' ≠ 0 →
             (hash ph' = true →
                fold_left size_add
                  (hash_sizes host_le L is_le (take (S k) (ph :: r))) c
                + filesz ph' <= Z.of_nat (length m))
             ∧ (hash ph' = false →
                ∃ b, files w !! bxx mdt_path (i + S k) = Some b
                     ∧ filesz ph' <= Z.of_nat (length b)))).
    { intros w1 c1 Hm1 Hc1 Hfr Hcur.
      rewrite (IH (S i) c1 w1 Hm1 Hb' Hc1).
      assert (E : ∀ k, fold_left size_add
                         (hash_sizes host_le L is_le (take (S k) (ph :: r))) c
                       = fold_left size_add
                           (hash_sizes host_le L is_le (take k r)) c1).
      { intros k. cbn [take]. rewrite Hcur, !hash_sizes_cons.
        change (hash_sizes host_le L is_le []) with (@nil Z).
        by destruct (seg_nonempty host_le L is_le ph && hash ph). }
      assert (Hsib : ∀ k, (k < length r)%nat →
                files w1 !! bxx mdt_path (S i + k)
                = files w !! bxx mdt_path (i + S k)).
      { intros k Hk. replace (i + S k)%nat with (S i + k)%nat by lia.
        apply Hfr. apply not_eq_sym, Hb', Hk. }
      split; intros H k ph' Hk Hnz; specialize (H k ph' Hk Hnz);
        pose proof (lookup_lt_Some _ _ _ Hk) as Hlt.
      - rewrite E, <- Hsib by exact Hlt. exact H.
      - rewrite E, <- Hsib in H by exact Hlt. exact H. }
    assert (Hhead : ∀ P : Prop,
        (∀ k ph', r !! k = Some ph' → filesz ph' ≠ 0 →
           (hash ph' = true →
              fold_left size_add
                (hash_sizes host_le L is_le (take (S k) (ph :: r))) c
              + filesz ph' <= Z.of_nat (length m))
           ∧ (hash ph' = false →
              ∃ b, files w !! bxx mdt_path (i + S k) = Some b
                   ∧ filesz ph' <= Z.of_nat (length b)))
        ∧ (filesz ph ≠ 0 →
             (hash ph = true → c + filesz ph <= Z.of_nat (length m))
             ∧ (hash ph = false →
                ∃ b, files w !! bxx mdt_path i = Some b
                     ∧ filesz ph <= Z.of_nat (length b)))
        ↔ ∀ k ph', (ph :: r) !! k = Some ph' → filesz ph' ≠ 0 →
            (hash ph' = true →
               fold_left size_add
                 (hash_sizes host_le L is_le (take k (ph :: r))) c
               + filesz ph' <= Z.of_nat (length m))
            ∧ (hash ph' = false →
               ∃ b, files w !! bxx mdt_path (i + k) = Some b
                    ∧ filesz ph' <= Z.of_nat (length b))).
    { intros _. split.
      - intros [Hr H0] [|k] ph' Hk Hnz.
        + injection Hk as <-. rewrite Nat.add_0_r.
          change (take 0 (ph :: r)) with (@nil (list byte)).
          change (hash_sizes host_le L is_le []) with (@nil Z).
          cbn [fold_left]. exact (H0 Hnz).
        + exact (Hr k ph' Hk Hnz).
      - intros H. split.
        + intros k ph' Hk Hnz. exact (H (S k) ph' Hk Hnz).
        + intros Hnz. specialize (H 0%nat ph eq_refl Hnz).
          rewrite Nat.add_0_r in H.
          change (take 0 (ph :: r)) with (@nil (list byte)) in H.
          change (hash_sizes host_le L is_le []) with (@nil Z) in H.
          cbn [fold_left] in H. exact H. }
    rewrite <- (Hhead True). clear Hhead.
    cbn [for_indexed]. unfold bind.
    destruct (Z.eq_dec (filesz ph) 0) as [Hz|Hz].
    + rewrite squash_segment_skip by exact Hz.
      rewrite (Hstep w c Hm Hc (λ _ _, eq_refl)).
      * split; [intros H; split; [exact H|intros Hnz; contradiction]|].
        intros [H _]. exact H.
      * rewrite hash_sizes_cons, seg_nonempty_false by exact Hz.
        reflexivity.
    + rewrite squash_segment_run by exact Hz.
      destruct (hash ph) eqn:Hhp.
      * rewrite Hm.
        destruct (read_opt (Some m) c (filesz ph)) as [seg|] eqn:Hr.
        -- apply read_opt_bounds in Hr as (? & [= <-] & ? & ? & ? & _);
             [|exact Hz].
           rewrite Hstep; cycle 1.
           { cbn [files]. rewrite lookup_insert_ne by exact Hne. exact Hm. }
           { apply wrap_nonneg. }
           { intros p Hp. cbn [files]. apply lookup_insert_ne.
             intros E. apply Hp. by rewrite E. }
           { rewrite hash_sizes_cons, seg_nonempty_true, Hhp by exact Hz.
             reflexivity. }
           split; [|intros [Hall _]; exact Hall].
           intros Hall. split; [exact Hall|]. intros _.
           split; [intros _; lia|intros [=]].
        -- cbn [snd]. split; [intros [? [=]]|].
           intros [_ H]. destruct (H Hz) as [H1 _]. specialize (H1 eq_refl).
           exfalso.
           assert (is_Some (read_at m c (filesz ph))) as [d Hd].
           { eexists. apply read_at_Some; [exact Hz|]. repeat split; lia. }
           change (read_at m c (filesz ph) = None) in Hr. congruence.
      * destruct (files w !! bxx mdt_path i) as [b|] eqn:Hbi.
        -- destruct (read_at b 0 (filesz ph)) as [seg|] eqn:Hr.
           ++ apply read_at_Some in Hr as (_ & ? & ? & _); [|exact Hz].
              rewrite Hstep; cycle 1.
              { cbn [files]. rewrite lookup_insert_ne by exact Hne. exact Hm. }
              { exact Hc. }
              { intros p Hp. cbn [files]. apply lookup_insert_ne.
                intros E. apply Hp. by rewrite E. }
              { rewrite hash_sizes_cons, seg_nonempty_true, Hhp by exact Hz.
                reflexivity. }
              split; [|intros [Hall _]; exact Hall].
              intros Hall. split; [exact Hall|]. intros _.
              split; [intros [=]|intros _]. exists b. split; [reflexivity|lia].
           ++ cbn [snd]. split; [intros [? [=]]|].
              intros [_ H]. destruct (H Hz) as [_ H1].
              destruct (H1 eq_refl) as (b' & [= <-] & Hlen). exfalso.
              assert (is_Some (read_at b 0 (filesz ph))) as [d Hd];
                [|congruence].
              eexists. apply read_at_Some; [exact Hz|]. repeat split; lia.
        -- cbn [snd]. split; [intros [? [=]]|].
           intros [_ H]. destruct (H Hz) as [_ H1].
           destruct (H1 eq_refl) as (b' & [=] & _).
Qed.

End Loop.

Lemma squash_run_no_view (mdt_path out_path : string) (w : world)
    (m : list byte) :
  extension mdt_path = ".mdt"%string →
  files w !! mdt_path = Some m → out_path ≠ mdt_path →
  elf_view host_le m = None →
  ∃ e, (squash host_le extension replace_extension mdt_path out_path w).2
       = Thrown e.
Proof.
  intros Hext Hf Hne Hview.
  rewrite squash_run by (done || eauto). cbn zeta.
  assert (E : <[out_path:=[]]> (files w) !! mdt_path = Some m)
    by (rewrite lookup_insert_ne by done; exact Hf).
  rewrite lookup_insert_ne by done. rewrite Hf. unfold elf_view in Hview.
  destruct (detect_outcome (Some m)) as [format|e] eqn:Hdet; [|eauto].
  destruct (detect_outcome_class _ _ Hdet) as [L HL].
  rewrite HL in *. cbn [mbind option_bind] in Hview.
  destruct (parse_headers host_le L _ (Some m)) as [[e p]|] eqn:Hparse;
    [done|].
  rewrite squash_impl_unfold.
  match goal with
  | |- context [bind (read_headers _ _ ?s _) _ ?w0] =>
      destruct (read_headers_fail host_le L (is_little_endian format) s w0)
        as (w' & Hrun & _);
        [cbn [files spath]; rewrite E; exact Hparse|]
  end.
  erewrite bind_thrown; [|exact Hrun]. eauto.
Qed.

Lemma squash_run_empty_table (mdt_path out_path : string) (w : world)
    (m : list byte) L is_le ehdr :
  extension mdt_path = ".mdt"%string →
  files w !! mdt_path = Some m → out_path ≠ mdt_path →
  elf_view host_le m = Some (L, is_le, ehdr, []) →
  (squash host_le extension replace_extension mdt_path out_path w).2
  = Thrown IndexOutOfRange.
Proof.
  intros Hext Hf Hne Hview.
  unfold elf_view in Hview.
  destruct (detect_outcome (Some m)) as [format|] eqn:Hdet; [|done].
  destruct (layout_of_class (elf_class format)) as [L'|] eqn:HL; [|done].
  cbn [mbind option_bind] in Hview.
  destruct (parse_headers host_le L' _ (Some m)) as [[e p]|] eqn:Hparse;
    [|done].
  cbn [mbind option_bind fst snd] in Hview.
  injection Hview as -> <- -> ->.
  rewrite squash_run by (done || eauto). cbn zeta.
  assert (E : <[out_path:=[]]> (files w) !! mdt_path = Some m)
    by (rewrite lookup_insert_ne by done; exact Hf).
  rewrite lookup_insert_ne by done.
  rewrite Hf, Hdet, HL. rewrite squash_impl_unfold.
  erewrite bind_ok;
    [|apply read_headers_ok; cbn [files spath]; rewrite E; exact Hparse].
  cbn [fst snd]. erewrite bind_ok; [|apply write_headers_run]. done.
Qed.

Lemma squash_view_returns_iff (mdt_path out_path : string) (w : world)
    (m : list byte) L is_le ehdr phdrs :
  extension mdt_path = ".mdt"%string →
  files w !! mdt_path = Some m →
  out_path ≠ mdt_path →
  (∀ k, (k < length phdrs)%nat → out_path ≠ bxx mdt_path k) →
  elf_view host_le m = Some (L, is_le, ehdr, phdrs) →
  phdrs ≠ [] →
  (squash host_le extension replace_extension mdt_path out_path w).2
    = Returned tt
  ↔ squash_inputs_ok host_le replace_extension L is_le (files w)
      mdt_path m phdrs.
Proof.
  intros Hext Hf Hne Hb Hview Hnil.
  destruct phdrs as [|ph0 r]; [done|].
  destruct (squash_run_view host_le extension replace_extension
              _ _ _ _ _ _ _ _ ph0 Hext Hf Hne Hview eq_refl) as [t ->].
  set (phdrs := ph0 :: r) in *.
  match goal with
  | |- (bind ?loop _ ?w2).2 = _ ↔ _ =>
      assert (Hret : (bind loop (λ _, ret tt) w2).2 = Returned tt
                     ↔ ∃ c', (loop w2).2 = Returned c')
  end.
  { unfold bind. destruct (for_indexed _ _ _ _ _) as [w3 [c'|e]];
      unfold ret; cbn [snd].
    - split; eauto.
    - split; [done|]. by intros [? ?]. }
  rewrite Hret. clear Hret.
  rewrite (squash_loop_returns_iff L is_le _ _ _ _ _ _ _ m).
  - unfold squash_inputs_ok, hash_cursor.
    cbn [phdrs lookup list_lookup default files Nat.add].
    split; intros H k ph Hk Hnz; specialize (H k ph Hk Hnz);
      pose proof (lookup_lt_Some _ _ _ Hk) as Hlt.
    + rewrite lookup_insert_ne in H by (apply Hb, Hlt). exact H.
    + rewrite lookup_insert_ne by (apply Hb, Hlt). exact H.
  - cbn [files spath]. rewrite lookup_insert_ne by exact Hne. exact Hf.
  - exact Hne.
  - intros k Hk. apply Hb, Hk.
  - apply seg_filesz_nonneg.
Qed.


Lemma split_mdt_view (f tail : list byte) L is_le ehdr phdrs :
  elf_view host_le f = Some (L, is_le, ehdr, phdrs) →
  elf_view host_le
    (replay (header_writes host_le L is_le ehdr phdrs) [] ++ tail)
  = Some (L, is_le, ehdr, phdrs).
Proof.
  intros Hview. unfold elf_view in *.
  destruct (detect_outcome (Some f)) as [format|] eqn:Hdet; [|done].
  destruct (layout_of_class (elf_class format)) as [L'|] eqn:HL; [|done].
  cbn [mbind option_bind] in Hview.
  destruct (parse_headers host_le L' _ (Some f)) as [[e p]|] eqn:Hparse;
    [|done].
  cbn [mbind option_bind fst snd] in Hview.
  injection Hview as -> <- -> ->.
  set (g := replay (header_writes host_le L (is_little_endian format)
                      ehdr phdrs) [] ++ tail).
  assert (Hm1 : matches g f
            (covered (header_writes host_le L (is_little_endian format)
                        ehdr phdrs))).
  { apply matches_app.
    - by apply headers_image_matches.
    - intros k. apply covered_lt.
      by apply header_writes_from_source. }
  assert (Hdet1 : detect_outcome (Some g) = Returned format).
  { unfold detect_outcome in *.
    destruct (read_opt (Some f) 0 EI_NIDENT) as [e|] eqn:Hr; [|done].
    assert (Hr1 : read_opt (Some g) 0 EI_NIDENT = Some e);
      [|by rewrite Hr1].
    eapply read_at_transfer; [exact Hr|exact Hm1|].
    intros k Hk.
    destruct (header_region_covered host_le L _ _ _ _ Hparse) as [Hc0 _].
    apply Hc0. pose proof (layout_of_class_sizes _ _ HL).
    apply read_at_length in Hr. unfold in_region, EI_NIDENT in *. lia. }
  rewrite Hdet1, HL. cbn [mbind option_bind].
  by rewrite (parse_transfer host_le L _ f g ehdr phdrs Hparse Hm1).
Qed.


End SquashSpec.

(** *** Instances *)

Lemma bxx_path_fw (i : nat) :
  bxx_path posix_replace_extension "fw.mdt" i
  = ("fw" +:+ bxx_extension i)%string.
Proof.
  unfold bxx_path, posix_replace_extension.
  replace (path_parts "fw.mdt")
    with (@nil ascii, ["f"; "w"]%char, ["."; "m"; "d"; "t"]%char)
    by (vm_compute; reflexivity).
  destruct (bxx_extension_dot i) as [s ->]. reflexivity.
Qed.

Lemma bxx_path_fw_ne (p : string) (i : nat) :
  bool_decide (p ∈ ["fw.mbn"; "out.mbn"; "fw.mdt"]%string) = true →
  p ≠ bxx_path posix_replace_extension "fw.mdt" i.
Proof.
  intros Hp%bool_decide_eq_true. rewrite bxx_path_fw.
  unfold bxx_extension.
  repeat (apply elem_of_cons in Hp as [->|Hp]);
    [..|by apply elem_of_nil in Hp];
    destruct (_ <? _)%nat; discriminate.
Qed.

Lemma byteswap_involutive_witness :
  in_range W32 (byteswap W32 0x12345678)
  ∧ byteswap W32 (byteswap W32 0x12345678) = 0x12345678
  ∧ from_file_endian true W32 (from_file_endian true W32 0x12345678 false)
      false = 0x12345678.
Proof.
  apply (byteswap_involutive true false W32 0x12345678).
  split; vm_compute; [discriminate|reflexivity].
Defined.


Lemma split_writes_only_outputs_witness :
  files (run_split image_conventional).1 !! "fw.mbn"%string
  = Some image_conventional.
Proof.
  apply (split_writes_only_outputs true posix_extension
           posix_replace_extension "fw.mbn" "fw.mdt"
           (world_of [("fw.mbn"%string, image_conventional)]) "fw.mbn").
  - discriminate.
  - intros i. by apply bxx_path_fw_ne.
Defined.

Lemma squash_writes_only_output_witness :
  files (run_squash split_files).1 !! "fw.b00"%string
  = Some (take 116 image_conventional).
Proof.
  apply (squash_writes_only_output true posix_extension
           posix_replace_extension "fw.mdt" "out.mbn" split_files "fw.b00").
  discriminate.
Defined.

Lemma missing_input_creates_nothing_witness :
  (split true posix_extension posix_replace_extension "fw.mbn" "fw.mdt"
     (world_of [])).2 = Thrown (OpenFailed "fw.mbn")
  ∧ files (split true posix_extension posix_replace_extension "fw.mbn"
             "fw.mdt" (world_of [])).1 = ∅.
Proof.
  destruct (missing_input_creates_nothing true posix_extension
              posix_replace_extension "fw.mbn" "fw.mdt" (world_of []))
    as [Hsplit _].
  - vm_compute; reflexivity.
  - apply Hsplit. reflexivity.
Defined.



Lemma split_result_witness :
  files (run_split image_two_segments).1 !! "fw.mdt"%string
  = Some (take 116 image_two_segments ++ [xaa; xbb])
  ∧ files (run_split image_two_segments).1 !! "fw.b01"%string = Some [xcc].
Proof.
  destruct (split_result true posix_extension posix_replace_extension
              "fw.mbn" "fw.mdt"
              (world_of [("fw.mbn"%string, image_two_segments)])
              (run_split image_two_segments).1
              image_two_segments Elf32 true
              (take 52 image_two_segments)
              [slice image_two_segments 52 32; slice image_two_segments 84 32])
    as (Hmdt & Hsib & _).
  - vm_compute; reflexivity.
  - apply run_returned. vm_compute; reflexivity.
  - vm_compute; reflexivity.
  - apply (bool_decide_unpack _); vm_compute; exact I.
  - split.
    + rewrite Hmdt. vm_compute; reflexivity.
    + destruct (Hsib 1%nat (slice image_two_segments 84 32)) as [Hb _].
      * reflexivity.
      * vm_compute; discriminate.
      * unfold run_split. etrans; [exact Hb|]. vm_compute; reflexivity.
Defined.


Lemma split_twice_changes_nothing_witness :
  ∃ w2,
    split true posix_extension posix_replace_extension "fw.mbn" "fw.mdt"
      (run_split image_two_segments).1 = (w2, Returned tt)
    ∧ files w2 = files (run_split image_two_segments).1.
Proof.
  apply (split_twice_changes_nothing true posix_extension
           posix_replace_extension "fw.mbn" "fw.mdt"
           (world_of [("fw.mbn"%string, image_two_segments)])
           (run_split image_two_segments).1
           image_two_segments Elf32 true
           (take 52 image_two_segments)
           [slice image_two_segments 52 32; slice image_two_segments 84 32]).
  - vm_compute; reflexivity.
  - apply run_returned. vm_compute; reflexivity.
  - vm_compute; reflexivity.
  - apply (bool_decide_unpack _); vm_compute; exact I.
Defined.

Lemma read_program_headers_table_witness :
  ∃ phdrs,
    (read_program_headers true Elf32 mbn_stream (take 52 image_conventional)
       true (world_of [("fw.mbn"%string, image_conventional)])).2
    = Returned phdrs
    ∧ length phdrs = 2%nat.
Proof.
  destruct (read_program_headers_table true Elf32 true mbn_stream
              (take 52 image_conventional)
              (world_of [("fw.mbn"%string, image_conventional)])
              image_conventional) as (_ & Hok & _).
  - vm_compute; reflexivity.
  - destruct Hok as (phdrs & Hrun & Hlen & _).
    + intros i Hi.
      assert (i = 0 ∨ i = 1)%nat as [-> | ->] by (vm_compute in Hi; lia);
        vm_compute; eauto.
    + exists phdrs. split; [exact Hrun|]. rewrite Hlen. vm_compute; reflexivity.
Defined.

Lemma squash_places_sibling_witness :
  ∃ b o,
    files split_files !! "fw.b00"%string = Some b
    ∧ files (run_squash split_files).1 !! "out.mbn"%string = Some o
    ∧ o !! 115%nat = b !! 115%nat.
Proof.
  destruct (squash_places_sibling true posix_extension posix_replace_extension
              "fw.mdt" "out.mbn" split_files (run_squash split_files).1
              image_conventional Elf32 true
              (take 52 image_conventional)
              [slice image_conventional 52 32; slice image_conventional 84 32]
              0 (slice image_conventional 52 32))
    as (b & o & Hb & _ & Ho & Hj).
  - vm_compute; reflexivity.
  - apply run_returned. vm_compute; reflexivity.
  - vm_compute; reflexivity.
  - discriminate.
  - vm_compute; discriminate.
  - reflexivity.
  - vm_compute; discriminate.
  - vm_compute; reflexivity.
  - exists b, o. split; [exact Hb|]. split; [exact Ho|].
    rewrite (Hj 115%nat).
    + f_equal.
    + vm_compute. lia.
    + apply (bool_decide_eq_false_1 (segment_region _ _ _ _ _)).
      vm_compute; reflexivity.
Defined.

Lemma squash_places_hash_segment_witness :
  ∃ o,
    hash_cursor true Elf32 true
      [slice image_conventional 52 32; slice image_conventional 84 32] 1 = 116
    ∧ files (run_squash split_files).1 !! "out.mbn"%string = Some o
    ∧ o !! 117%nat = image_conventional !! 117%nat.
Proof.
  destruct (squash_places_hash_segment true posix_extension
              posix_replace_extension
              "fw.mdt" "out.mbn" split_files (run_squash split_files).1
              image_conventional Elf32 true
              (take 52 image_conventional)
              [slice image_conventional 52 32; slice image_conventional 84 32]
              1 (slice image_conventional 84 32))
    as (o & _ & _ & Ho & Hj).
  - vm_compute; reflexivity.
  - apply run_returned. vm_compute; reflexivity.
  - vm_compute; reflexivity.
  - discriminate.
  - reflexivity.
  - vm_compute; discriminate.
  - vm_compute; reflexivity.
  - exists o. split; [vm_compute; reflexivity|]. split; [exact Ho|].
    rewrite (Hj 117%nat).
    + f_equal.
    + vm_compute. lia.
    + apply (bool_decide_eq_false_1 (segment_region _ _ _ _ _)).
      vm_compute; reflexivity.
Defined.

Lemma write_elf_header_and_phdrs_inline_witness :
  ∃ m,
    write_elf_header_and_phdrs out_stream (take 52 image_conventional) 52
      (slice image_conventional 52 64 ++ [xde]) 32 = Some m
    ∧ m (world_of [("out.mbn"%string, [])])
      = write_headers true Elf32 out_stream (take 52 image_conventional)
          [slice image_conventional 52 32; slice image_conventional 84 32]
          true (world_of [("out.mbn"%string, [])]).
Proof.
  apply (write_elf_header_and_phdrs_inline true Elf32 true out_stream
           (take 52 image_conventional)
           [slice image_conventional 52 32; slice image_conventional 84 32]
           [xde] (world_of [("out.mbn"%string, [])])).
  - repeat constructor.
  - simpl. lia.
  - vm_compute; reflexivity.
Defined.


Lemma squash_opens_plain_siblings_witness :
  ∃ ehdr phdrs evs,
    parse_headers true Elf32 true (Some image_conventional)
    = Some (ehdr, phdrs)
    ∧ trace (squash_impl true posix_replace_extension Elf32 mdt_stream
               out_stream "fw.mdt" true split_files).1
      = [] ++ header_read_events true Elf32 true SMdt ehdr
        ++ write_events SMbn (header_writes true Elf32 true ehdr phdrs)
        ++ evs
    ∧ opened evs
      = map (λ i, (SBxx i, bxx_path posix_replace_extension "fw.mdt" i))
          (plain_indices true Elf32 true 0 phdrs).
Proof.
  apply (squash_opens_plain_siblings true posix_replace_extension Elf32 true
           mdt_stream out_stream "fw.mdt" split_files).
  apply run_returned. vm_compute; reflexivity.
Defined.


